(** * Policy resolution core of the mesh console

    A shallow embedding of the pure functions of
    [kubernetes/istio.go] (port naming rule, exportTo visibility, the
    service host index, PeerAuthentication / DestinationRule mode readers)
    and of [util/mtls/status.go] (workload, namespace and mesh mTLS status),
    followed by the properties proved about them.

    Go strings are byte sequences and are modelled by [string]; Go maps
    with string keys are [gmap string _]; a nilable map is an [option]. *)

From Stdlib Require Import String Ascii List Bool Arith NArith Lia.
From stdpp Require Import base option list gmap strings fin_maps.

Local Open Scope string_scope.
Local Open Scope list_scope.

(** ** Go standard library: the part of [strings] the code calls *)

Module strings.

(** Lower casing of the ASCII letters, byte by byte: what
    [strings.ToLower] does on a string made of ASCII bytes.  On other
    strings Go maps every rune through [unicode.ToLower], which is not
    modelled; what is proved about lower-cased protocol texts is stated for
    ASCII texts. *)
Definition lower_byte (c : ascii) : ascii :=
  let n := nat_of_ascii c in
  if (65 <=? n)%nat && (n <=? 90)%nat then ascii_of_nat (n + 32) else c.

Fixpoint ToLower (s : string) : string :=
  match s with
  | EmptyString => EmptyString
  | String c r => String (lower_byte c) (ToLower r)
  end.

Fixpoint HasPrefix (s p : string) {struct p} : bool :=
  match p, s with
  | EmptyString, _ => true
  | String _ _, EmptyString => false
  | String b p', String a s' => Ascii.eqb a b && HasPrefix s' p'
  end.

(** The slice expression [s[n:]] for [n <= len(s)]. *)
Fixpoint slice_from (n : nat) (s : string) : string :=
  match n, s with
  | O, _ => s
  | S n', String _ r => slice_from n' r
  | S _, EmptyString => EmptyString
  end.

(** [strings.Split(s, sep)] for a one-byte separator: the result always
    has one more element than [s] has separators. *)
Fixpoint Split (s : string) (sep : ascii) : list string :=
  match s with
  | EmptyString => [EmptyString]
  | String c r =>
      if Ascii.eqb c sep then EmptyString :: Split r sep
      else match Split r sep with
           | [] => [String c EmptyString]
           | h :: t => String c h :: t
           end
  end.

(** [strings.Join(parts, sep)] for a one-byte separator. *)
Fixpoint Join (parts : list string) (sep : ascii) : string :=
  match parts with
  | [] => EmptyString
  | [p] => p
  | p :: rest => (p ++ String sep (Join rest sep))%string
  end.

(** The white space of [unicode.IsSpace], each rune in its UTF-8
    encoding: tab, newline, vertical tab, form feed, carriage return,
    space, U+0085, U+00A0, U+1680, U+2000 to U+200A, U+2028, U+2029,
    U+202F, U+205F and U+3000. *)
Definition space_encodings : list (list ascii) :=
  map (map ascii_of_nat)
    [ [9]; [10]; [11]; [12]; [13]; [32];
      [194; 133]; [194; 160];
      [225; 154; 128];
      [226; 128; 128]; [226; 128; 129]; [226; 128; 130]; [226; 128; 131];
      [226; 128; 132]; [226; 128; 133]; [226; 128; 134]; [226; 128; 135];
      [226; 128; 136]; [226; 128; 137]; [226; 128; 138];
      [226; 128; 168]; [226; 128; 169]; [226; 128; 175];
      [226; 129; 159];
      [227; 128; 128] ]%nat.

(** [s] without the leading bytes [p], when it starts with them. *)
Fixpoint strip_prefix (p s : list ascii) : option (list ascii) :=
  match p, s with
  | [], _ => Some s
  | _ :: _, [] => None
  | a :: p', b :: s' => if Ascii.eqb a b then strip_prefix p' s' else None
  end.

(** [s] without its first rune, when that rune is one of [encodings].  A
    byte sequence that is not the UTF-8 encoding of a white space rune
    (a lone continuation byte, an over-long form) decodes to no white
    space and is left in place. *)
Fixpoint strip_rune (encodings : list (list ascii)) (s : list ascii)
    : option (list ascii) :=
  match encodings with
  | [] => None
  | e :: rest =>
      match strip_prefix e s with
      | Some r => Some r
      | None => strip_rune rest s
      end
  end.

(** The loop of [strings.TrimLeftFunc]: runes are dropped from the start
    while they are among [encodings]; [fuel] bounds their number. *)
Fixpoint trim_start (encodings : list (list ascii)) (fuel : nat) (s : list ascii)
    : list ascii :=
  match fuel with
  | O => s
  | S n =>
      match strip_rune encodings s with
      | Some r => trim_start encodings n r
      | None => s
      end
  end.

Definition TrimLeft (s : string) : string :=
  let l := list_ascii_of_string s in
  string_of_list_ascii (trim_start space_encodings (List.length l) l).

(** [strings.TrimRightFunc] reads the runes from the end: the same loop
    on the reversed bytes, with the encodings reversed. *)
Definition TrimRight (s : string) : string :=
  let l := rev (list_ascii_of_string s) in
  string_of_list_ascii
    (rev (trim_start (map (@rev ascii) space_encodings) (List.length l) l)).

(** [strings.TrimSpace]: leading and trailing white space removed, as
    defined by Unicode. *)
Definition TrimSpace (s : string) : string := TrimRight (TrimLeft s).

End strings.

(** ** Go standard library: the fragment of [regexp] used by the port rule

    Regular expressions over bytes with Brzozowski derivatives.
    [MatchString] reports whether the expression, anchored at the start of
    the text by [^], matches some prefix of the text. *)

Module regexp.

Inductive regex : Type :=
| Empty : regex                      (* matches nothing *)
| Eps : regex                        (* matches the empty text *)
| Class : list ascii -> regex        (* [...] *)
| AnyNotNL : regex                   (* . *)
| Seq : regex -> regex -> regex
| Alt : regex -> regex -> regex
| Star : regex -> regex.

Fixpoint nullable (r : regex) : bool :=
  match r with
  | Empty => false
  | Eps => true
  | Class _ => false
  | AnyNotNL => false
  | Seq a b => nullable a && nullable b
  | Alt a b => nullable a || nullable b
  | Star _ => true
  end.

Definition newline : ascii := ascii_of_nat 10.

Fixpoint deriv (c : ascii) (r : regex) : regex :=
  match r with
  | Empty => Empty
  | Eps => Empty
  | Class cs => if existsb (Ascii.eqb c) cs then Eps else Empty
  | AnyNotNL => if Ascii.eqb c newline then Empty else Eps
  | Seq a b =>
      if nullable a then Alt (Seq (deriv c a) b) (deriv c b)
      else Seq (deriv c a) b
  | Alt a b => Alt (deriv c a) (deriv c b)
  | Star a => Seq (deriv c a) (Star a)
  end.

(** A start-anchored expression: [^r]. *)
Record Regexp : Type := MustCompileAnchored { body : regex }.

Fixpoint match_prefix (r : regex) (s : string) : bool :=
  nullable r ||
  match s with
  | EmptyString => false
  | String c s' => match_prefix (deriv c r) s'
  end.

Definition MatchString (re : Regexp) (s : string) : bool :=
  match_prefix (body re) s.

End regexp.

(** ** External API types (istio.io/api, k8s.io/api), as the code reads them *)

Module api.

(** [PeerAuthentication_MutualTLS_Mode] and its [String()] method. *)
Inductive PeerAuthentication_MutualTLS_Mode : Type :=
| PA_UNSET | PA_DISABLE | PA_PERMISSIVE | PA_STRICT.

Definition pa_mode_String (m : PeerAuthentication_MutualTLS_Mode) : string :=
  match m with
  | PA_UNSET => "UNSET"
  | PA_DISABLE => "DISABLE"
  | PA_PERMISSIVE => "PERMISSIVE"
  | PA_STRICT => "STRICT"
  end.

(** [ClientTLSSettings_TLSmode] and its [String()] method. *)
Inductive ClientTLSSettings_TLSmode : Type :=
| TLS_DISABLE | TLS_SIMPLE | TLS_MUTUAL | TLS_ISTIO_MUTUAL.

Definition tls_mode_String (m : ClientTLSSettings_TLSmode) : string :=
  match m with
  | TLS_DISABLE => "DISABLE"
  | TLS_SIMPLE => "SIMPLE"
  | TLS_MUTUAL => "MUTUAL"
  | TLS_ISTIO_MUTUAL => "ISTIO_MUTUAL"
  end.

(** A workload selector; [MatchLabels] may be a nil map. *)
Record WorkloadSelector : Type := {
  MatchLabels : option (gmap string string)
}.

(** [len] of a possibly nil map. *)
Definition len_map (m : option (gmap string string)) : nat :=
  match m with
  | None => 0
  | Some l => size l
  end.

Record PeerAuthentication : Type := {
  pa_Name : string;
  pa_Namespace : string;
  pa_Selector : option WorkloadSelector;               (* Spec.Selector *)
  pa_Mtls : option PeerAuthentication_MutualTLS_Mode   (* Spec.Mtls *)
}.

Record TrafficPolicy : Type := {
  Tls : option ClientTLSSettings_TLSmode                (* TrafficPolicy.Tls *)
}.

Record DestinationRule : Type := {
  dr_Name : string;
  dr_Namespace : string;
  dr_Host : string;                                     (* Spec.Host *)
  dr_TrafficPolicy : option TrafficPolicy               (* Spec.TrafficPolicy *)
}.

Record ServicePort : Type := {
  port_Name : string;
  port_Port : Z
}.

Record Service : Type := {
  svc_Name : string;
  svc_Namespace : string;
  svc_Annotations : gmap string string;
  svc_Selector : gmap string string;                    (* Spec.Selector *)
  svc_Ports : list ServicePort                          (* Spec.Ports *)
}.

(** The one configuration value the code reads:
    [conf.ExternalServices.Istio.IstioIdentityDomain]. *)
Record Config : Type := {
  IstioIdentityDomain : string
}.

(** Istio's [Port] and [ServicePort] messages: the code reads [Name] and
    [Protocol] only. *)
Record Port : Type := {
  iport_Number : Z;
  iport_Protocol : string;
  iport_Name : string
}.

(** A ServiceEntry, as [ServiceEntryHostnames] reads it; the ports of the
    list are non-nil pointers. *)
Record ServiceEntry : Type := {
  se_Name : string;
  se_Namespace : string;
  se_Hosts : list string;                               (* Spec.Hosts *)
  se_Ports : list Port                                  (* Spec.Ports *)
}.

End api.

(** ** [k8s.io/apimachinery/pkg/labels]: exact-match selectors *)

Module labels.

(** [labels.Set(sel).AsSelector().Matches(ls)]: one equality requirement
    per entry of [sel]; every requirement must hold in [ls].  A selector
    without requirements matches every label set. *)
Definition Matches (sel ls : gmap string string) : bool :=
  forallb (fun kv => bool_decide (ls !! kv.1 = Some kv.2)) (map_to_list sel).

End labels.

(** ** kubernetes/istio.go *)

Module kubernetes.
Import api.

(** [portNameMatcher = regexp.MustCompile(`^[\-].*`)] *)
Definition portNameMatcher : regexp.Regexp :=
  regexp.MustCompileAnchored
    (regexp.Seq (regexp.Class ["-"%char]) (regexp.Star regexp.AnyNotNL)).

Definition MatchPortNameRule (portName protocol : string) : bool :=
  let protocol := strings.ToLower protocol in
  if String.eqb protocol "tcp" || String.eqb protocol "udp" then true
  else if negb (strings.HasPrefix portName protocol) then false
  else if (String.length protocol <? String.length portName)%nat then
    let restPortName := strings.slice_from (String.length protocol) portName in
    regexp.MatchString portNameMatcher restPortName
  else true.

Definition mapPortToVirtualServiceProtocol (proto : string) : string :=
  if String.eqb proto "HTTP" || String.eqb proto "HTTP2" || String.eqb proto "GRPC"
  then "http"
  else if String.eqb proto "HTTPS" || String.eqb proto "TLS" then "tls"
  else "tcp".

Definition ExportToAnnotation : string := "networking.istio.io/exportTo".

Record kubeServiceEntry : Type := {
  exportTo : list string;
  namespace : string
}.

(** [parseExportToAnnotation]: the loop appends every non-empty trimmed
    part to [result]. *)
Definition parseExportToAnnotation_step (result : list string) (p : string) : list string :=
  let p := strings.TrimSpace p in
  if negb (String.eqb p "") then result ++ [p] else result.

Definition parseExportToAnnotation (annotation : string) : list string :=
  let parts := strings.Split annotation ","%char in
  fold_left parseExportToAnnotation_step parts [].

(** The index.  The Go map holds pointers: [entries] maps a host name to
    the address of its entry, [heap] holds the entries allocated so far;
    the entry of the [i]-th service of the input is allocated at
    address [i]. *)
Record KubeServiceHosts : Type := {
  entries : gmap string nat;
  heap : list kubeServiceEntry
}.

(** The entry built at the top of the loop body. *)
Definition newEntry (defaultExportTo : list string) (svc : Service) : kubeServiceEntry :=
  match svc_Annotations svc !! ExportToAnnotation with
  | Some ann => {| exportTo := parseExportToAnnotation ann; namespace := svc_Namespace svc |}
  | None => {| exportTo := defaultExportTo; namespace := svc_Namespace svc |}
  end.

Definition fqdn (clusterDomain : string) (svc : Service) : string :=
  (svc_Name svc ++ "." ++ svc_Namespace svc ++ "." ++ clusterDomain)%string.
Definition shortFqdn (svc : Service) : string :=
  (svc_Name svc ++ "." ++ svc_Namespace svc ++ ".svc")%string.
Definition twoPart (svc : Service) : string :=
  (svc_Name svc ++ "." ++ svc_Namespace svc)%string.

(** One iteration of the loop of [NewKubeServiceHosts]. *)
Definition register (clusterDomain : string) (defaultExportTo : list string)
    (h : KubeServiceHosts) (svc : Service) : KubeServiceHosts :=
  let entry := List.length (heap h) in
  {| entries :=
       <[twoPart svc := entry]>
         (<[shortFqdn svc := entry]>
            (<[fqdn clusterDomain svc := entry]> (entries h)));
     heap := heap h ++ [newEntry defaultExportTo svc] |}.

(** A nil [defaultExportTo] and an empty one are both []: the code only
    takes its length and ranges over it. *)
Definition NewKubeServiceHosts (services : list Service) (conf : Config)
    (defaultExportTo : list string) : KubeServiceHosts :=
  let clusterDomain := IstioIdentityDomain conf in
  fold_left (register clusterDomain defaultExportTo) services
    {| entries := ∅; heap := [] |}.

Definition KubeServiceFQDNs (services : list Service) (conf : Config) : KubeServiceHosts :=
  NewKubeServiceHosts services conf [].

(** Dereferencing [h.entries[host]]. *)
Definition entry_of (h : KubeServiceHosts) (host : string) : option kubeServiceEntry :=
  match entries h !! host with
  | Some a => heap h !! a
  | None => None
  end.

Definition HasHost (h : KubeServiceHosts) (host : string) : bool :=
  match entries h !! host with
  | Some _ => true
  | None => false
  end.

Fixpoint IsExportedTo_loop (exportTo : list string)
    (resourceNamespace viewerNamespace : string) : bool :=
  match exportTo with
  | [] => false
  | export :: rest =>
      if String.eqb export "*" then true
      else if String.eqb export "." then
        if String.eqb resourceNamespace viewerNamespace then true
        else IsExportedTo_loop rest resourceNamespace viewerNamespace
      else if String.eqb export "~" then
        IsExportedTo_loop rest resourceNamespace viewerNamespace
      else if String.eqb export viewerNamespace then true
      else IsExportedTo_loop rest resourceNamespace viewerNamespace
  end.

Definition IsExportedTo (exportTo : list string)
    (resourceNamespace viewerNamespace : string) : bool :=
  if (List.length exportTo =? 0)%nat then true
  else IsExportedTo_loop exportTo resourceNamespace viewerNamespace.

Definition IsValidForNamespace (h : KubeServiceHosts) (host ns : string) : bool :=
  match entry_of h host with
  | None => false
  | Some entry => IsExportedTo (exportTo entry) (namespace entry) ns
  end.

Definition PeerAuthnMTLSMode (peerAuthn : PeerAuthentication) : bool * string :=
  match pa_Mtls peerAuthn with
  | Some m =>
      let mode := pa_mode_String m in
      (String.eqb mode "STRICT" || String.eqb mode "PERMISSIVE", mode)
  | None => (false, "")
  end.

Definition PeerAuthnHasMTLSEnabled (peerAuthn : PeerAuthentication) : bool * string :=
  match pa_Selector peerAuthn with
  | Some sel =>
      if (0 <=? len_map (MatchLabels sel))%nat then (false, "")
      else PeerAuthnMTLSMode peerAuthn
  | None => PeerAuthnMTLSMode peerAuthn
  end.

Definition PeerAuthnHasStrictMTLS (peerAuthn : PeerAuthentication) : bool :=
  String.eqb (PeerAuthnHasMTLSEnabled peerAuthn).2 "STRICT".

Definition DestinationRuleHasMTLSEnabled (destinationRule : DestinationRule) : bool * string :=
  match dr_TrafficPolicy destinationRule with
  | Some tp =>
      match Tls tp with
      | Some m =>
          let mode := tls_mode_String m in
          (String.eqb mode "ISTIO_MUTUAL", mode)
      | None => (false, "")
      end
  | None => (false, "")
  end.

Definition DestinationRuleHasMTLSEnabledForHost (expectedHost : string)
    (destinationRule : DestinationRule) : bool * string :=
  if String.eqb (dr_Host destinationRule) "" ||
     negb (String.eqb (dr_Host destinationRule) expectedHost)
  then (false, "")
  else DestinationRuleHasMTLSEnabled destinationRule.

Definition DestinationRuleHasMeshWideMTLSEnabled (destinationRule : DestinationRule) : bool * string :=
  DestinationRuleHasMTLSEnabledForHost "*.local" destinationRule.

Definition DestinationRuleHasNamespaceWideMTLSEnabled (namespace : string)
    (destinationRule : DestinationRule) (conf : Config) : bool * string :=
  let nsHost := ("*." ++ namespace ++ "." ++ IstioIdentityDomain conf)%string in
  DestinationRuleHasMTLSEnabledForHost nsHost destinationRule.

Definition portProtocols : list string :=
  ["grpc"; "grpc-web"; "http"; "http2"; "https"; "mongo"; "redis"; "tcp"; "tls"; "udp";
   "mysql"].

(** [ValidatePort] and [ValidateServicePort]; [None] is the nil pointer. *)
Definition ValidatePort (portDef : option Port) : bool :=
  match portDef with
  | None => false
  | Some d => MatchPortNameRule (iport_Name d) (iport_Protocol d)
  end.

Definition ValidateServicePort (portDef : option Port) : bool :=
  match portDef with
  | None => false
  | Some d => MatchPortNameRule (iport_Name d) (iport_Protocol d)
  end.

(** The loop of [MatchPortNameWithValidProtocols] over [portProtocols]. *)
Fixpoint MatchPortNameWithValidProtocols_loop (portName : string)
    (protocols : list string) : bool :=
  match protocols with
  | [] => false
  | protocol :: rest =>
      if strings.HasPrefix portName protocol &&
         (String.eqb (strings.ToLower portName) protocol ||
          regexp.MatchString portNameMatcher
            (strings.slice_from (String.length protocol) portName))
      then true
      else MatchPortNameWithValidProtocols_loop portName rest
  end.

Definition MatchPortNameWithValidProtocols (portName : string) : bool :=
  MatchPortNameWithValidProtocols_loop portName portProtocols.

Fixpoint MatchPortAppProtocolWithValidProtocols_loop (appProtocol : string)
    (protocols : list string) : bool :=
  match protocols with
  | [] => false
  | protocol :: rest =>
      if String.eqb (strings.ToLower appProtocol) protocol then true
      else MatchPortAppProtocolWithValidProtocols_loop appProtocol rest
  end.

(** [appProtocol] is a [*string]. *)
Definition MatchPortAppProtocolWithValidProtocols (appProtocol : option string) : bool :=
  match appProtocol with
  | None => false
  | Some a =>
      if String.eqb a "" then false
      else MatchPortAppProtocolWithValidProtocols_loop a portProtocols
  end.

(** [ServiceEntryHostnames]: for every host of every entry, the protocols
    of the ports of the entry are put in front of what the map already
    holds for that host (nothing, for a missing key). *)
Definition ServiceEntryHostnames_host (protocols : list string)
    (hostnames : gmap string (list string)) (host : string) : gmap string (list string) :=
  <[host := protocols ++ default [] (hostnames !! host)]> hostnames.

Definition ServiceEntryHostnames_entry (hostnames : gmap string (list string))
    (serviceEntry : ServiceEntry) : gmap string (list string) :=
  fold_left
    (fun hn host =>
       let protocols :=
         map (fun port => mapPortToVirtualServiceProtocol (iport_Protocol port))
             (se_Ports serviceEntry) in
       ServiceEntryHostnames_host protocols hn host)
    (se_Hosts serviceEntry) hostnames.

Definition ServiceEntryHostnames (serviceEntries : list ServiceEntry)
    : gmap string (list string) :=
  fold_left ServiceEntryHostnames_entry serviceEntries ∅.

End kubernetes.

(** ** business/references/auth_policy_references.go *)

Module references.
Import api.

Record ServiceReference : Type := {
  ref_Name : string;
  ref_Namespace : string
}.

Section Host.
(** [kubernetes.Host] is declared in a file that is not part of this
    development: its type and the three readers used are parameters. *)
Variable Host : Type.
Variable Host_String : Host -> string.
Variable Host_Service : Host -> string.
Variable Host_Namespace : Host -> string.

Definition getServiceReferences (KubeServiceHosts : kubernetes.KubeServiceHosts)
    (host : Host) (itemNamespace : string) : list ServiceReference :=
  if kubernetes.IsValidForNamespace KubeServiceHosts (Host_String host) itemNamespace
  then [] ++ [{| ref_Name := Host_Service host; ref_Namespace := Host_Namespace host |}]
  else [].

End Host.

End references.

(** ** util/mtls/status.go *)

Module mtls.
Import api.

Definition MTLSEnabled : string := "MTLS_ENABLED".
Definition MTLSPartiallyEnabled : string := "MTLS_PARTIALLY_ENABLED".
Definition MTLSNotEnabled : string := "MTLS_NOT_ENABLED".
Definition MTLSDisabled : string := "MTLS_DISABLED".

Record MtlsStatus : Type := {
  AllowPermissive : bool;
  AutoMtlsEnabled : bool;
  DestinationRules : list DestinationRule;
  MatchingLabels : gmap string string;
  PeerAuthentications : list PeerAuthentication;
  Services : list Service
}.

Record TlsStatus : Type := {
  DestinationRuleStatus : string;
  PeerAuthenticationStatus : string;
  OverallStatus : string
}.

(** The zero value [TlsStatus{}]. *)
Definition TlsStatus_zero : TlsStatus :=
  {| DestinationRuleStatus := ""; PeerAuthenticationStatus := ""; OverallStatus := "" |}.

Fixpoint hasPeerAuthnNamespacemTLSDefinition_loop (pas : list PeerAuthentication) : string :=
  match pas with
  | [] => ""
  | p :: rest =>
      let mode := (kubernetes.PeerAuthnHasMTLSEnabled p).2 in
      if negb (String.eqb mode "") then mode
      else hasPeerAuthnNamespacemTLSDefinition_loop rest
  end.

Definition hasPeerAuthnNamespacemTLSDefinition (m : MtlsStatus) : string :=
  hasPeerAuthnNamespacemTLSDefinition_loop (PeerAuthentications m).

Fixpoint hasDesinationRuleEnablingNamespacemTLS_loop (namespace : string)
    (conf : Config) (drs : list DestinationRule) : string :=
  match drs with
  | [] => ""
  | dr :: rest =>
      let mode := (kubernetes.DestinationRuleHasNamespaceWideMTLSEnabled namespace dr conf).2 in
      if negb (String.eqb mode "") then mode
      else hasDesinationRuleEnablingNamespacemTLS_loop namespace conf rest
  end.

Definition hasDesinationRuleEnablingNamespacemTLS (m : MtlsStatus)
    (namespace : string) (conf : Config) : string :=
  hasDesinationRuleEnablingNamespacemTLS_loop namespace conf (DestinationRules m).

Fixpoint hasPeerAuthnMeshTLSDefinition_loop (pas : list PeerAuthentication) : string :=
  match pas with
  | [] => ""
  | mp :: rest =>
      let mode := (kubernetes.PeerAuthnHasMTLSEnabled mp).2 in
      if negb (String.eqb mode "") then mode
      else hasPeerAuthnMeshTLSDefinition_loop rest
  end.

Definition hasPeerAuthnMeshTLSDefinition (m : MtlsStatus) : string :=
  hasPeerAuthnMeshTLSDefinition_loop (PeerAuthentications m).

Fixpoint hasDestinationRuleMeshTLSDefinition_loop (drs : list DestinationRule) : string :=
  match drs with
  | [] => ""
  | dr :: rest =>
      let mode := (kubernetes.DestinationRuleHasMTLSEnabledForHost "*.local" dr).2 in
      if negb (String.eqb mode "") then mode
      else hasDestinationRuleMeshTLSDefinition_loop rest
  end.

Definition hasDestinationRuleMeshTLSDefinition (m : MtlsStatus) : string :=
  hasDestinationRuleMeshTLSDefinition_loop (DestinationRules m).

Definition finalStatus (m : MtlsStatus) (drStatus paStatus : string) : TlsStatus :=
  let mtlsEnabled :=
    String.eqb drStatus "ISTIO_MUTUAL" || String.eqb drStatus "MUTUAL" ||
    (String.eqb drStatus "" && AutoMtlsEnabled m) in
  let mtlsDisabled :=
    String.eqb drStatus "DISABLE" || (String.eqb drStatus "" && AutoMtlsEnabled m) in
  let finalStatus :=
    if (String.eqb paStatus "STRICT" ||
        (String.eqb paStatus "PERMISSIVE" && AllowPermissive m)) && mtlsEnabled
    then MTLSEnabled
    else if String.eqb paStatus "DISABLE" && mtlsDisabled then MTLSDisabled
    else if String.eqb paStatus "" && String.eqb drStatus "" then MTLSNotEnabled
    else MTLSPartiallyEnabled in
  {| DestinationRuleStatus := drStatus;
     PeerAuthenticationStatus := paStatus;
     OverallStatus := finalStatus |}.

Definition NamespaceMtlsStatus (m : MtlsStatus) (namespace : string) (conf : Config) : TlsStatus :=
  let drStatus := hasDesinationRuleEnablingNamespacemTLS m namespace conf in
  let paStatus := hasPeerAuthnNamespacemTLSDefinition m in
  finalStatus m drStatus paStatus.

Definition hasDefinedTls (t : TlsStatus) : bool :=
  String.eqb (OverallStatus t) MTLSEnabled || String.eqb (OverallStatus t) MTLSDisabled.

Definition hasPartialTlsConfig (t : TlsStatus) : bool :=
  String.eqb (OverallStatus t) MTLSPartiallyEnabled.

Definition hasHalfTlsConfigDefined (t : TlsStatus) (autoMtls allowPermissive : bool) : bool :=
  if autoMtls then
    let defined :=
      (String.eqb (PeerAuthenticationStatus t) "STRICT" &&
       String.eqb (DestinationRuleStatus t) "") ||
      ((String.eqb (DestinationRuleStatus t) "ISTIO_MUTUAL" ||
        String.eqb (DestinationRuleStatus t) "MUTUAL") &&
       String.eqb (PeerAuthenticationStatus t) "") in
    if negb defined && allowPermissive then
      String.eqb (PeerAuthenticationStatus t) "PERMISSIVE" &&
      String.eqb (DestinationRuleStatus t) ""
    else defined
  else false.

Definition hasNoConfig (t : TlsStatus) : bool :=
  String.eqb (PeerAuthenticationStatus t) "" && String.eqb (DestinationRuleStatus t) "".

Definition hasPartialDisabledConfig (t : TlsStatus) : bool :=
  (String.eqb (PeerAuthenticationStatus t) "DISABLE" &&
   String.eqb (DestinationRuleStatus t) "") ||
  (String.eqb (DestinationRuleStatus t) "DISABLE" &&
   String.eqb (PeerAuthenticationStatus t) "").

(** The pair handed to [finalStatus] by [inheritedOverallStatus]. *)
Definition partialStatuses (nsStatus meshStatus : TlsStatus) : string * string :=
  let partialDRStatus :=
    if String.eqb (DestinationRuleStatus nsStatus) ""
    then DestinationRuleStatus meshStatus else DestinationRuleStatus nsStatus in
  let partialPAStatus :=
    if String.eqb (PeerAuthenticationStatus nsStatus) ""
    then PeerAuthenticationStatus meshStatus else PeerAuthenticationStatus nsStatus in
  (partialDRStatus, partialPAStatus).

(** [OverallMtlsStatus] and [inheritedOverallStatus] call each other.
    [depth] bounds the number of nested calls (stack frames); [None]
    means the bound was reached before a result was returned. *)
Fixpoint OverallMtlsStatus (depth : nat) (m : MtlsStatus)
    (nsStatus meshStatus : TlsStatus) {struct depth} : option string :=
  match depth with
  | O => None
  | S d =>
      if hasDefinedTls nsStatus then Some (OverallStatus nsStatus)
      else if hasPartialTlsConfig nsStatus then
        inheritedOverallStatus d m nsStatus meshStatus
      else if hasDefinedTls meshStatus then Some (OverallStatus meshStatus)
      else if hasNoConfig meshStatus then Some MTLSNotEnabled
      else if hasPartialDisabledConfig meshStatus then Some MTLSDisabled
      else if hasHalfTlsConfigDefined meshStatus (AutoMtlsEnabled m) (AllowPermissive m)
      then Some MTLSEnabled
      else if negb (AutoMtlsEnabled m) && hasPartialTlsConfig meshStatus
      then Some MTLSPartiallyEnabled
      else Some MTLSPartiallyEnabled
  end
with inheritedOverallStatus (depth : nat) (m : MtlsStatus)
    (nsStatus meshStatus : TlsStatus) {struct depth} : option string :=
  match depth with
  | O => None
  | S d =>
      let '(partialDRStatus, partialPAStatus) := partialStatuses nsStatus meshStatus in
      OverallMtlsStatus d m TlsStatus_zero (finalStatus m partialDRStatus partialPAStatus)
  end.

(** [MeshMtlsStatus]; [None] only if the call of [OverallMtlsStatus]
    needs more than [depth] frames. *)
Definition MeshMtlsStatus (depth : nat) (m : MtlsStatus) : option TlsStatus :=
  let drStatus := hasDestinationRuleMeshTLSDefinition m in
  let paStatus := hasPeerAuthnMeshTLSDefinition m in
  match OverallMtlsStatus depth m TlsStatus_zero (finalStatus m drStatus paStatus) with
  | Some overall =>
      Some {| DestinationRuleStatus := drStatus;
              PeerAuthenticationStatus := paStatus;
              OverallStatus := overall |}
  | None => None
  end.

Section Workload.
(** [kubernetes.FilterDestinationRulesByService] lives in a file that is
    not part of this development; the workload status is defined for
    any such filter. *)
Variable FilterDestinationRulesByService :
  list DestinationRule -> string -> string -> Config -> list DestinationRule.

(** The loop over [filteredDrs]; [None]: no [return] was reached. *)
Fixpoint WorkloadMtlsStatus_drs (filteredDrs : list DestinationRule) : option string :=
  match filteredDrs with
  | [] => None
  | dr :: rest =>
      let '(enabled, mode) := kubernetes.DestinationRuleHasMTLSEnabled dr in
      if enabled || String.eqb mode "MUTUAL" then Some MTLSEnabled
      else if String.eqb mode "DISABLE" then Some MTLSDisabled
      else WorkloadMtlsStatus_drs rest
  end.

(** The loop over [m.Services]. *)
Fixpoint WorkloadMtlsStatus_services (m : MtlsStatus) (namespace : string)
    (conf : Config) (selector : gmap string string) (svcs : list Service) : option string :=
  match svcs with
  | [] => None
  | svc :: rest =>
      if negb (String.eqb (svc_Namespace svc) namespace) || (size (svc_Selector svc) =? 0)%nat
      then WorkloadMtlsStatus_services m namespace conf selector rest
      else if labels.Matches selector (svc_Selector svc) then
        let filteredDrs :=
          FilterDestinationRulesByService (DestinationRules m)
            (svc_Namespace svc) (svc_Name svc) conf in
        match WorkloadMtlsStatus_drs filteredDrs with
        | Some r => Some r
        | None => WorkloadMtlsStatus_services m namespace conf selector rest
        end
      else WorkloadMtlsStatus_services m namespace conf selector rest
  end.

(** The loop over [m.PeerAuthentications]. *)
Fixpoint WorkloadMtlsStatus_loop (m : MtlsStatus) (namespace : string)
    (conf : Config) (pas : list PeerAuthentication) : string :=
  match pas with
  | [] => MTLSNotEnabled
  | pa :: rest =>
      match pa_Selector pa with
      | None => WorkloadMtlsStatus_loop m namespace conf rest
      | Some sel =>
          let selectorLabels := MatchLabels sel in
          if (len_map selectorLabels =? 0)%nat
          then WorkloadMtlsStatus_loop m namespace conf rest
          else
            let selector := default ∅ selectorLabels in
            if negb (labels.Matches selector (MatchingLabels m))
            then WorkloadMtlsStatus_loop m namespace conf rest
            else
              let mode := (kubernetes.PeerAuthnMTLSMode pa).2 in
              if String.eqb mode "STRICT" then MTLSEnabled
              else if String.eqb mode "DISABLE" then MTLSDisabled
              else if String.eqb mode "PERMISSIVE" then
                if (List.length (DestinationRules m) =? 0)%nat then MTLSNotEnabled
                else
                  match WorkloadMtlsStatus_services m namespace conf selector (Services m) with
                  | Some r => r
                  | None => MTLSNotEnabled
                  end
              else WorkloadMtlsStatus_loop m namespace conf rest
      end
  end.

Definition WorkloadMtlsStatus (m : MtlsStatus) (namespace : string) (conf : Config) : string :=
  WorkloadMtlsStatus_loop m namespace conf (PeerAuthentications m).

End Workload.

End mtls.

(** ** Definitions that follow the wording of the specification, and the
    notions the properties are stated with *)

Module Spec.
Import api.

(** The decision table of [Resolve], as the specification words it. *)
Definition mtlsEnabled (autoMtlsEnabled : bool) (drStatus : string) : Prop :=
  (drStatus = "ISTIO_MUTUAL" ∨ drStatus = "MUTUAL") ∨
  (drStatus = "" ∧ autoMtlsEnabled = true).

Definition mtlsDisabled (autoMtlsEnabled : bool) (drStatus : string) : Prop :=
  drStatus = "DISABLE" ∨ (drStatus = "" ∧ autoMtlsEnabled = true).

Definition Resolve (autoMtlsEnabled allowPermissive : bool)
    (drStatus paStatus : string) : string :=
  if decide ((paStatus = "STRICT" ∨ (paStatus = "PERMISSIVE" ∧ allowPermissive = true))
             ∧ mtlsEnabled autoMtlsEnabled drStatus)
  then "MTLS_ENABLED"
  else if decide (paStatus = "DISABLE" ∧ mtlsDisabled autoMtlsEnabled drStatus)
  then "MTLS_DISABLED"
  else if decide (paStatus = "" ∧ drStatus = "") then "MTLS_NOT_ENABLED"
  else "MTLS_PARTIALLY_ENABLED".

(** The hybrid pair of [Overall], step 2: a non-empty namespace field is
    kept, an empty one is replaced by the mesh field. *)
Definition inherit (nsField meshField : string) : string :=
  if decide (nsField = "") then meshField else nsField.

(** The mTLS mode a policy declares, empty when it declares none. *)
Definition policy_mode (p : PeerAuthentication) : string :=
  match pa_Mtls p with
  | Some m => pa_mode_String m
  | None => ""
  end.

(** The mode of the first policy of the list whose mode is not empty;
    empty when there is none.  No selector is looked at. *)
Definition first_mode (pas : list PeerAuthentication) : string :=
  default "" (head (filter (fun s => s <> "") (map policy_mode pas))).

Definition no_selector (p : PeerAuthentication) : Prop := pa_Selector p = None.

(** A policy without selector, or whose selector has no label to match
    (a nil or an empty map). *)
Definition underspecified (p : PeerAuthentication) : bool :=
  match pa_Selector p with
  | None => true
  | Some sel =>
      match MatchLabels sel with
      | None => true
      | Some l => bool_decide (l = ∅)
      end
  end.

(** The policy selects a workload: its label map is not empty and each of
    its labels is a label of the workload, with the same value. *)
Definition selects (p : PeerAuthentication) (workloadLabels : gmap string string) : Prop :=
  exists sel l,
    pa_Selector p = Some sel /\ MatchLabels sel = Some l /\
    l <> ∅ /\ l ⊆ workloadLabels.

(** The same evaluation context with another list of policies. *)
Definition with_policies (m : mtls.MtlsStatus) (pas : list PeerAuthentication)
    : mtls.MtlsStatus :=
  {| mtls.AllowPermissive := mtls.AllowPermissive m;
     mtls.AutoMtlsEnabled := mtls.AutoMtlsEnabled m;
     mtls.DestinationRules := mtls.DestinationRules m;
     mtls.MatchingLabels := mtls.MatchingLabels m;
     mtls.PeerAuthentications := pas;
     mtls.Services := mtls.Services m |}.

(** Whether one exportTo token lets [viewerNamespace] see a resource of
    [resourceNamespace]. *)
Definition token_matches (token resourceNamespace viewerNamespace : string) : Prop :=
  if decide (token = "*") then True
  else if decide (token = ".") then resourceNamespace = viewerNamespace
  else if decide (token = "~") then False
  else token = viewerNamespace.

(** The code points with the White_Space property of Unicode. *)
Definition white_space : list N :=
  [ 9; 10; 11; 12; 13; 32; 133; 160; 5760;
    8192; 8193; 8194; 8195; 8196; 8197; 8198; 8199; 8200; 8201; 8202;
    8232; 8233; 8239; 8287; 12288 ]%N.

(** UTF-8 of a code point below U+10000: one, two or three bytes. *)
Definition utf8 (r : N) : string :=
  if (r <? 128)%N then String (ascii_of_N r) ""
  else if (r <? 2048)%N then
    String (ascii_of_N (192 + r / 64)) (String (ascii_of_N (128 + r mod 64)) "")
  else
    String (ascii_of_N (224 + r / 4096))
      (String (ascii_of_N (128 + (r / 64) mod 64))
         (String (ascii_of_N (128 + r mod 64)) "")).

(** UTF-8 of a sequence of code points. *)
Fixpoint utf8_text (runes : list N) : string :=
  match runes with
  | [] => ""
  | r :: rest => (utf8 r ++ utf8_text rest)%string
  end.

(** A text made of white space only; the empty text is one. *)
Definition blank (s : string) : Prop :=
  exists runes, Forall (fun r => r ∈ white_space) runes /\ s = utf8_text runes.

(** A text that starts, respectively ends, with a white space rune. *)
Definition leading_space (t : string) : Prop :=
  exists r rest, r ∈ white_space /\ t = (utf8 r ++ rest)%string.

Definition trailing_space (t : string) : Prop :=
  exists r pre, r ∈ white_space /\ t = (pre ++ utf8 r)%string.

(** [t] is [p] without the white space at its two ends. *)
Definition trimmed (p t : string) : Prop :=
  exists l r, p = (l ++ t ++ r)%string /\ blank l /\ blank r /\
              ~ leading_space t /\ ~ trailing_space t.

(** An annotation value: split on commas, each segment trimmed, empty
    segments discarded. *)
Definition annotation_tokens (annotation : string) : list string :=
  filter (fun p => p <> "") (map strings.TrimSpace (strings.Split annotation ","%char)).

(** The effective exportTo of a service: its annotation when present,
    the mesh-wide default otherwise. *)
Definition effective_exportTo (annotation : option string)
    (meshDefaultExportTo : list string) : list string :=
  match annotation with
  | Some a => annotation_tokens a
  | None => meshDefaultExportTo
  end.

(** The three host names of a service. *)
Definition service_keys (conf : Config) (svc : Service) : list string :=
  [ (svc_Name svc ++ "." ++ svc_Namespace svc ++ "." ++ IstioIdentityDomain conf)%string;
    (svc_Name svc ++ "." ++ svc_Namespace svc ++ ".svc")%string;
    (svc_Name svc ++ "." ++ svc_Namespace svc)%string ].

(** Position, counted from [base], of the last service of the list that
    has [host] among its three host names. *)
Fixpoint last_writer (conf : Config) (host : string) (services : list Service)
    (base : nat) : option nat :=
  match services with
  | [] => None
  | svc :: rest =>
      match last_writer conf host rest (S base) with
      | Some i => Some i
      | None => if bool_decide (host ∈ service_keys conf svc) then Some base else None
      end
  end.

(** No service of [later] has a host name of [svc]. *)
Definition not_overwritten (conf : Config) (svc : Service) (later : list Service) : Prop :=
  Forall (fun t => forall k, k ∈ service_keys conf t -> k ∉ service_keys conf svc) later.

(** The TLS mode a destination rule declares, empty when it has no
    traffic policy or no TLS settings. *)
Definition rule_mode (dr : DestinationRule) : string :=
  match dr_TrafficPolicy dr with
  | Some tp =>
      match Tls tp with
      | Some m => tls_mode_String m
      | None => ""
      end
  | None => ""
  end.

(** The mode of the first rule for [host] whose mode is not empty; empty
    when there is none. *)
Definition first_rule_mode (host : string) (drs : list DestinationRule) : string :=
  default ""
    (head (filter (fun s => s <> "")
             (map rule_mode (filter (fun dr => dr_Host dr = host) drs)))).

(** The overall status of the mesh, from the two scanned modes. *)
Definition mesh_overall (autoMtlsEnabled allowPermissive : bool)
    (drStatus paStatus : string) : string :=
  if decide ((paStatus = "STRICT" ∨ (paStatus = "PERMISSIVE" ∧ allowPermissive = true))
             ∧ mtlsEnabled autoMtlsEnabled drStatus)
  then "MTLS_ENABLED"
  else if decide (paStatus = "DISABLE" ∧ (drStatus = "DISABLE" ∨ drStatus = ""))
  then "MTLS_DISABLED"
  else if decide (paStatus = "" ∧ drStatus = "") then "MTLS_NOT_ENABLED"
  else if decide (paStatus = "" ∧ drStatus = "DISABLE") then "MTLS_DISABLED"
  else if decide (autoMtlsEnabled = true ∧ paStatus = "" ∧
                  (drStatus = "ISTIO_MUTUAL" ∨ drStatus = "MUTUAL"))
  then "MTLS_ENABLED"
  else "MTLS_PARTIALLY_ENABLED".

(** The last service of the input that has [host] among its three host
    names. *)
Definition last_service (conf : Config) (host : string) (services : list Service)
    : option Service :=
  last (filter (fun svc => host ∈ service_keys conf svc) services).

(** A text without comma. *)
Definition comma_free (s : string) : bool :=
  forallb (fun c => negb (Ascii.eqb c ","%char)) (list_ascii_of_string s).

(** A token as [parseExportToAnnotation] returns them: not empty, without
    comma, without white space at either end. *)
Definition clean_token (t : string) : Prop :=
  t <> "" /\ comma_free t = true /\ ~ leading_space t /\ ~ trailing_space t.

(** [tokens] is what an annotation value stands for: the value is cut at
    its commas into segments, every segment loses the white space at its two
    ends, and the segments left empty are dropped. *)
Definition tokens_of (annotation : string) (tokens : list string) : Prop :=
  exists segments trimmed_segments,
    segments <> [] /\
    Forall (fun p => comma_free p = true) segments /\
    annotation = strings.Join segments ","%char /\
    Forall2 trimmed segments trimmed_segments /\
    tokens = filter (fun t => t <> "") trimmed_segments.

(** A text made of ASCII bytes. *)
Definition ascii_text (s : string) : bool :=
  forallb (fun c => (nat_of_ascii c <? 128)%nat) (list_ascii_of_string s).

(** The protocols [ServiceEntryHostnames] derives from the ports of an
    entry. *)
Definition entry_protocols (se : ServiceEntry) : list string :=
  map (fun port => kubernetes.mapPortToVirtualServiceProtocol (iport_Protocol port))
      (se_Ports se).

(** One protocol list for every occurrence of [host] among the hosts of
    the entries, in the order of the input. *)
Definition host_occurrences (host : string) (ses : list ServiceEntry) : list (list string) :=
  flat_map
    (fun se => flat_map (fun h => if decide (h = host) then [entry_protocols se] else [])
                        (se_Hosts se))
    ses.

(** A name without dots, as Kubernetes requires of service names and
    namespaces (DNS labels). *)
Definition dot_free (s : string) : bool :=
  forallb (fun c => negb (Ascii.eqb c "."%char)) (list_ascii_of_string s).

Definition dns_named (svc : Service) : Prop :=
  dot_free (svc_Name svc) = true /\ dot_free (svc_Namespace svc) = true.

End Spec.

(** ** Concrete inputs, taken from the test suites *)

Module Examples.
Import api kubernetes mtls.

Definition conf_default : Config := {| IstioIdentityDomain := "svc.cluster.local" |}.
Definition conf_custom : Config := {| IstioIdentityDomain := "svc.my-custom.domain" |}.
Definition conf_svc : Config := {| IstioIdentityDomain := "svc" |}.

Definition k8sService (name namespace : string) (selector : gmap string string)
    (annotations : gmap string string) (ports : list ServicePort) : Service :=
  {| svc_Name := name; svc_Namespace := namespace; svc_Annotations := annotations;
     svc_Selector := selector; svc_Ports := ports |}.

Definition http_port : ServicePort := {| port_Name := "http"; port_Port := 9080%Z |}.

Definition reviews : Service :=
  k8sService "reviews" "bookinfo" {["app" := "reviews"]} ∅ [http_port].
Definition ratings : Service :=
  k8sService "ratings" "bookinfo" {["app" := "ratings"]} ∅ [http_port].
Definition headless : Service :=
  k8sService "headless" "bookinfo" ∅ ∅ [].
Definition reviews_exported (annotation : string) : Service :=
  k8sService "reviews" "bookinfo" {["app" := "reviews"]}
    {[ExportToAnnotation := annotation]} [http_port].

(** A namespace with a dot, which Kubernetes does not allow. *)
Definition reviews_dotted : Service :=
  k8sService "reviews" "bookinfo.svc" {["app" := "reviews"]} ∅ [http_port].

Definition peerAuthnWithSelector (name namespace : string)
    (selectorLabels : option (gmap string string))
    (mode : PeerAuthentication_MutualTLS_Mode) : PeerAuthentication :=
  {| pa_Name := name; pa_Namespace := namespace;
     pa_Selector := Some {| MatchLabels := selectorLabels |};
     pa_Mtls := Some mode |}.

Definition peerAuthnNoSelector (name namespace : string)
    (mode : PeerAuthentication_MutualTLS_Mode) : PeerAuthentication :=
  {| pa_Name := name; pa_Namespace := namespace; pa_Selector := None;
     pa_Mtls := Some mode |}.

Definition destinationRuleWithMTLS (name namespace host : string)
    (mode : ClientTLSSettings_TLSmode) : DestinationRule :=
  {| dr_Name := name; dr_Namespace := namespace; dr_Host := host;
     dr_TrafficPolicy := Some {| Tls := Some mode |} |}.

(** Modelled from the spec: [kubernetes.FilterDestinationRulesByService]
    is not part of the sources at hand; the specification says the rules
    searched are those that target the host of the service.  This stand-in
    keeps the rules whose host is the fully-qualified name of the service
    and is used for the worked examples only. *)
Definition filter_by_host (drs : list DestinationRule) (namespace name : string)
    (conf : Config) : list DestinationRule :=
  List.filter
    (fun dr => String.eqb (dr_Host dr)
                 (name ++ "." ++ namespace ++ "." ++ IstioIdentityDomain conf)%string)
    drs.

Definition workload_example (pas : list PeerAuthentication)
    (drs : list DestinationRule) (svcs : list Service) : MtlsStatus :=
  {| AllowPermissive := false; AutoMtlsEnabled := false;
     DestinationRules := drs; MatchingLabels := {["app" := "reviews"]};
     PeerAuthentications := pas; Services := svcs |}.

Definition pa_reviews (mode : PeerAuthentication_MutualTLS_Mode) : PeerAuthentication :=
  peerAuthnWithSelector "pa1" "bookinfo" (Some {["app" := "reviews"]}) mode.

Definition m_selector_strict : MtlsStatus :=
  workload_example [pa_reviews PA_STRICT] [] [].

(** The two end-to-end mTLS examples of the specification. *)
Definition namespace_example : MtlsStatus :=
  {| AllowPermissive := false; AutoMtlsEnabled := false;
     DestinationRules :=
       [destinationRuleWithMTLS "dr" "bookinfo" "*.bookinfo.svc.cluster.local"
          TLS_ISTIO_MUTUAL];
     MatchingLabels := ∅;
     PeerAuthentications := [peerAuthnNoSelector "pa" "bookinfo" PA_STRICT];
     Services := [] |}.
Definition mesh_strict_example : MtlsStatus :=
  {| AllowPermissive := false; AutoMtlsEnabled := true;
     DestinationRules := []; MatchingLabels := ∅;
     PeerAuthentications := [peerAuthnNoSelector "default" "istio-system" PA_STRICT];
     Services := [] |}.

Definition ns_partial_example : TlsStatus :=
  {| DestinationRuleStatus := ""; PeerAuthenticationStatus := "STRICT";
     OverallStatus := MTLSPartiallyEnabled |}.
Definition mesh_example : TlsStatus :=
  {| DestinationRuleStatus := "ISTIO_MUTUAL"; PeerAuthenticationStatus := "";
     OverallStatus := MTLSPartiallyEnabled |}.
Definition ns_enabled_example : TlsStatus :=
  {| DestinationRuleStatus := "ISTIO_MUTUAL"; PeerAuthenticationStatus := "STRICT";
     OverallStatus := MTLSEnabled |}.
Definition m_example : MtlsStatus :=
  {| AllowPermissive := false; AutoMtlsEnabled := false;
     DestinationRules := []; MatchingLabels := ∅;
     PeerAuthentications := []; Services := [] |}.

End Examples.

(** * Properties *)

(** ** Resolve and Overall (util/mtls/status.go) *)

Module mtls_facts.
Import api mtls Examples.

(** Case analysis on a string comparison of the code. *)
Ltac eqb_cases :=
  repeat match goal with
    | |- context [String.eqb ?a ?b] => destruct (String.eqb_spec a b)
    | H : context [String.eqb ?a ?b] |- _ => destruct (String.eqb_spec a b)
    end.

Lemma bool_decide_string_eqb (a b : string) :
  bool_decide (a = b) = String.eqb a b.
Proof.
  destruct (String.eqb_spec a b).
  - apply bool_decide_eq_true_2; assumption.
  - apply bool_decide_eq_false_2; assumption.
Qed.

Lemma bool_decide_is_true (b : bool) : bool_decide (b = true) = b.
Proof. destruct b; reflexivity. Qed.

Lemma status_codes_distinct :
  NoDup [MTLSEnabled; MTLSPartiallyEnabled; MTLSNotEnabled; MTLSDisabled].
Proof. compute_done. Qed.

Lemma hasDefinedTls_spec t :
  hasDefinedTls t = true <->
  OverallStatus t = MTLSEnabled \/ OverallStatus t = MTLSDisabled.
Proof.
  unfold hasDefinedTls. rewrite orb_true_iff, !String.eqb_eq. reflexivity.
Qed.

Lemma hasPartialTlsConfig_spec t :
  hasPartialTlsConfig t = true <-> OverallStatus t = MTLSPartiallyEnabled.
Proof. unfold hasPartialTlsConfig. apply String.eqb_eq. Qed.

Lemma partial_not_defined t :
  hasPartialTlsConfig t = true -> hasDefinedTls t = false.
Proof.
  rewrite hasPartialTlsConfig_spec. intros H.
  unfold hasDefinedTls. rewrite H. reflexivity.
Qed.

Lemma zero_not_defined : hasDefinedTls TlsStatus_zero = false.
Proof. reflexivity. Qed.

Lemma zero_not_partial : hasPartialTlsConfig TlsStatus_zero = false.
Proof. reflexivity. Qed.

(** With an empty namespace status one frame is enough: the call
    returns without entering [inheritedOverallStatus]. *)
Lemma Overall_zero_returns m meshStatus :
  exists s, forall d, OverallMtlsStatus (S d) m TlsStatus_zero meshStatus = Some s.
Proof.
  cbn [OverallMtlsStatus]. rewrite zero_not_defined, zero_not_partial.
  repeat match goal with
    | |- context [if ?b then _ else _] => destruct b
    end; eexists; intros; reflexivity.
Qed.

Lemma partialStatuses_inherit nsStatus meshStatus :
  partialStatuses nsStatus meshStatus =
  (Spec.inherit (DestinationRuleStatus nsStatus) (DestinationRuleStatus meshStatus),
   Spec.inherit (PeerAuthenticationStatus nsStatus) (PeerAuthenticationStatus meshStatus)).
Proof.
  unfold partialStatuses, Spec.inherit.
  eqb_cases; repeat case_decide; congruence.
Qed.

Lemma Overall_partial_unfold d m nsStatus meshStatus :
  hasPartialTlsConfig nsStatus = true ->
  OverallMtlsStatus (S (S d)) m nsStatus meshStatus =
  OverallMtlsStatus d m TlsStatus_zero
    (finalStatus m
       (Spec.inherit (DestinationRuleStatus nsStatus) (DestinationRuleStatus meshStatus))
       (Spec.inherit (PeerAuthenticationStatus nsStatus) (PeerAuthenticationStatus meshStatus))).
Proof.
  intros Hp. cbn [OverallMtlsStatus inheritedOverallStatus].
  rewrite (partial_not_defined _ Hp), Hp, partialStatuses_inherit. reflexivity.
Qed.

(** C1: for all status strings [drStatus], [paStatus] and both mesh-wide
    booleans, [finalStatus] keeps the two inputs and computes the overall
    status by the decision table of the specification: ENABLED when
    (paStatus is STRICT, or PERMISSIVE with allowPermissive) and
    mtlsEnabled; otherwise DISABLED when paStatus is DISABLE and
    mtlsDisabled; otherwise NOT_ENABLED when both are empty; otherwise
    PARTIALLY_ENABLED. *)
Theorem finalStatus_decision_table (m : MtlsStatus) (drStatus paStatus : string) :
  finalStatus m drStatus paStatus =
  {| DestinationRuleStatus := drStatus;
     PeerAuthenticationStatus := paStatus;
     OverallStatus :=
       Spec.Resolve (AutoMtlsEnabled m) (AllowPermissive m) drStatus paStatus |}.
Proof.
  unfold finalStatus, Spec.Resolve, Spec.mtlsEnabled, Spec.mtlsDisabled.
  f_equal.
  rewrite !decide_bool_decide.
  rewrite !bool_decide_and, !bool_decide_or, !bool_decide_and.
  rewrite !bool_decide_string_eqb, !bool_decide_is_true.
  reflexivity.
Qed.

Ltac case_text s c := destruct (String.eqb_spec s c) as [-> | ?].

Ltac mode_text s :=
  case_text s "";
  [| case_text s "ISTIO_MUTUAL";
     [| case_text s "MUTUAL";
        [| case_text s "DISABLE";
           [| case_text s "STRICT"; [| case_text s "PERMISSIVE"]]]]].

(** [OverallMtlsStatus] on the empty namespace status and the result of
    [finalStatus]: the value, as a table of the two modes. *)
Lemma Overall_zero_table (m : MtlsStatus) (drStatus paStatus : string) (d : nat) :
  OverallMtlsStatus (S d) m TlsStatus_zero (finalStatus m drStatus paStatus) =
  Some (Spec.mesh_overall (AutoMtlsEnabled m) (AllowPermissive m) drStatus paStatus).
Proof.
  cbn [OverallMtlsStatus]. rewrite zero_not_defined, zero_not_partial.
  unfold Spec.mesh_overall, Spec.mtlsEnabled.
  rewrite !decide_bool_decide.
  rewrite !bool_decide_and, !bool_decide_or, !bool_decide_and.
  rewrite !bool_decide_string_eqb, !bool_decide_is_true.
  unfold hasDefinedTls, hasNoConfig, hasPartialDisabledConfig, hasHalfTlsConfigDefined,
    hasPartialTlsConfig, finalStatus.
  cbn [OverallStatus DestinationRuleStatus PeerAuthenticationStatus].
  destruct (AutoMtlsEnabled m), (AllowPermissive m);
    mode_text drStatus; mode_text paStatus; reflexivity.
Qed.

(** C2: a namespace status that is ENABLED or DISABLED is returned as it
    is, whatever the mesh status; for a PARTIALLY_ENABLED namespace status
    only the empty fields of its pair are replaced by the mesh fields,
    [finalStatus] is run on that pair, and the value returned is the one
    [OverallMtlsStatus] returns for the empty namespace status and that
    result: the status the table of the two modes of the pair gives. *)
Theorem OverallMtlsStatus_namespace_first (m : MtlsStatus) (nsStatus meshStatus : TlsStatus) :
  ((OverallStatus nsStatus = MTLSEnabled \/ OverallStatus nsStatus = MTLSDisabled) ->
   forall d, OverallMtlsStatus (S d) m nsStatus meshStatus = Some (OverallStatus nsStatus)) /\
  (OverallStatus nsStatus = MTLSPartiallyEnabled ->
   let drStatus :=
     if decide (DestinationRuleStatus nsStatus = "")
     then DestinationRuleStatus meshStatus else DestinationRuleStatus nsStatus in
   let paStatus :=
     if decide (PeerAuthenticationStatus nsStatus = "")
     then PeerAuthenticationStatus meshStatus else PeerAuthenticationStatus nsStatus in
   let hybrid := finalStatus m drStatus paStatus in
   let overall :=
     Spec.mesh_overall (AutoMtlsEnabled m) (AllowPermissive m) drStatus paStatus in
   partialStatuses nsStatus meshStatus = (drStatus, paStatus) /\
   (forall d, OverallMtlsStatus (S d) m TlsStatus_zero hybrid = Some overall) /\
   (forall d, OverallMtlsStatus (S (S (S d))) m nsStatus meshStatus = Some overall)).
Proof.
  split.
  - intros Hd d. apply hasDefinedTls_spec in Hd.
    cbn [OverallMtlsStatus]. rewrite Hd. reflexivity.
  - intros Hp drStatus paStatus hybrid overall. apply hasPartialTlsConfig_spec in Hp.
    split; [apply partialStatuses_inherit |].
    split; [intros d; apply Overall_zero_table |].
    intros d. rewrite (Overall_partial_unfold _ _ _ _ Hp). apply Overall_zero_table.
Qed.

Lemma OverallMtlsStatus_namespace_first_witness :
  OverallMtlsStatus 1 m_example ns_enabled_example mesh_example = Some MTLSEnabled /\
  OverallMtlsStatus 1 m_example TlsStatus_zero
    (finalStatus m_example "ISTIO_MUTUAL" "STRICT") = Some MTLSEnabled /\
  OverallMtlsStatus 3 m_example ns_partial_example mesh_example = Some MTLSEnabled /\
  OverallMtlsStatus 3 m_example ns_partial_example
    {| DestinationRuleStatus := "DISABLE"; PeerAuthenticationStatus := "STRICT";
       OverallStatus := MTLSPartiallyEnabled |} = Some MTLSPartiallyEnabled.
Proof.
  split.
  - apply (proj1 (OverallMtlsStatus_namespace_first m_example ns_enabled_example mesh_example)
             (or_introl eq_refl) 0).
  - destruct (proj2 (OverallMtlsStatus_namespace_first m_example ns_partial_example mesh_example)
                eq_refl) as (_ & H1 & H2).
    split; [exact (H1 0) |]. split; [exact (H2 0) |].
    destruct (proj2 (OverallMtlsStatus_namespace_first m_example ns_partial_example
                       {| DestinationRuleStatus := "DISABLE";
                          PeerAuthenticationStatus := "STRICT";
                          OverallStatus := MTLSPartiallyEnabled |})
                eq_refl) as (_ & _ & H3).
    exact (H3 0).
Defined.

(** C10: [OverallMtlsStatus] returns on every input, and within three
    nested calls: itself, [inheritedOverallStatus], and itself once more
    with the empty namespace status.  The empty status is neither fully
    defined nor PARTIALLY_ENABLED, so that second call returns within its
    own frame and never reaches [inheritedOverallStatus] again. *)
Theorem OverallMtlsStatus_total (m : MtlsStatus) (nsStatus meshStatus : TlsStatus) :
  hasDefinedTls TlsStatus_zero = false /\
  hasPartialTlsConfig TlsStatus_zero = false /\
  (forall t, exists s, forall d, OverallMtlsStatus (S d) m TlsStatus_zero t = Some s) /\
  (exists s, forall d, OverallMtlsStatus (3 + d) m nsStatus meshStatus = Some s) /\
  (forall d, inheritedOverallStatus (S d) m nsStatus meshStatus =
             OverallMtlsStatus d m TlsStatus_zero
               (finalStatus m (partialStatuses nsStatus meshStatus).1
                              (partialStatuses nsStatus meshStatus).2)).
Proof.
  split; [reflexivity |]. split; [reflexivity |].
  split; [intros t; apply Overall_zero_returns |].
  split.
  - destruct (hasPartialTlsConfig nsStatus) eqn:Hp.
    + destruct (Overall_zero_returns m
        (finalStatus m
           (Spec.inherit (DestinationRuleStatus nsStatus) (DestinationRuleStatus meshStatus))
           (Spec.inherit (PeerAuthenticationStatus nsStatus)
              (PeerAuthenticationStatus meshStatus)))) as [s Hs].
      exists s. intros d. change (3 + d) with (S (S (S d))).
      rewrite (Overall_partial_unfold _ _ _ _ Hp). apply Hs.
    + cbn [OverallMtlsStatus Nat.add]. rewrite Hp.
      repeat match goal with
        | |- context [if ?b then _ else _] => destruct b
        end; eexists; intros; reflexivity.
  - intros d. cbn [inheritedOverallStatus].
    destruct (partialStatuses nsStatus meshStatus) as [a b]. reflexivity.
Qed.

(** Two frames are not enough for a partial namespace status: the
    inheritance step really is taken once. *)
Example Overall_needs_three_frames :
  OverallMtlsStatus 2 m_example ns_partial_example mesh_example = None /\
  OverallMtlsStatus 3 m_example ns_partial_example mesh_example = Some MTLSEnabled.
Proof. split; reflexivity. Qed.

Example end_to_end :
  OverallStatus (NamespaceMtlsStatus namespace_example "bookinfo" conf_default) = MTLSEnabled /\
  MeshMtlsStatus 1 mesh_strict_example =
    Some {| DestinationRuleStatus := ""; PeerAuthenticationStatus := "STRICT";
            OverallStatus := MTLSEnabled |} /\
  OverallMtlsStatus 1 mesh_strict_example TlsStatus_zero
    {| DestinationRuleStatus := ""; PeerAuthenticationStatus := "STRICT";
       OverallStatus := MTLSPartiallyEnabled |} = Some MTLSEnabled.
Proof. repeat split; reflexivity. Qed.

End mtls_facts.

(** ** Strings, the port naming rule and exportTo (kubernetes/istio.go) *)

Module strings_facts.
Import strings.

Lemma HasPrefix_spec (s p : string) :
  HasPrefix s p = true <-> exists r, s = (p ++ r)%string.
Proof.
  revert s. induction p as [| b p IH]; intros s; cbn.
  - split; [intros _; exists s; reflexivity | reflexivity].
  - destruct s as [| a s]; cbn.
    + split; [discriminate | intros [r Hr]; discriminate].
    + rewrite andb_true_iff, Ascii.eqb_eq, IH. split.
      * intros [-> [r ->]]. exists r. reflexivity.
      * intros [r Hr]. injection Hr as -> ->. split; [reflexivity | exists r; reflexivity].
Qed.

Lemma slice_from_app (p r : string) :
  slice_from (String.length p) (p ++ r) = r.
Proof. induction p as [| b p IH]; simpl; [destruct r; reflexivity | exact IH]. Qed.

Lemma length_app (p r : string) :
  String.length (p ++ r) = String.length p + String.length r.
Proof. induction p as [| b p IH]; simpl; [reflexivity | f_equal; exact IH]. Qed.

Lemma app_empty_r (p : string) : (p ++ "")%string = p.
Proof.
  induction p as [| b p IH]; [reflexivity |].
  change (String b (p ++ "") = String b p). f_equal. exact IH.
Qed.

Lemma ToLower_example : ToLower "HTTP" = "http".
Proof. reflexivity. Qed.

End strings_facts.

Module regexp_facts.
Import regexp.

Lemma match_prefix_dead (r : regex) (s : string) :
  match_prefix (Seq Empty r) s = false.
Proof. induction s as [| c s IH]; cbn; [reflexivity | exact IH]. Qed.

(** [^[\-].*] accepts exactly the texts that begin with a dash; nothing
    is required after the dash. *)
Lemma portNameMatcher_spec (s : string) :
  MatchString kubernetes.portNameMatcher s = true <->
  exists r, s = String "-"%char r.
Proof.
  unfold MatchString, kubernetes.portNameMatcher. cbn [body].
  destruct s as [| c s].
  - cbn. split; [discriminate | intros [r Hr]; discriminate].
  - cbn [match_prefix nullable deriv andb orb existsb].
    destruct (Ascii.eqb_spec c "-"%char) as [-> | Hne].
    + split; [intros _; exists s; reflexivity |].
      intros _. destruct s; reflexivity.
    + cbn [orb]. rewrite match_prefix_dead. split; [discriminate |].
      intros [r Hr]. injection Hr as Hc _. contradiction.
Qed.

End regexp_facts.

Module kubernetes_facts.
Import api kubernetes.

(** What [MatchPortNameRule] accepts: protocols tcp and udp, a name equal
    to the lower-cased protocol, or that protocol followed by a dash and
    any text, the empty text included. *)
Lemma MatchPortNameRule_spec (portName protocol : string) :
  MatchPortNameRule portName protocol = true <->
  let p := strings.ToLower protocol in
  p = "tcp" \/ p = "udp" \/ portName = p \/
  exists suffix, portName = (p ++ "-" ++ suffix)%string.
Proof.
  unfold MatchPortNameRule. cbn zeta.
  set (p := strings.ToLower protocol).
  destruct (String.eqb_spec p "tcp") as [-> | Htcp]; [cbn; tauto |].
  destruct (String.eqb_spec p "udp") as [-> | Hudp]; [cbn; tauto |].
  cbn [orb].
  destruct (strings.HasPrefix portName p) eqn:Hpre; cbn [negb].
  - apply strings_facts.HasPrefix_spec in Hpre as [r ->].
    rewrite strings_facts.length_app, strings_facts.slice_from_app.
    destruct (Nat.ltb_spec (String.length p) (String.length p + String.length r))
      as [Hlt | Hge].
    2:{ destruct r as [| c r]; [| cbn [String.length] in Hge; lia].
        rewrite strings_facts.app_empty_r. tauto. }
    destruct r as [| c r]; [cbn [String.length] in Hlt; lia |].
    {
      rewrite regexp_facts.portNameMatcher_spec. split.
      * intros [r' Hr']. injection Hr' as -> <-.
        right; right; right. exists r. reflexivity.
      * intros [? | [? | [H | [suffix H]]]]; try contradiction.
        -- exfalso. apply (f_equal String.length) in H.
           rewrite strings_facts.length_app in H. cbn [String.length] in H. lia.
        -- exists suffix.
           assert (Hl : forall a b c : string, (a ++ b)%string = (a ++ c)%string -> b = c).
           { intros a; induction a as [| x a IH]; cbn; intros b0 c0 E;
               [exact E | injection E as E; apply IH; exact E]. }
           apply Hl in H. exact H.
    }
  - split; [discriminate |].
    intros [? | [? | [H | [suffix H]]]]; try contradiction.
    + subst portName.
      assert (strings.HasPrefix p p = true)
        by (apply strings_facts.HasPrefix_spec; exists ""%string;
            symmetry; apply strings_facts.app_empty_r).
      congruence.
    + assert (strings.HasPrefix portName p = true)
        by (apply strings_facts.HasPrefix_spec; eexists; exact H).
      congruence.
Qed.

(** C6: the rule accepts a protocol followed by a bare dash: for port
    name [http-] and protocol [http] the code answers true, although the
    comment in the code asks for a suffix after the dash. *)
Theorem MatchPortNameRule_accepts_bare_dash :
  MatchPortNameRule "http-" "http" = true /\
  MatchPortNameRule "http-" "HTTP" = true /\
  regexp.MatchString portNameMatcher "-" = true.
Proof. repeat split; reflexivity. Qed.

Example MatchPortNameRule_examples :
  MatchPortNameRule "http-name" "http" = true /\
  MatchPortNameRule "http" "HTTP" = true /\
  MatchPortNameRule "http2-name" "http" = false /\
  MatchPortNameRule "name" "http" = false /\
  MatchPortNameRule "anything" "TCP" = true /\
  MatchPortNameRule "" "Udp" = true.
Proof. repeat split; reflexivity. Qed.

End kubernetes_facts.

Module exportTo_facts.
Import api kubernetes.

Lemma token_matches_star rns vns : Spec.token_matches "*" rns vns.
Proof. exact I. Qed.

Lemma IsExportedTo_loop_spec (exportTo : list string) (rns vns : string) :
  IsExportedTo_loop exportTo rns vns = true <->
  exists token, token ∈ exportTo /\ Spec.token_matches token rns vns.
Proof.
  induction exportTo as [| export rest IH]; cbn [IsExportedTo_loop].
  - split; [discriminate | intros [t [Ht _]]; inversion Ht].
  - assert (Hhead : forall P : Prop,
              (P <-> Spec.token_matches export rns vns) ->
              (P \/ IsExportedTo_loop rest rns vns = true) <->
              exists token, token ∈ export :: rest /\ Spec.token_matches token rns vns).
    { intros P HP. rewrite IH. split.
      - intros [H | [t [Ht Hm]]].
        + exists export. split; [left | apply HP, H].
        + exists t. split; [right; exact Ht | exact Hm].
      - intros [t [Ht Hm]]. apply elem_of_cons in Ht as [-> | Ht].
        + left. apply HP, Hm.
        + right. exists t. split; assumption. }
    unfold Spec.token_matches in Hhead |- *.
    destruct (String.eqb_spec export "*") as [-> | Hstar].
    { split; [intros _ | reflexivity]. exists "*". split; [left | exact I]. }
    destruct (String.eqb_spec export ".") as [-> | Hdot].
    { rewrite <- (Hhead (rns = vns)) by (repeat case_decide; try congruence; tauto).
      destruct (String.eqb_spec rns vns); [tauto |].
      split; [intros H; right; exact H | intros [H | H]; [contradiction | exact H]]. }
    destruct (String.eqb_spec export "~") as [-> | Htilde].
    { rewrite <- (Hhead False) by (repeat case_decide; try congruence; tauto). tauto. }
    rewrite <- (Hhead (export = vns)) by (repeat case_decide; try congruence; tauto).
    destruct (String.eqb_spec export vns); [tauto |].
    split; [intros H; right; exact H | intros [H | H]; [contradiction | exact H]].
Qed.

(** C8: an empty exportTo list is visible from everywhere; a non-empty
    one is visible exactly when one of its tokens matches, where [*]
    always matches, [.] matches when the resource and the viewer share
    the namespace, [~] never matches and any other token matches when it
    equals the viewer namespace; the answer is a boolean for every token
    list, so no token is ever rejected. *)
Theorem IsExportedTo_spec (exportTo : list string) (resourceNamespace viewerNamespace : string) :
  IsExportedTo [] resourceNamespace viewerNamespace = true /\
  (IsExportedTo exportTo resourceNamespace viewerNamespace = true <->
   exportTo = [] \/
   exists token, token ∈ exportTo /\
                 Spec.token_matches token resourceNamespace viewerNamespace) /\
  (IsExportedTo exportTo resourceNamespace viewerNamespace = false <->
   exportTo <> [] /\
   forall token, token ∈ exportTo ->
                 ~ Spec.token_matches token resourceNamespace viewerNamespace) /\
  (forall token,
     Spec.token_matches token resourceNamespace viewerNamespace <->
     token = "*" \/
     (token = "." /\ resourceNamespace = viewerNamespace) \/
     (token <> "*" /\ token <> "." /\ token <> "~" /\ token = viewerNamespace)).
Proof.
  assert (Htrue :
    IsExportedTo exportTo resourceNamespace viewerNamespace = true <->
    exportTo = [] \/
    exists token, token ∈ exportTo /\
                  Spec.token_matches token resourceNamespace viewerNamespace).
  { unfold IsExportedTo. destruct exportTo as [| e l].
    - cbn. split; [intros _; left; reflexivity | reflexivity].
    - cbn [List.length Nat.eqb]. rewrite IsExportedTo_loop_spec.
      split; [intros H; right; exact H | intros [H | H]; [discriminate | exact H]]. }
  split; [reflexivity |]. split; [exact Htrue |]. split.
  - rewrite <- not_true_iff_false, Htrue. split.
    + intros H. split.
      * intros ->. apply H. left. reflexivity.
      * intros t Ht Hm. apply H. right. exists t. split; assumption.
    + intros [Hne Hall] [H | [t [Ht Hm]]]; [contradiction | exact (Hall t Ht Hm)].
  - intros token. unfold Spec.token_matches.
    destruct (decide (token = "*")) as [-> | H1];
      [split; [intros _; left; reflexivity | intros _; exact I] |].
    destruct (decide (token = ".")) as [-> | H2].
    { split; [intros E; right; left; split; [reflexivity | exact E] |].
      intros [E | [[_ E] | (_ & E & _)]]; [discriminate | exact E | contradiction]. }
    destruct (decide (token = "~")) as [-> | H3].
    { split; [contradiction |].
      intros [E | [[E _] | (_ & _ & E & _)]]; [discriminate .. | contradiction]. }
    split.
    + intros E. right; right. repeat split; assumption.
    + intros [E | [[E _] | (_ & _ & _ & E)]]; [contradiction .. | exact E].
Qed.

Lemma IsExportedTo_spec_witness :
  IsExportedTo ["~"; "."] "bookinfo" "other-ns" = false /\
  IsExportedTo ["~"; "other-ns"] "bookinfo" "other-ns" = true.
Proof.
  split.
  - destruct (IsExportedTo_spec ["~"; "."] "bookinfo" "other-ns") as (_ & _ & Hfalse & _).
    apply Hfalse. split; [discriminate |].
    intros token Ht Hm.
    apply elem_of_cons in Ht as [-> | Ht]; [exact Hm |].
    apply elem_of_cons in Ht as [-> | Ht]; [discriminate Hm | inversion Ht].
  - destruct (IsExportedTo_spec ["~"; "other-ns"] "bookinfo" "other-ns") as (_ & Htrue & _).
    apply Htrue. right. exists "other-ns". split; [right; left | reflexivity].
Defined.

Example IsExportedTo_examples :
  IsExportedTo ["."] "bookinfo" "bookinfo" = true /\
  IsExportedTo ["."] "bookinfo" "other-ns" = false /\
  IsExportedTo ["~"] "bookinfo" "bookinfo" = false /\
  IsExportedTo ["~"] "bookinfo" "~" = false /\
  IsExportedTo ["*"] "bookinfo" "other-ns" = true /\
  IsExportedTo ["~"; "istio-system"] "bookinfo" "istio-system" = true /\
  IsExportedTo ["no such token!"] "bookinfo" "other-ns" = false.
Proof. repeat split; reflexivity. Qed.

End exportTo_facts.

(** ** White space and trimming ([strings.TrimSpace]) *)

Module trim_facts.
Import strings.

Lemma encodings_utf8 :
  space_encodings = map (fun r => list_ascii_of_string (Spec.utf8 r)) Spec.white_space.
Proof. reflexivity. Qed.

Lemma list_of_app (a b : string) :
  list_ascii_of_string (a ++ b)%string = list_ascii_of_string a ++ list_ascii_of_string b.
Proof.
  induction a as [| c a IH]; [reflexivity |].
  change (c :: list_ascii_of_string (a ++ b)%string =
          c :: (list_ascii_of_string a ++ list_ascii_of_string b)).
  rewrite IH. reflexivity.
Qed.

Lemma string_of_app (a b : list ascii) :
  string_of_list_ascii (a ++ b) = (string_of_list_ascii a ++ string_of_list_ascii b)%string.
Proof.
  induction a as [| c a IH]; [reflexivity |].
  change (String c (string_of_list_ascii (a ++ b)) =
          String c (string_of_list_ascii a ++ string_of_list_ascii b)%string).
  rewrite IH. reflexivity.
Qed.

Lemma strip_prefix_Some (p s r : list ascii) :
  strip_prefix p s = Some r <-> s = p ++ r.
Proof.
  revert s. induction p as [| a p IH]; intros s; cbn.
  - split; [intros [= ->] | intros ->]; reflexivity.
  - destruct s as [| b s]; [split; discriminate |].
    destruct (Ascii.eqb_spec a b) as [-> | Hne].
    + rewrite IH. split; [intros -> | intros [= ->]]; reflexivity.
    + split; [discriminate | intros [= -> _]; contradiction].
Qed.

Lemma strip_rune_Some (encodings : list (list ascii)) (s r : list ascii) :
  strip_rune encodings s = Some r -> exists e, e ∈ encodings /\ s = e ++ r.
Proof.
  induction encodings as [| e rest IH]; cbn; [discriminate |].
  destruct (strip_prefix e s) as [r' |] eqn:E.
  - intros [= ->]. apply strip_prefix_Some in E. exists e. split; [left | exact E].
  - intros H. destruct (IH H) as (e' & He' & Hs). exists e'. split; [right; exact He' | exact Hs].
Qed.

Lemma strip_rune_None (encodings : list (list ascii)) (s : list ascii) :
  strip_rune encodings s = None <-> forall e r, e ∈ encodings -> s <> e ++ r.
Proof.
  induction encodings as [| e rest IH]; cbn.
  - split; [intros _ e r He; inversion He | reflexivity].
  - destruct (strip_prefix e s) as [r' |] eqn:E.
    + split; [discriminate |]. intros H. apply strip_prefix_Some in E.
      exfalso. apply (H e r'); [left | exact E].
    + rewrite IH. split.
      * intros H e' r He'. apply elem_of_cons in He' as [-> | He'].
        -- intros Hs. apply strip_prefix_Some in Hs. congruence.
        -- apply H. exact He'.
      * intros H e' r He'. apply H. right. exact He'.
Qed.

Section Runes.
Variable encodings : list (list ascii).
Hypothesis not_empty : forall e, e ∈ encodings -> e <> [].
Hypothesis prefix_free :
  forall e rest, e ∈ encodings -> strip_rune encodings (e ++ rest) = Some rest.

(** What the loop drops is a sequence of runes of [encodings], and what it
    leaves does not start with one. *)
Lemma trim_start_split (fuel : nat) (s : list ascii) :
  List.length s <= fuel ->
  exists es, Forall (fun e => e ∈ encodings) es /\
             s = concat es ++ trim_start encodings fuel s /\
             strip_rune encodings (trim_start encodings fuel s) = None.
Proof.
  revert s. induction fuel as [| n IH]; intros s Hlen.
  - destruct s; [| cbn in Hlen; lia]. exists []. cbn. repeat split; [constructor |].
    apply strip_rune_None. intros e r He Hs. symmetry in Hs.
    apply app_eq_nil in Hs as [-> _]. exact (not_empty _ He eq_refl).
  - cbn [trim_start]. destruct (strip_rune encodings s) as [r |] eqn:E.
    + destruct (strip_rune_Some _ _ _ E) as (e & He & ->).
      assert (Hr : List.length r <= n).
      { rewrite length_app in Hlen. pose proof (not_empty _ He).
        destruct e; [contradiction | cbn in Hlen; lia]. }
      destruct (IH r Hr) as (es & Hes & Hsplit & Hnone).
      exists (e :: es). split; [constructor; assumption |]. split; [| exact Hnone].
      cbn [concat]. rewrite <- app_assoc. f_equal. exact Hsplit.
    + exists []. split; [constructor |]. split; [reflexivity | exact E].
Qed.

(** The loop is deterministic: whatever way a text is cut into runes of
    [encodings] followed by a rest that starts with none, the rest is what
    the loop returns. *)
Lemma trim_start_unique (es : list (list ascii)) (t : list ascii) (fuel : nat) :
  Forall (fun e => e ∈ encodings) es ->
  strip_rune encodings t = None ->
  List.length (concat es ++ t) <= fuel ->
  trim_start encodings fuel (concat es ++ t) = t.
Proof.
  intros Hes Ht. revert fuel. induction Hes as [| e es He _ IH]; intros fuel Hlen.
  - cbn [concat app]. destruct fuel; cbn [trim_start]; [reflexivity |].
    rewrite Ht. reflexivity.
  - cbn [concat] in *. rewrite <- app_assoc in *.
    destruct fuel as [| n].
    + rewrite length_app in Hlen. pose proof (not_empty _ He).
      destruct e; [contradiction | cbn in Hlen; lia].
    + cbn [trim_start]. rewrite (prefix_free _ _ He). apply IH.
      rewrite length_app in Hlen. pose proof (not_empty _ He).
      destruct e; [contradiction | cbn in Hlen; lia].
Qed.

End Runes.

Ltac each_encoding H :=
  repeat (apply elem_of_cons in H as [-> | H]); [.. | inversion H].

Lemma space_not_empty (e : list ascii) : e ∈ space_encodings -> e <> [].
Proof. intros H. cbv in H. each_encoding H; discriminate. Qed.

Lemma space_prefix_free (e rest : list ascii) :
  e ∈ space_encodings -> strip_rune space_encodings (e ++ rest) = Some rest.
Proof. intros H. cbv in H. each_encoding H; reflexivity. Qed.

Lemma rev_space_not_empty (e : list ascii) :
  e ∈ map (@rev ascii) space_encodings -> e <> [].
Proof. intros H. cbv in H. each_encoding H; discriminate. Qed.

Lemma rev_space_prefix_free (e rest : list ascii) :
  e ∈ map (@rev ascii) space_encodings ->
  strip_rune (map (@rev ascii) space_encodings) (e ++ rest) = Some rest.
Proof. intros H. cbv in H. each_encoding H; reflexivity. Qed.

Lemma string_of_list_inj (s : string) (l : list ascii) :
  list_ascii_of_string s = l <-> s = string_of_list_ascii l.
Proof.
  split; [intros <-; symmetry; apply string_of_list_ascii_of_string |].
  intros ->. apply list_ascii_of_string_of_list_ascii.
Qed.

Lemma encoding_rune (e : list ascii) :
  e ∈ space_encodings <->
  exists r, r ∈ Spec.white_space /\ e = list_ascii_of_string (Spec.utf8 r).
Proof.
  rewrite encodings_utf8, list_elem_of_fmap.
  split; intros (r & H1 & H2); exists r; tauto.
Qed.

Lemma utf8_text_concat (runes : list N) :
  list_ascii_of_string (Spec.utf8_text runes) =
  concat (map (fun r => list_ascii_of_string (Spec.utf8 r)) runes).
Proof.
  induction runes as [| r runes IH]; [reflexivity |].
  cbn [Spec.utf8_text map concat]. rewrite list_of_app, IH. reflexivity.
Qed.

Lemma blank_encodings (s : string) :
  Spec.blank s <->
  exists es, Forall (fun e => e ∈ space_encodings) es /\ list_ascii_of_string s = concat es.
Proof.
  split.
  - intros (runes & Hr & ->).
    exists (map (fun r => list_ascii_of_string (Spec.utf8 r)) runes).
    split; [| apply utf8_text_concat].
    apply Forall_fmap. eapply Forall_impl; [exact Hr |].
    intros r Hin. unfold compose. apply encoding_rune. exists r. split; [exact Hin | reflexivity].
  - intros (es & Hes & Hs). revert s Hs.
    induction Hes as [| e es He _ IH]; intros s Hs.
    + exists []. split; [constructor |]. apply string_of_list_inj in Hs. exact Hs.
    + apply encoding_rune in He as (r & Hr & ->).
      destruct (IH (string_of_list_ascii (concat es))) as (runes & Hrunes & Ht).
      { apply list_ascii_of_string_of_list_ascii. }
      exists (r :: runes). split; [constructor; assumption |].
      cbn [Spec.utf8_text]. rewrite <- Ht.
      apply string_of_list_inj in Hs. rewrite Hs. cbn [concat].
      rewrite string_of_app, string_of_list_ascii_of_string. reflexivity.
Qed.

Lemma leading_space_encoding (t : string) :
  Spec.leading_space t <->
  exists e rest, e ∈ space_encodings /\ list_ascii_of_string t = e ++ rest.
Proof.
  split.
  - intros (r & rest & Hr & ->). exists (list_ascii_of_string (Spec.utf8 r)), (list_ascii_of_string rest).
    split; [apply encoding_rune; eauto | apply list_of_app].
  - intros (e & rest & He & Ht). apply encoding_rune in He as (r & Hr & ->).
    exists r, (string_of_list_ascii rest). split; [exact Hr |].
    apply string_of_list_inj in Ht. rewrite Ht, string_of_app, string_of_list_ascii_of_string.
    reflexivity.
Qed.

Lemma trailing_space_encoding (t : string) :
  Spec.trailing_space t <->
  exists e pre, e ∈ space_encodings /\ list_ascii_of_string t = pre ++ e.
Proof.
  split.
  - intros (r & pre & Hr & ->). exists (list_ascii_of_string (Spec.utf8 r)), (list_ascii_of_string pre).
    split; [apply encoding_rune; eauto | apply list_of_app].
  - intros (e & pre & He & Ht). apply encoding_rune in He as (r & Hr & ->).
    exists r, (string_of_list_ascii pre). split; [exact Hr |].
    apply string_of_list_inj in Ht. rewrite Ht, string_of_app, string_of_list_ascii_of_string.
    reflexivity.
Qed.

Lemma leading_space_strip (t : string) :
  ~ Spec.leading_space t <-> strip_rune space_encodings (list_ascii_of_string t) = None.
Proof.
  rewrite leading_space_encoding, strip_rune_None. split.
  - intros H e r He Ht. apply H. eauto.
  - intros H (e & r & He & Ht). exact (H e r He Ht).
Qed.

Lemma trailing_space_strip (t : string) :
  ~ Spec.trailing_space t <->
  strip_rune (map (@rev ascii) space_encodings) (rev (list_ascii_of_string t)) = None.
Proof.
  rewrite trailing_space_encoding, strip_rune_None. split.
  - intros H e r He Ht. apply list_elem_of_fmap in He as (e0 & -> & He0).
    apply H. exists e0, (rev r). split; [exact He0 |].
    rewrite <- (rev_involutive (list_ascii_of_string t)), Ht, rev_app_distr, rev_involutive.
    reflexivity.
  - intros H (e & pre & He & Ht). apply (H (rev e) (rev pre)).
    + apply list_elem_of_fmap. eauto.
    + rewrite Ht, rev_app_distr. reflexivity.
Qed.

Lemma encoding_rune_not_empty (r : N) : r ∈ Spec.white_space -> Spec.utf8 r <> "".
Proof.
  intros Hr E. apply (space_not_empty (list_ascii_of_string (Spec.utf8 r))).
  - apply encoding_rune. eauto.
  - rewrite E. reflexivity.
Qed.

Lemma blank_nil : Spec.blank "".
Proof. exists []. split; [constructor | reflexivity]. Qed.

Lemma blank_app (a b : string) : Spec.blank a -> Spec.blank b -> Spec.blank (a ++ b)%string.
Proof.
  rewrite !blank_encodings. intros (ea & Ha & Ea) (eb & Hb & Eb).
  exists (ea ++ eb). split; [apply Forall_app; split; assumption |].
  rewrite list_of_app, Ea, Eb, concat_app. reflexivity.
Qed.

Lemma concat_rev (es : list (list ascii)) :
  rev (concat es) = concat (map (@rev ascii) (rev es)).
Proof.
  induction es as [| e es IH]; [reflexivity |].
  cbn [concat rev]. rewrite rev_app_distr, IH, map_app, concat_app. cbn.
  rewrite app_nil_r. reflexivity.
Qed.

(** The bytes of a blank text, reversed, are reversed encodings. *)
Lemma blank_rev (s : string) :
  Spec.blank s <->
  exists es, Forall (fun e => e ∈ map (@rev ascii) space_encodings) es /\
             rev (list_ascii_of_string s) = concat es.
Proof.
  rewrite blank_encodings. split.
  - intros (es & Hes & E). exists (map (@rev ascii) (rev es)). split.
    + apply Forall_fmap, Forall_rev. eapply Forall_impl; [exact Hes |].
      intros e He. unfold compose. apply list_elem_of_fmap. eauto.
    + rewrite E. apply concat_rev.
  - intros (es & Hes & E). exists (map (@rev ascii) (rev es)). split.
    + apply Forall_fmap, Forall_rev. eapply Forall_impl; [exact Hes |].
      intros e He. unfold compose. apply list_elem_of_fmap in He as (e0 & -> & He0).
      rewrite rev_involutive. exact He0.
    + rewrite <- (rev_involutive (list_ascii_of_string s)), E. apply concat_rev.
Qed.

(** [TrimLeft] cuts a blank prefix off and leaves a text that does not
    start with white space. *)
Lemma TrimLeft_split (s : string) :
  exists l, Spec.blank l /\ s = (l ++ TrimLeft s)%string /\
            ~ Spec.leading_space (TrimLeft s).
Proof.
  unfold TrimLeft.
  destruct (trim_start_split space_encodings space_not_empty
              (List.length (list_ascii_of_string s)) (list_ascii_of_string s) (le_n _))
    as (es & Hes & Hsplit & Hnone).
  exists (string_of_list_ascii (concat es)). split; [| split].
  - apply blank_encodings. exists es. split; [exact Hes |].
    apply list_ascii_of_string_of_list_ascii.
  - rewrite <- string_of_app, <- Hsplit. symmetry. apply string_of_list_ascii_of_string.
  - apply leading_space_strip. rewrite list_ascii_of_string_of_list_ascii. exact Hnone.
Qed.

Lemma TrimRight_split (s : string) :
  exists r, Spec.blank r /\ s = (TrimRight s ++ r)%string /\
            ~ Spec.trailing_space (TrimRight s).
Proof.
  unfold TrimRight.
  destruct (trim_start_split (map (@rev ascii) space_encodings) rev_space_not_empty
              (List.length (rev (list_ascii_of_string s))) (rev (list_ascii_of_string s)) (le_n _))
    as (es & Hes & Hsplit & Hnone).
  exists (string_of_list_ascii (rev (concat es))). split; [| split].
  - apply blank_rev. exists es. split; [exact Hes |].
    rewrite list_ascii_of_string_of_list_ascii. apply rev_involutive.
  - rewrite <- string_of_app, <- rev_app_distr, <- Hsplit, rev_involutive.
    symmetry. apply string_of_list_ascii_of_string.
  - apply trailing_space_strip.
    rewrite list_ascii_of_string_of_list_ascii, rev_involutive. exact Hnone.
Qed.

Lemma TrimLeft_unique (l t : string) :
  Spec.blank l -> ~ Spec.leading_space t -> TrimLeft (l ++ t) = t.
Proof.
  intros Hl Ht. apply blank_encodings in Hl as (es & Hes & El).
  apply leading_space_strip in Ht. unfold TrimLeft.
  rewrite list_of_app, El.
  rewrite (trim_start_unique space_encodings space_not_empty space_prefix_free es _ _ Hes Ht (le_n _)).
  apply string_of_list_ascii_of_string.
Qed.

Lemma TrimRight_unique (t r : string) :
  Spec.blank r -> ~ Spec.trailing_space t -> TrimRight (t ++ r) = t.
Proof.
  intros Hr Ht. apply blank_rev in Hr as (es & Hes & Er).
  apply trailing_space_strip in Ht. unfold TrimRight.
  rewrite list_of_app, rev_app_distr, Er.
  rewrite (trim_start_unique _ rev_space_not_empty rev_space_prefix_free es _ _ Hes Ht (le_n _)).
  rewrite rev_involutive. apply string_of_list_ascii_of_string.
Qed.

Lemma append_assoc (a b c : string) : ((a ++ b) ++ c = a ++ (b ++ c))%string.
Proof.
  induction a as [| x a IH]; [reflexivity |].
  change (String x ((a ++ b) ++ c) = String x (a ++ (b ++ c)))%string. rewrite IH. reflexivity.
Qed.

Lemma leading_space_app (t r : string) :
  Spec.leading_space t -> Spec.leading_space (t ++ r)%string.
Proof.
  intros (x & rest & Hx & ->). exists x, (rest ++ r)%string. split; [exact Hx |].
  apply append_assoc.
Qed.

(** [TrimSpace] returns the text without the white space at its two
    ends. *)
Lemma TrimSpace_trimmed (p : string) : Spec.trimmed p (TrimSpace p).
Proof.
  unfold TrimSpace.
  destruct (TrimLeft_split p) as (l & Hl & Ep & Hlead).
  destruct (TrimRight_split (TrimLeft p)) as (r & Hr & Et & Htrail).
  exists l, r. split; [| split; [exact Hl | split; [exact Hr | split; [| exact Htrail]]]].
  - rewrite <- Et. exact Ep.
  - intros H. apply Hlead. rewrite Et. apply leading_space_app. exact H.
Qed.

(** A text without white space at either end is left as it is. *)
Lemma TrimSpace_fixed (t : string) :
  ~ Spec.leading_space t -> ~ Spec.trailing_space t -> TrimSpace t = t.
Proof.
  intros Hl Hr. unfold TrimSpace.
  rewrite (TrimLeft_unique "" t blank_nil Hl : TrimLeft t = t).
  rewrite <- (strings_facts.app_empty_r t) at 1. apply TrimRight_unique; [apply blank_nil | exact Hr].
Qed.

Lemma TrimSpace_idempotent (s : string) : TrimSpace (TrimSpace s) = TrimSpace s.
Proof.
  destruct (TrimSpace_trimmed s) as (l & r & _ & _ & _ & Hl & Hr).
  apply TrimSpace_fixed; assumption.
Qed.

(** A text trims to nothing exactly when it is made of white space. *)
Lemma TrimSpace_empty_iff (s : string) : TrimSpace s = "" <-> Spec.blank s.
Proof.
  split.
  - intros E. destruct (TrimSpace_trimmed s) as (l & r & Es & Hl & Hr & _).
    rewrite E in Es. rewrite Es. apply blank_app; [exact Hl | exact Hr].
  - intros H. unfold TrimSpace.
    assert (Hnone : ~ Spec.leading_space "").
    { intros (x & rest & Hx & E). apply encoding_rune_not_empty in Hx. 
      destruct (Spec.utf8 x); [contradiction | discriminate]. }
    rewrite <- (strings_facts.app_empty_r s).
    rewrite (TrimLeft_unique s "" H Hnone). reflexivity.
Qed.

(** A byte after the first of an encoding starts no encoding. *)
Lemma continuation_byte (e e2 : list ascii) (b : ascii) :
  e ∈ space_encodings -> e2 ∈ space_encodings -> b ∈ tail e -> head e2 <> Some b.
Proof.
  assert (Hall : forallb (fun e => forallb (fun b => forallb (fun e2 =>
                   match e2 with [] => true | c :: _ => negb (Ascii.eqb c b) end)
                 space_encodings) (tail e)) space_encodings = true) by reflexivity.
  intros He He2 Hb. apply list_elem_of_In in He, He2, Hb.
  rewrite forallb_forall in Hall. specialize (Hall e He).
  rewrite forallb_forall in Hall. specialize (Hall b Hb).
  rewrite forallb_forall in Hall. specialize (Hall e2 He2).
  destruct e2 as [| c e2]; [discriminate |]. cbn. intros [= ->].
  rewrite Ascii.eqb_refl in Hall. discriminate.
Qed.

(** White space after a text that does not start with white space does
    not make it start with white space. *)
Lemma leading_space_cross (t r : string) :
  t <> "" -> Spec.blank r -> Spec.leading_space (t ++ r)%string -> Spec.leading_space t.
Proof.
  intros Ht Hr H. apply leading_space_encoding in H as (e & rest & He & E).
  apply leading_space_encoding. rewrite list_of_app in E.
  apply app_eq_inv in E as [(k & E1 & E2) | (k & E1 & E2)].
  - exists e, k. split; [exact He | exact E1].
  - destruct k as [| b k].
    + exists e, []. split; [exact He |]. rewrite E1, !app_nil_r. reflexivity.
    + exfalso. apply blank_encodings in Hr as (es & Hes & Er).
      rewrite Er in E2. destruct Hes as [| e2 es He2 Hes]; [discriminate |].
      apply (continuation_byte e e2 b He He2).
      * rewrite E1. destruct (list_ascii_of_string t) as [| a t'] eqn:Et.
        -- exfalso. apply Ht. apply string_of_list_inj in Et. exact Et.
        -- cbn. apply elem_of_app. right. left.
      * cbn [concat] in E2. destruct e2 as [| c e2].
        -- exfalso. exact (space_not_empty [] He2 eq_refl).
        -- cbn in E2. injection E2 as -> _. reflexivity.
Qed.

(** The trimmed text is determined by the text. *)
Lemma TrimSpace_unique (p t : string) : Spec.trimmed p t -> TrimSpace p = t.
Proof.
  intros (l & r & -> & Hl & Hr & Hlead & Htrail).
  destruct (decide (t = "")) as [-> | Ht].
  - apply TrimSpace_empty_iff. apply blank_app; [exact Hl | exact Hr].
  - unfold TrimSpace. rewrite TrimLeft_unique; [apply TrimRight_unique; assumption | exact Hl |].
    intros H. apply Hlead. exact (leading_space_cross t r Ht Hr H).
Qed.

Lemma TrimSpace_spec (p t : string) : TrimSpace p = t <-> Spec.trimmed p t.
Proof. split; [intros <-; apply TrimSpace_trimmed | apply TrimSpace_unique]. Qed.

Example TrimSpace_examples :
  TrimSpace " . " = "." /\
  TrimSpace (Spec.utf8 160 ++ "bookinfo" ++ Spec.utf8 160) = "bookinfo" /\
  TrimSpace (Spec.utf8 133 ++ "istio-system") = "istio-system" /\
  TrimSpace (Spec.utf8 8232 ++ Spec.utf8 12288 ++ " ") = "" /\
  TrimSpace (String (ascii_of_nat 160) "a") = String (ascii_of_nat 160) "a" /\
  TrimSpace "a b" = "a b".
Proof. repeat split; reflexivity. Qed.

End trim_facts.

Module parse_facts.
Import strings kubernetes.

Lemma Split_not_nil (s : string) (sep : ascii) : Split s sep <> [].
Proof.
  destruct s as [| c r]; cbn; [discriminate |].
  destruct (Ascii.eqb c sep); [discriminate |].
  destruct (Split r sep); discriminate.
Qed.

(** Joining the parts with the separator gives the text back. *)
Lemma Join_Split (s : string) (sep : ascii) : Join (Split s sep) sep = s.
Proof.
  induction s as [| c r IH]; [reflexivity |].
  cbn [Split]. destruct (Ascii.eqb_spec c sep) as [-> | Hne].
  - pose proof (Split_not_nil r sep) as Hnil.
    destruct (Split r sep) as [| h t] eqn:E; [contradiction |].
    cbn [Join]. cbn [Join] in IH. rewrite IH. reflexivity.
  - pose proof (Split_not_nil r sep) as Hnil.
    destruct (Split r sep) as [| h t] eqn:E; [contradiction |].
    destruct t as [| h' t'].
    + cbn [Join] in IH |- *. rewrite IH. reflexivity.
    + cbn [Join] in IH |- *. rewrite <- IH. reflexivity.
Qed.

Lemma comma_free_cons (c : ascii) (s : string) :
  Spec.comma_free (String c s) = negb (Ascii.eqb c ","%char) && Spec.comma_free s.
Proof. reflexivity. Qed.

Lemma comma_free_app (a b : string) :
  Spec.comma_free (a ++ b)%string = Spec.comma_free a && Spec.comma_free b.
Proof.
  unfold Spec.comma_free. rewrite trim_facts.list_of_app, forallb_app. reflexivity.
Qed.

Lemma Split_comma_free (s : string) :
  Forall (fun p => Spec.comma_free p = true) (Split s ","%char).
Proof.
  induction s as [| c r IH]; cbn [Split].
  - repeat constructor.
  - destruct (Ascii.eqb c ","%char) eqn:Hc.
    + constructor; [reflexivity | exact IH].
    + destruct (Split r ","%char) as [| h t]; [repeat constructor; cbn; rewrite Hc; reflexivity |].
      inversion IH as [| ? ? Hh Ht]; subst. constructor; [| exact Ht].
      rewrite comma_free_cons, Hc, Hh. reflexivity.
Qed.

Lemma Split_comma_free_id (p : string) :
  Spec.comma_free p = true -> Split p ","%char = [p].
Proof.
  induction p as [| c r IH]; [reflexivity |].
  rewrite comma_free_cons. intros H. apply andb_true_iff in H as [Hc Hr].
  cbn [Split]. apply negb_true_iff in Hc. rewrite Hc, (IH Hr). reflexivity.
Qed.

Lemma Split_app_comma (p r : string) :
  Spec.comma_free p = true ->
  Split (p ++ String ","%char r) ","%char = p :: Split r ","%char.
Proof.
  induction p as [| c p IH].
  - intros _. cbn. reflexivity.
  - rewrite comma_free_cons. intros H. apply andb_true_iff in H as [Hc Hp].
    change (String c p ++ String ","%char r)%string
      with (String c (p ++ String ","%char r)).
    cbn [Split]. apply negb_true_iff in Hc. rewrite Hc, (IH Hp). reflexivity.
Qed.

(** Segments without comma, joined by commas, are split back into the
    same segments. *)
Lemma Split_Join (parts : list string) :
  parts <> [] ->
  Forall (fun p => Spec.comma_free p = true) parts ->
  Split (Join parts ","%char) ","%char = parts.
Proof.
  intros Hne Hall. induction Hall as [| p l Hp Hl IH]; [contradiction |].
  destruct l as [| q l].
  - cbn [Join]. apply Split_comma_free_id, Hp.
  - cbn [Join]. rewrite (Split_app_comma p _ Hp). f_equal. apply IH. discriminate.
Qed.

Lemma parse_fold (parts acc : list string) :
  fold_left parseExportToAnnotation_step parts acc =
  acc ++ filter (fun p => p <> "") (map TrimSpace parts).
Proof.
  revert acc. induction parts as [| p parts IH]; intros acc; cbn [fold_left map].
  - rewrite filter_nil, app_nil_r. reflexivity.
  - rewrite IH. unfold parseExportToAnnotation_step. rewrite filter_cons.
    destruct (String.eqb_spec (TrimSpace p) "") as [E | E]; cbn [negb].
    + rewrite decide_False by (intros H; apply H; exact E). reflexivity.
    + rewrite decide_True by exact E. rewrite <- app_assoc. reflexivity.
Qed.

Lemma parseExportToAnnotation_tokens (annotation : string) :
  parseExportToAnnotation annotation = Spec.annotation_tokens annotation.
Proof. unfold parseExportToAnnotation. rewrite parse_fold. reflexivity. Qed.

(** Every token kept is a non-empty trimmed segment of the annotation. *)
Lemma parseExportToAnnotation_elem (annotation t : string) :
  t ∈ parseExportToAnnotation annotation <->
  t <> "" /\ exists p, p ∈ Split annotation ","%char /\ t = TrimSpace p.
Proof.
  rewrite parseExportToAnnotation_tokens. unfold Spec.annotation_tokens.
  rewrite list_elem_of_filter, list_elem_of_fmap.
  split; intros [H1 [p [H2 H3]]]; (split; [exact H1 | exists p; split; congruence]).
Qed.

(** Trimming segment by segment is what relates the segments to their
    trimmed forms. *)
Lemma trimmed_map (segments trimmed_segments : list string) :
  Forall2 Spec.trimmed segments trimmed_segments <->
  trimmed_segments = map TrimSpace segments.
Proof.
  split.
  - induction 1 as [| p t ps ts Hpt _ IH]; [reflexivity |].
    cbn [map]. rewrite (trim_facts.TrimSpace_unique p t Hpt), IH. reflexivity.
  - intros ->. induction segments as [| p ps IH]; constructor;
      [apply trim_facts.TrimSpace_trimmed | exact IH].
Qed.

(** The tokens returned are the tokens the annotation stands for. *)
Lemma parse_tokens_of (annotation : string) (tokens : list string) :
  parseExportToAnnotation annotation = tokens <-> Spec.tokens_of annotation tokens.
Proof.
  rewrite parseExportToAnnotation_tokens. unfold Spec.annotation_tokens, Spec.tokens_of. split.
  - intros <-. exists (Split annotation ","%char), (map TrimSpace (Split annotation ","%char)).
    split; [apply Split_not_nil |]. split; [apply Split_comma_free |].
    split; [symmetry; apply Join_Split |]. split; [apply trimmed_map |]; reflexivity.
  - intros (segments & ts & Hne & Hcf & -> & Ht & ->).
    apply trimmed_map in Ht. subst ts. rewrite (Split_Join segments Hne Hcf). reflexivity.
Qed.

Lemma blank_comma_free (s : string) : Spec.blank s -> Spec.comma_free s = true.
Proof.
  intros H. apply trim_facts.blank_encodings in H as (es & Hes & E).
  unfold Spec.comma_free. rewrite E. clear E.
  induction Hes as [| e es He _ IH]; [reflexivity |].
  cbn [concat]. rewrite forallb_app, IH, andb_true_r.
  cbv in He. trim_facts.each_encoding He; reflexivity.
Qed.

(** White space between commas, and nothing else: no token. *)
Lemma parseExportToAnnotation_blank (segments : list string) :
  Forall Spec.blank segments ->
  parseExportToAnnotation (Join segments ","%char) = [].
Proof.
  intros Hall. destruct segments as [| p ps]; [reflexivity |].
  rewrite parseExportToAnnotation_tokens. unfold Spec.annotation_tokens.
  rewrite Split_Join; [| discriminate |].
  - induction Hall as [| q l Hq _ IH]; [reflexivity |].
    cbn [map]. rewrite filter_cons.
    rewrite (proj2 (trim_facts.TrimSpace_empty_iff q) Hq).
    rewrite decide_False by (intros Hn; apply Hn; reflexivity). exact IH.
  - eapply Forall_impl; [exact Hall |]. intros q Hq. apply blank_comma_free, Hq.
Qed.

(** Every token returned is non-empty, holds no comma and neither starts
    nor ends with white space. *)
Lemma tokens_clean (annotation : string) :
  Forall Spec.clean_token (parseExportToAnnotation annotation).
Proof.
  apply Forall_forall. intros t Ht.
  apply parseExportToAnnotation_elem in Ht as (Hne & p & Hp & ->).
  destruct (trim_facts.TrimSpace_trimmed p) as (l & r & Ep & _ & _ & Hlead & Htrail).
  repeat split; try assumption.
  pose proof (Split_comma_free annotation) as H. rewrite Forall_forall in H.
  specialize (H p Hp). rewrite Ep, !comma_free_app in H.
  apply andb_true_iff in H as [_ H]. apply andb_true_iff in H as [H _]. exact H.
Qed.

(** Clean tokens joined by commas are read back as they are. *)
Lemma parse_Join_clean (tokens : list string) :
  Forall Spec.clean_token tokens ->
  parseExportToAnnotation (Join tokens ","%char) = tokens.
Proof.
  intros Hall.
  assert (Hkeep : filter (fun p => p <> "") (map TrimSpace tokens) = tokens).
  { induction Hall as [| x l0 (Hne & _ & Hl & Hr) _ IH]; [reflexivity |].
    cbn [map]. rewrite filter_cons, (trim_facts.TrimSpace_fixed x Hl Hr).
    rewrite decide_True by exact Hne. rewrite IH. reflexivity. }
  destruct tokens as [| t l1]; [reflexivity |].
  rewrite parseExportToAnnotation_tokens. unfold Spec.annotation_tokens.
  rewrite Split_Join; [exact Hkeep | discriminate |].
  eapply Forall_impl; [exact Hall |]. intros x (_ & Hc & _). exact Hc.
Qed.

Example parseExportToAnnotation_examples :
  parseExportToAnnotation " . , istio-system " = ["."; "istio-system"] /\
  parseExportToAnnotation "bookinfo,istio-system" = ["bookinfo"; "istio-system"] /\
  parseExportToAnnotation "" = [] /\
  parseExportToAnnotation "  ,, " = [] /\
  parseExportToAnnotation "*" = ["*"] /\
  parseExportToAnnotation (Spec.utf8 160) = [] /\
  parseExportToAnnotation
    (Spec.utf8 160 ++ "bookinfo" ++ Spec.utf8 160 ++ "," ++ Spec.utf8 133 ++ "istio-system") =
    ["bookinfo"; "istio-system"].
Proof. repeat split; reflexivity. Qed.

End parse_facts.

Module index_facts.
Import api kubernetes.

Lemma service_keys_forms (conf : Config) (svc : Service) :
  Spec.service_keys conf svc =
  [fqdn (IstioIdentityDomain conf) svc; shortFqdn svc; twoPart svc].
Proof. reflexivity. Qed.

Lemma newEntry_spec (defaultExportTo : list string) (svc : Service) :
  newEntry defaultExportTo svc =
  {| exportTo := Spec.effective_exportTo (svc_Annotations svc !! ExportToAnnotation)
                   defaultExportTo;
     namespace := svc_Namespace svc |}.
Proof.
  unfold newEntry, Spec.effective_exportTo.
  destruct (svc_Annotations svc !! ExportToAnnotation);
    [rewrite parse_facts.parseExportToAnnotation_tokens |]; reflexivity.
Qed.

Section Build.
Variable conf : Config.
Variable defaultExportTo : list string.

Lemma register_lookup (h : KubeServiceHosts) (svc : Service) (k : string) :
  entries (register (IstioIdentityDomain conf) defaultExportTo h svc) !! k =
  if bool_decide (k ∈ Spec.service_keys conf svc)
  then Some (List.length (heap h)) else entries h !! k.
Proof.
  unfold register. cbn [entries]. rewrite service_keys_forms.
  rewrite !lookup_insert.
  destruct (decide (twoPart svc = k)) as [<- | H3].
  { rewrite bool_decide_eq_true_2 by (rewrite !elem_of_cons; tauto). reflexivity. }
  destruct (decide (shortFqdn svc = k)) as [<- | H2].
  { rewrite bool_decide_eq_true_2 by (rewrite !elem_of_cons; tauto). reflexivity. }
  destruct (decide (fqdn (IstioIdentityDomain conf) svc = k)) as [<- | H1].
  { rewrite bool_decide_eq_true_2 by (rewrite !elem_of_cons; tauto). reflexivity. }
  rewrite bool_decide_eq_false_2
    by (rewrite !elem_of_cons, elem_of_nil; intros [? | [? | [? | []]]]; congruence).
  reflexivity.
Qed.

(** One iteration allocates one entry and stores its address under the
    three host names of the service. *)
Lemma register_stores (h : KubeServiceHosts) (svc : Service) (k : string) :
  k ∈ Spec.service_keys conf svc ->
  let h' := register (IstioIdentityDomain conf) defaultExportTo h svc in
  entries h' !! k = Some (List.length (heap h)) /\
  heap h' !! List.length (heap h) = Some (newEntry defaultExportTo svc).
Proof.
  intros Hk h'. subst h'. split.
  - rewrite register_lookup, bool_decide_eq_true_2 by exact Hk. reflexivity.
  - unfold register. cbn [heap].
    rewrite lookup_app_r by lia. rewrite Nat.sub_diag. reflexivity.
Qed.

Lemma fold_heap (l : list Service) (h : KubeServiceHosts) :
  heap (fold_left (register (IstioIdentityDomain conf) defaultExportTo) l h) = heap h ++ map (newEntry defaultExportTo) l.
Proof.
  revert h. induction l as [| svc l IH]; intros h; cbn [fold_left map].
  - rewrite app_nil_r. reflexivity.
  - rewrite IH. unfold register. cbn [heap].
    rewrite <- app_assoc. reflexivity.
Qed.

Lemma fold_entries (l : list Service) (h : KubeServiceHosts) (k : string) :
  entries (fold_left (register (IstioIdentityDomain conf) defaultExportTo) l h) !! k =
  match Spec.last_writer conf k l (List.length (heap h)) with
  | Some i => Some i
  | None => entries h !! k
  end.
Proof.
  revert h. induction l as [| svc l IH]; intros h; cbn [fold_left Spec.last_writer].
  - reflexivity.
  - rewrite IH. replace (List.length (heap (register (IstioIdentityDomain conf) defaultExportTo h svc))) with (S (List.length (heap h))).
    + destruct (Spec.last_writer conf k l (S (List.length (heap h)))); [reflexivity |].
      rewrite register_lookup. destruct (bool_decide _); reflexivity.
    + unfold register. cbn [heap]. rewrite length_app. cbn. lia.
Qed.

(** The writer found is a service of the list that has the host name,
    and no later service has it. *)
Lemma last_writer_Some (k : string) (l : list Service) (b i : nat) :
  Spec.last_writer conf k l b = Some i ->
  exists pre svc post,
    l = pre ++ svc :: post /\ i = b + List.length pre /\
    k ∈ Spec.service_keys conf svc /\
    Forall (fun t => k ∉ Spec.service_keys conf t) post.
Proof.
  revert b i. induction l as [| t l IH]; intros b i; cbn [Spec.last_writer].
  - discriminate.
  - destruct (Spec.last_writer conf k l (S b)) as [j |] eqn:E.
    + intros [= ->]. destruct (IH _ _ E) as (pre & svc & post & -> & -> & Hk & Hpost).
      exists (t :: pre), svc, post. repeat split; try assumption. cbn. lia.
    + case_bool_decide as Hk; [| discriminate]. intros [= ->].
      exists [], t, l. repeat split; [cbn; lia | exact Hk |].
      clear -E. revert E. generalize (S i). induction l as [| u l IHl]; intros n.
      * constructor.
      * cbn [Spec.last_writer].
        destruct (Spec.last_writer conf k l (S n)) eqn:E'; [discriminate |].
        case_bool_decide as Hu; [discriminate |]. intros _.
        constructor; [exact Hu | exact (IHl _ E')].
Qed.

Lemma last_writer_None (k : string) (l : list Service) (b : nat) :
  Spec.last_writer conf k l b = None <->
  Forall (fun t => k ∉ Spec.service_keys conf t) l.
Proof.
  revert b. induction l as [| t l IH]; intros b; cbn [Spec.last_writer].
  - split; [constructor | reflexivity].
  - rewrite Forall_cons. rewrite <- (IH (S b)).
    destruct (Spec.last_writer conf k l (S b)).
    + split; [discriminate | intros [_ H]; discriminate].
    + case_bool_decide as Hk; split; try discriminate; tauto.
Qed.

Lemma last_writer_app (k : string) (pre post : list Service) (svc : Service) (b : nat) :
  k ∈ Spec.service_keys conf svc ->
  Forall (fun t => k ∉ Spec.service_keys conf t) post ->
  Spec.last_writer conf k (pre ++ svc :: post) b = Some (b + List.length pre).
Proof.
  intros Hk Hpost. revert b.
  induction pre as [| t pre IH]; intros b; cbn [app Spec.last_writer].
  - apply (last_writer_None k post (S b)) in Hpost. rewrite Hpost.
    rewrite bool_decide_eq_true_2 by exact Hk. f_equal. cbn. lia.
  - rewrite IH. f_equal. cbn. lia.
Qed.

Lemma HasHost_iff (services : list Service) (host : string) :
  HasHost (NewKubeServiceHosts services conf defaultExportTo) host = true <->
  exists svc, svc ∈ services /\ host ∈ Spec.service_keys conf svc.
Proof.
  unfold HasHost, NewKubeServiceHosts. rewrite fold_entries.
  cbn [heap entries List.length]. rewrite lookup_empty.
  destruct (Spec.last_writer conf host services 0) as [i |] eqn:E.
  - split; [intros _ | reflexivity].
    apply last_writer_Some in E as (pre & svc & post & -> & _ & Hk & _).
    exists svc. split; [| exact Hk].
    rewrite elem_of_app, elem_of_cons. tauto.
  - split; [discriminate |]. intros (svc & Hin & Hk).
    apply last_writer_None in E. rewrite Forall_forall in E.
    exfalso. exact (E svc Hin Hk).
Qed.

(** A service whose host names are not registered again later keeps
    its own entry under all three names. *)
Lemma own_entry (pre post : list Service) (svc : Service) (k : string) :
  Spec.not_overwritten conf svc post ->
  k ∈ Spec.service_keys conf svc ->
  let h := NewKubeServiceHosts (pre ++ svc :: post) conf defaultExportTo in
  entries h !! k = Some (List.length pre) /\
  heap h !! List.length pre = Some (newEntry defaultExportTo svc).
Proof.
  intros Hpost Hk h. subst h. unfold NewKubeServiceHosts. split.
  - rewrite fold_entries. cbn [heap List.length].
    rewrite (last_writer_app k pre post svc 0 Hk); [reflexivity |].
    unfold Spec.not_overwritten in Hpost.
    eapply Forall_impl; [exact Hpost |]. cbn. intros t Ht Hkt. exact (Ht k Hkt Hk).
  - rewrite fold_heap. cbn [heap app]. rewrite map_app. cbn [map].
    rewrite lookup_app_r by (rewrite length_map; lia).
    rewrite length_map, Nat.sub_diag. reflexivity.
Qed.

End Build.

End index_facts.

Module naming_facts.
Import api kubernetes.

Lemma dot_free_cons (c : ascii) (s : string) :
  Spec.dot_free (String c s) = negb (Ascii.eqb c "."%char) && Spec.dot_free s.
Proof. reflexivity. Qed.

Lemma dot_free_app_dot (a x : string) :
  Spec.dot_free (a ++ String "."%char x) = false.
Proof.
  induction a as [| c a IH].
  - reflexivity.
  - change (Spec.dot_free (String c (a ++ String "."%char x)) = false).
    rewrite dot_free_cons, IH. apply andb_false_r.
Qed.

(** Two texts that agree, each cut at the first dot, agree part by part. *)
Lemma split_first_dot (a b r1 r2 : string) :
  Spec.dot_free a = true -> Spec.dot_free b = true ->
  (a ++ String "."%char r1)%string = (b ++ String "."%char r2)%string ->
  a = b /\ r1 = r2.
Proof.
  revert b. induction a as [| x a IH]; intros [| y b] Ha Hb E.
  - injection E as E. split; [reflexivity | exact E].
  - exfalso. injection E as E _. subst y. discriminate Hb.
  - exfalso. injection E as E _. subst x. discriminate Ha.
  - rewrite dot_free_cons in Ha, Hb.
    apply andb_true_iff in Ha as [_ Ha]. apply andb_true_iff in Hb as [_ Hb].
    injection E as -> E. destruct (IH b Ha Hb E) as [-> ->].
    split; reflexivity.
Qed.

Lemma keys_shape (conf : Config) (svc : Service) :
  Spec.service_keys conf svc =
  [ (svc_Name svc ++ String "."%char
       (svc_Namespace svc ++ String "."%char (IstioIdentityDomain conf)))%string;
    (svc_Name svc ++ String "."%char (svc_Namespace svc ++ String "."%char "svc"))%string;
    (svc_Name svc ++ String "."%char (svc_Namespace svc))%string ].
Proof. reflexivity. Qed.

(** Services with dot-free names that share a host name share the name
    and the namespace. *)
Lemma keys_collide (conf : Config) (s t : Service) (k : string) :
  Spec.dns_named s -> Spec.dns_named t ->
  k ∈ Spec.service_keys conf s -> k ∈ Spec.service_keys conf t ->
  svc_Name s = svc_Name t /\ svc_Namespace s = svc_Namespace t.
Proof.
  intros [Hs1 Hs2] [Ht1 Ht2]. rewrite !keys_shape, !elem_of_cons, !elem_of_nil.
  intros Hs Ht.
  assert (Hfirst : forall rs rt : string,
            k = (svc_Name s ++ String "."%char rs)%string ->
            k = (svc_Name t ++ String "."%char rt)%string ->
            svc_Name s = svc_Name t /\ rs = rt).
  { intros rs rt E1 E2. apply split_first_dot; congruence. }
  assert (Hboth : forall x y : string,
            (svc_Namespace s ++ String "."%char x)%string =
            (svc_Namespace t ++ String "."%char y)%string ->
            svc_Namespace s = svc_Namespace t).
  { intros x y E. apply (split_first_dot _ _ _ _ Hs2 Ht2 E). }
  assert (Hleft : forall x : string,
            (svc_Namespace s ++ String "."%char x)%string = svc_Namespace t -> False).
  { intros x E. rewrite <- E, dot_free_app_dot in Ht2. discriminate. }
  assert (Hright : forall x : string,
            svc_Namespace s = (svc_Namespace t ++ String "."%char x)%string -> False).
  { intros x E. rewrite E, dot_free_app_dot in Hs2. discriminate. }
  destruct Hs as [Es | [Es | [Es | []]]]; destruct Ht as [Et | [Et | [Et | []]]];
    destruct (Hfirst _ _ Es Et) as [Hn Hr]; (split; [exact Hn |]);
    first [ exact Hr | exact (Hboth _ _ Hr)
          | exfalso; exact (Hleft _ Hr) | exfalso; exact (Hright _ Hr) ].
Qed.

Lemma append_cancel (a b c : string) : (a ++ b)%string = (a ++ c)%string -> b = c.
Proof.
  induction a as [| x a IH]; intros E; [exact E |].
  change (String x (a ++ b) = String x (a ++ c))%string in E.
  injection E as E. exact (IH E).
Qed.

Lemma append_not_longer (a : string) (c : ascii) (x : string) :
  (a ++ String c x)%string <> a.
Proof.
  intros E. rewrite <- (strings_facts.app_empty_r a) in E at 2.
  apply append_cancel in E. discriminate E.
Qed.

(** The three host names of a service are three different texts, except
    that the first two are one text when the identity domain is svc. *)
Lemma keys_distinct (conf : Config) (svc : Service) :
  NoDup (Spec.service_keys conf svc) <-> IstioIdentityDomain conf <> "svc".
Proof.
  rewrite keys_shape, !NoDup_cons, !not_elem_of_cons, !elem_of_nil.
  assert (H12 : (svc_Name svc ++ String "."%char
                   (svc_Namespace svc ++ String "."%char (IstioIdentityDomain conf)))%string =
                (svc_Name svc ++ String "."%char
                   (svc_Namespace svc ++ String "."%char "svc"))%string <->
                IstioIdentityDomain conf = "svc").
  { split; [| intros ->; reflexivity].
    intros E. apply append_cancel in E. injection E as E.
    apply append_cancel in E. injection E as E. exact E. }
  assert (H3 : forall x : string,
            (svc_Name svc ++ String "."%char (svc_Namespace svc ++ String "."%char x))%string <>
            (svc_Name svc ++ String "."%char (svc_Namespace svc))%string).
  { intros x E. apply append_cancel in E. injection E as E.
    exact (append_not_longer _ _ _ E). }
  split.
  - intros ((Hne & _) & _) E. apply Hne, H12, E.
  - intros Hne.
    repeat split;
      first [ apply NoDup_nil_2 | apply H3 | tauto | intros E; apply Hne, H12, E ].
Qed.

Lemma fqdn_twoPart (clusterDomain : string) (svc : Service) :
  fqdn clusterDomain svc <> twoPart svc.
Proof.
  intros E. unfold fqdn, twoPart in E.
  apply append_cancel in E. apply (append_cancel ".") in E.
  exact (append_not_longer (svc_Namespace svc) "."%char clusterDomain E).
Qed.

Lemma shortFqdn_twoPart (svc : Service) : shortFqdn svc <> twoPart svc.
Proof. exact (fqdn_twoPart "svc" svc). Qed.

Lemma fqdn_shortFqdn (clusterDomain : string) (svc : Service) :
  fqdn clusterDomain svc = shortFqdn svc <-> clusterDomain = "svc".
Proof.
  split; [| intros ->; reflexivity].
  intros E. unfold fqdn, shortFqdn in E.
  apply append_cancel in E. apply (append_cancel ".") in E.
  apply append_cancel in E. apply (append_cancel ".") in E. exact E.
Qed.

(** The index of one service holds three keys, or two when the identity
    domain is svc. *)
Lemma single_service_size (conf : Config) (defaultExportTo : list string) (svc : Service) :
  size (entries (NewKubeServiceHosts [svc] conf defaultExportTo)) =
  if decide (IstioIdentityDomain conf = "svc") then 2 else 3.
Proof.
  unfold NewKubeServiceHosts. cbn [fold_left]. unfold register. cbn [entries heap].
  rewrite !map_size_insert, !lookup_insert, !lookup_empty, map_size_empty.
  rewrite (decide_False (P := shortFqdn svc = twoPart svc)) by apply shortFqdn_twoPart.
  rewrite (decide_False (P := fqdn (IstioIdentityDomain conf) svc = twoPart svc))
    by apply fqdn_twoPart.
  destruct (decide (IstioIdentityDomain conf = "svc")) as [E | E].
  - rewrite (decide_True (P := fqdn (IstioIdentityDomain conf) svc = shortFqdn svc))
      by (apply fqdn_shortFqdn; exact E).
    reflexivity.
  - rewrite (decide_False (P := fqdn (IstioIdentityDomain conf) svc = shortFqdn svc))
      by (intros H; apply E, (fqdn_shortFqdn _ svc), H).
    reflexivity.
Qed.

Lemma same_name_same_keys (conf : Config) (s t : Service) :
  svc_Name s = svc_Name t -> svc_Namespace s = svc_Namespace t ->
  Spec.service_keys conf s = Spec.service_keys conf t.
Proof. intros Hn Hns. unfold Spec.service_keys. rewrite Hn, Hns. reflexivity. Qed.

Lemma last_writer_shared (conf : Config) (s : Service) (l : list Service)
    (b : nat) (k1 k2 : string) :
  Spec.dns_named s -> Forall Spec.dns_named l ->
  k1 ∈ Spec.service_keys conf s -> k2 ∈ Spec.service_keys conf s ->
  Spec.last_writer conf k1 l b = Spec.last_writer conf k2 l b.
Proof.
  intros Hs Hl H1 H2. revert b.
  induction Hl as [| t l Ht _ IH]; intros b; cbn [Spec.last_writer]; [reflexivity |].
  rewrite IH.
  assert (Hiff : k1 ∈ Spec.service_keys conf t <-> k2 ∈ Spec.service_keys conf t).
  { split; intros Hk.
    - destruct (keys_collide conf s t k1 Hs Ht H1 Hk) as [Hn Hns].
      rewrite <- (same_name_same_keys conf s t Hn Hns). exact H2.
    - destruct (keys_collide conf s t k2 Hs Ht H2 Hk) as [Hn Hns].
      rewrite <- (same_name_same_keys conf s t Hn Hns). exact H1. }
  rewrite (bool_decide_ext _ _ Hiff). reflexivity.
Qed.

(** With dot-free names, the three host names of every service of the
    input lead to one entry: the one of the last service of the input
    that has the same name and namespace. *)
Lemma shared_entry (conf : Config) (defaultExportTo : list string)
    (services : list Service) (svc : Service) :
  Forall Spec.dns_named services -> svc ∈ services ->
  let h := NewKubeServiceHosts services conf defaultExportTo in
  exists (a : nat) (t : Service),
    (forall k, k ∈ Spec.service_keys conf svc -> entries h !! k = Some a) /\
    heap h !! a = Some (newEntry defaultExportTo t) /\
    t ∈ services /\ svc_Name t = svc_Name svc /\ svc_Namespace t = svc_Namespace svc.
Proof.
  intros Hall Hin h.
  assert (Hsvc : Spec.dns_named svc) by (rewrite Forall_forall in Hall; exact (Hall svc Hin)).
  set (k1 := fqdn (IstioIdentityDomain conf) svc).
  assert (Hk1 : k1 ∈ Spec.service_keys conf svc) by (left).
  destruct (Spec.last_writer conf k1 services 0) as [i |] eqn:E.
  2:{ apply index_facts.last_writer_None in E. rewrite Forall_forall in E.
      exfalso. exact (E svc Hin Hk1). }
  pose proof E as E0.
  apply index_facts.last_writer_Some in E as (pre & t & post & Hl & Hi & Hkt & _).
  cbn in Hi. subst i.
  assert (Ht : t ∈ services) by (rewrite Hl, elem_of_app, elem_of_cons; tauto).
  assert (Htn : Spec.dns_named t) by (rewrite Forall_forall in Hall; exact (Hall t Ht)).
  destruct (keys_collide conf svc t k1 Hsvc Htn Hk1 Hkt) as [Hn Hns].
  exists (List.length pre), t. repeat split; try congruence; try assumption.
  - intros k Hk. subst h. unfold NewKubeServiceHosts.
    rewrite index_facts.fold_entries. cbn [heap List.length].
    rewrite (last_writer_shared conf svc services 0 k k1 Hsvc Hall Hk Hk1), E0.
    reflexivity.
  - subst h. unfold NewKubeServiceHosts. rewrite index_facts.fold_heap.
    cbn [heap app]. rewrite Hl, map_app. cbn [map].
    rewrite lookup_app_r by (rewrite length_map; lia).
    rewrite length_map, Nat.sub_diag. reflexivity.
Qed.

End naming_facts.

Module hosts_facts.
Import api kubernetes Examples.

(** C7, as stated, fails on three kinds of input.  With the identity
    domain svc the fully-qualified and the short name are one text, so a
    service has two keys, not three.  With a dot in a namespace the short
    name of one service is the two-part name of another, and the three
    names of the first no longer lead to one entry.  And when two services
    of the input have the same name and namespace, the names of the first
    lead to the entry of the second, which holds the exportTo list of the
    second. *)
Lemma NewKubeServiceHosts_keys_collide :
  ~ (forall (conf : Config) (defaultExportTo : list string) (svc : Service),
       size (entries (NewKubeServiceHosts [svc] conf defaultExportTo)) = 3) /\
  ~ (forall (services : list Service) (conf : Config) (defaultExportTo : list string)
            (svc : Service),
       svc ∈ services ->
       exists a, forall k, k ∈ Spec.service_keys conf svc ->
         entries (NewKubeServiceHosts services conf defaultExportTo) !! k = Some a) /\
  ~ (forall (services : list Service) (conf : Config) (defaultExportTo : list string)
            (svc : Service) (k : string),
       svc ∈ services -> k ∈ Spec.service_keys conf svc ->
       entry_of (NewKubeServiceHosts services conf defaultExportTo) k =
       Some (newEntry defaultExportTo svc)).
Proof.
  split; [| split].
  - intros H. specialize (H conf_svc [] reviews).
    rewrite naming_facts.single_service_size in H. discriminate H.
  - intros H.
    destruct (H [reviews_dotted; reviews] conf_default [] reviews_dotted) as [a Ha]; [left |].
    pose proof (Ha (fqdn "svc.cluster.local" reviews_dotted)) as H1.
    pose proof (Ha (twoPart reviews_dotted)) as H3.
    assert (E1 : Some 0 = Some a) by (rewrite <- H1; [reflexivity | left]).
    assert (E3 : Some 1 = Some a) by (rewrite <- H3; [reflexivity | right; right; left]).
    congruence.
  - intros H.
    specialize (H [reviews_exported "."; reviews] conf_default [] (reviews_exported ".")
                  "reviews.bookinfo.svc").
    assert (E : entry_of (NewKubeServiceHosts [reviews_exported "."; reviews] conf_default [])
                  "reviews.bookinfo.svc" =
                Some {| exportTo := []; namespace := "bookinfo" |}) by reflexivity.
    rewrite E in H. discriminate H; [left | right; left].
Qed.

(** C7, amended: the index holds exactly the three host names of every
    service: name.namespace.<identityDomain>, name.namespace.svc and
    name.namespace; they are three different keys unless the identity
    domain is svc, which makes the first two one key, so that the index of
    a single service holds three keys, or two under that domain.  Each
    iteration of
    the loop allocates one entry, with the namespace and the exportTo list
    of the service, and stores its address under the three names; only the
    first name depends on the identity domain.  In the finished index, for
    services named as Kubernetes names them (no dot in a name or a
    namespace), the three names of each service lead to one shared entry,
    which carries the namespace of the service; a service whose names are
    not registered again by a later service of the input keeps its own
    entry.  Under another identity domain the short and the two-part names
    are still registered, and the fully-qualified name is formed with the
    new domain.  A service without ports is registered like any other. *)
Theorem NewKubeServiceHosts_three_keys (services : list Service) (conf : Config)
    (defaultExportTo : list string) :
  let h := NewKubeServiceHosts services conf defaultExportTo in
  (forall host,
     HasHost h host = true <->
     exists svc, svc ∈ services /\ host ∈ Spec.service_keys conf svc) /\
  (forall (h0 : KubeServiceHosts) svc,
     let h1 := register (IstioIdentityDomain conf) defaultExportTo h0 svc in
     let a := List.length (heap h0) in
     entries h1 !! fqdn (IstioIdentityDomain conf) svc = Some a /\
     entries h1 !! shortFqdn svc = Some a /\
     entries h1 !! twoPart svc = Some a /\
     heap h1 !! a = Some (newEntry defaultExportTo svc) /\
     namespace (newEntry defaultExportTo svc) = svc_Namespace svc) /\
  (forall conf' svc,
     tail (Spec.service_keys conf' svc) = [shortFqdn svc; twoPart svc]) /\
  (Forall Spec.dns_named services ->
   forall svc, svc ∈ services ->
     exists (a : nat) (e : kubeServiceEntry),
       entries h !! fqdn (IstioIdentityDomain conf) svc = Some a /\
       entries h !! shortFqdn svc = Some a /\
       entries h !! twoPart svc = Some a /\
       heap h !! a = Some e /\
       namespace e = svc_Namespace svc) /\
  (forall pre svc post,
     services = pre ++ svc :: post ->
     Spec.not_overwritten conf svc post ->
     entries h !! fqdn (IstioIdentityDomain conf) svc = Some (List.length pre) /\
     entries h !! shortFqdn svc = Some (List.length pre) /\
     entries h !! twoPart svc = Some (List.length pre) /\
     heap h !! List.length pre =
       Some {| exportTo :=
                 Spec.effective_exportTo (svc_Annotations svc !! ExportToAnnotation)
                   defaultExportTo;
               namespace := svc_Namespace svc |}) /\
  (forall conf' svc,
     svc ∈ services ->
     let h' := NewKubeServiceHosts services conf' defaultExportTo in
     HasHost h' (fqdn (IstioIdentityDomain conf') svc) = true /\
     HasHost h' (shortFqdn svc) = true /\
     HasHost h' (twoPart svc) = true) /\
  (forall svc,
     svc ∈ services -> svc_Ports svc = [] ->
     HasHost h (fqdn (IstioIdentityDomain conf) svc) = true /\
     HasHost h (shortFqdn svc) = true /\
     HasHost h (twoPart svc) = true) /\
  (forall svc,
     (IstioIdentityDomain conf <> "svc" ->
      NoDup [fqdn (IstioIdentityDomain conf) svc; shortFqdn svc; twoPart svc]) /\
     (IstioIdentityDomain conf = "svc" -> fqdn (IstioIdentityDomain conf) svc = shortFqdn svc) /\
     shortFqdn svc <> twoPart svc /\
     fqdn (IstioIdentityDomain conf) svc <> twoPart svc /\
     size (entries (NewKubeServiceHosts [svc] conf defaultExportTo)) =
       if decide (IstioIdentityDomain conf = "svc") then 2 else 3).
Proof.
  intros h.
  assert (Hreg : forall conf' svc, svc ∈ services ->
            let h' := NewKubeServiceHosts services conf' defaultExportTo in
            HasHost h' (fqdn (IstioIdentityDomain conf') svc) = true /\
            HasHost h' (shortFqdn svc) = true /\
            HasHost h' (twoPart svc) = true).
  { intros conf' svc Hin h'. subst h'.
    repeat split; apply index_facts.HasHost_iff; exists svc;
      (split; [exact Hin |]); rewrite index_facts.service_keys_forms, !elem_of_cons; tauto. }
  split; [intros host; apply index_facts.HasHost_iff |].
  split.
  { intros h0 svc h1 a. subst h1 a.
    repeat split;
      try (apply (index_facts.register_stores conf defaultExportTo h0 svc);
           rewrite index_facts.service_keys_forms, !elem_of_cons; tauto).
    - apply (index_facts.register_stores conf defaultExportTo h0 svc (twoPart svc)).
      rewrite index_facts.service_keys_forms, !elem_of_cons; tauto.
    - rewrite index_facts.newEntry_spec. reflexivity. }
  split; [reflexivity |].
  split.
  { intros Hall svc Hin.
    destruct (naming_facts.shared_entry conf defaultExportTo services svc Hall Hin)
      as (a & t & Hk & Hh & _ & _ & Hns).
    exists a, (newEntry defaultExportTo t).
    repeat split; try (apply Hk; rewrite index_facts.service_keys_forms, !elem_of_cons; tauto).
    - exact Hh.
    - rewrite index_facts.newEntry_spec. exact Hns. }
  split.
  { intros pre svc post -> Hpost.
    repeat split;
      try (apply (index_facts.own_entry conf defaultExportTo pre post svc _ Hpost);
           rewrite index_facts.service_keys_forms, !elem_of_cons; tauto).
    rewrite <- index_facts.newEntry_spec.
    apply (index_facts.own_entry conf defaultExportTo pre post svc (twoPart svc) Hpost).
    rewrite index_facts.service_keys_forms, !elem_of_cons; tauto. }
  split; [exact Hreg |].
  split; [intros svc Hin _; exact (Hreg conf svc Hin) |].
  intros svc. split; [| split; [| split; [| split]]].
  - intros Hne. rewrite <- index_facts.service_keys_forms.
    apply naming_facts.keys_distinct. exact Hne.
  - apply naming_facts.fqdn_shortFqdn.
  - apply naming_facts.shortFqdn_twoPart.
  - apply naming_facts.fqdn_twoPart.
  - apply naming_facts.single_service_size.
Qed.

Lemma NewKubeServiceHosts_three_keys_witness :
  let h := NewKubeServiceHosts [reviews; headless] conf_default ["."] in
  (exists (a : nat) (e : kubeServiceEntry),
     entries h !! "reviews.bookinfo.svc.cluster.local" = Some a /\
     entries h !! "reviews.bookinfo.svc" = Some a /\
     entries h !! "reviews.bookinfo" = Some a /\
     heap h !! a = Some e /\ namespace e = "bookinfo") /\
  heap h !! 1 = Some {| exportTo := ["."]; namespace := "bookinfo" |} /\
  HasHost (NewKubeServiceHosts [reviews; headless] conf_custom ["."])
    "reviews.bookinfo.svc" = true /\
  HasHost h "headless.bookinfo.svc.cluster.local" = true /\
  NoDup ["reviews.bookinfo.svc.cluster.local"; "reviews.bookinfo.svc"; "reviews.bookinfo"] /\
  fqdn "svc" reviews = shortFqdn reviews /\
  size (entries (NewKubeServiceHosts [reviews] conf_svc [])) = 2.
Proof.
  intros h.
  destruct (NewKubeServiceHosts_three_keys [reviews; headless] conf_default ["."])
    as (_ & _ & _ & Hshared & Hown & Hdom & Hports & Hdistinct).
  assert (Hin1 : reviews ∈ [reviews; headless]) by (left).
  assert (Hin2 : headless ∈ [reviews; headless]) by (right; left).
  split.
  { assert (Hnamed : Forall Spec.dns_named [reviews; headless])
      by (repeat constructor).
    apply (Hshared Hnamed reviews Hin1). }
  split.
  { apply (Hown [reviews] headless [] eq_refl (Forall_nil_2 _)). }
  split.
  { apply (Hdom conf_custom reviews Hin1). }
  split.
  { apply (Hports headless Hin2 eq_refl). }
  split.
  { apply (proj1 (Hdistinct reviews)). discriminate. }
  destruct (NewKubeServiceHosts_three_keys [reviews] conf_svc [])
    as (_ & _ & _ & _ & _ & _ & _ & Hsvc).
  destruct (Hsvc reviews) as (_ & Hsame & _ & _ & Hsize).
  split; [apply Hsame; reflexivity | exact Hsize].
Defined.

(** C9, as stated, fails when a later service of the input has the same
    name and namespace: the list found in the index under the host names
    of the first service is the list of the later one, not the list of its
    own annotation. *)
Lemma exportTo_of_earlier_service_replaced :
  ~ (forall (services : list Service) (conf : Config) (defaultExportTo : list string)
            (svc : Service) (host annotation : string),
       svc ∈ services -> host ∈ Spec.service_keys conf svc ->
       svc_Annotations svc !! ExportToAnnotation = Some annotation ->
       exists e, entry_of (NewKubeServiceHosts services conf defaultExportTo) host = Some e /\
                 Spec.tokens_of annotation (exportTo e)).
Proof.
  intros H.
  destruct (H [reviews_exported "."; reviews] conf_default [] (reviews_exported ".")
              "reviews.bookinfo.svc" ".") as (e & He & Ht).
  - left.
  - right; left.
  - reflexivity.
  - assert (E : entry_of (NewKubeServiceHosts [reviews_exported "."; reviews] conf_default [])
                  "reviews.bookinfo.svc" =
                Some {| exportTo := []; namespace := "bookinfo" |}) by reflexivity.
    rewrite E in He. injection He as <-.
    apply parse_facts.parse_tokens_of in Ht. discriminate Ht.
Qed.

(** C9, amended: the exportTo list of the entry built and stored for a
    service is the list its annotation stands for when the annotation is
    present (the value cut at commas, each segment without the white space
    at its ends, empty segments dropped, so that an annotation of white
    space and commas gives the empty list, whatever the mesh default), and
    the mesh-wide default only when there is no annotation; with neither,
    the list is empty.  That entry is the one found in the finished index
    under the three host names of the service, unless a later service of
    the input registers one of them again; visibility is decided on its
    list, and an empty list is visible from every namespace. *)
Theorem exportTo_resolution (svc : Service) (defaultExportTo : list string) :
  let stored := exportTo (newEntry defaultExportTo svc) in
  (forall annotation,
     svc_Annotations svc !! ExportToAnnotation = Some annotation ->
     Spec.tokens_of annotation stored) /\
  (svc_Annotations svc !! ExportToAnnotation = None -> stored = defaultExportTo) /\
  (forall annotation tokens,
     parseExportToAnnotation annotation = tokens <-> Spec.tokens_of annotation tokens) /\
  (forall segments,
     Forall Spec.blank segments ->
     parseExportToAnnotation (strings.Join segments ","%char) = []) /\
  (forall annotation,
     svc_Annotations svc !! ExportToAnnotation = Some annotation ->
     Spec.blank annotation -> stored = []) /\
  (svc_Annotations svc !! ExportToAnnotation = None -> defaultExportTo = [] ->
   stored = [] /\
   forall conf pre post host viewer,
     Spec.not_overwritten conf svc post ->
     host ∈ Spec.service_keys conf svc ->
     IsValidForNamespace (NewKubeServiceHosts (pre ++ svc :: post) conf defaultExportTo)
       host viewer = true) /\
  (forall conf (h0 : KubeServiceHosts) host,
     host ∈ Spec.service_keys conf svc ->
     entry_of (register (IstioIdentityDomain conf) defaultExportTo h0 svc) host =
     Some {| exportTo := stored; namespace := svc_Namespace svc |}) /\
  (forall conf pre post host,
     Spec.not_overwritten conf svc post ->
     host ∈ Spec.service_keys conf svc ->
     let h := NewKubeServiceHosts (pre ++ svc :: post) conf defaultExportTo in
     entry_of h host = Some {| exportTo := stored; namespace := svc_Namespace svc |} /\
     (forall viewer,
        IsValidForNamespace h host viewer =
        IsExportedTo stored (svc_Namespace svc) viewer) /\
     (stored = [] -> forall viewer, IsValidForNamespace h host viewer = true)).
Proof.
  intros stored.
  assert (Hnew : newEntry defaultExportTo svc =
                 {| exportTo := stored; namespace := svc_Namespace svc |})
    by (subst stored; rewrite index_facts.newEntry_spec; reflexivity).
  assert (Hfinal : forall conf pre post host,
            Spec.not_overwritten conf svc post ->
            host ∈ Spec.service_keys conf svc ->
            let h := NewKubeServiceHosts (pre ++ svc :: post) conf defaultExportTo in
            entry_of h host =
              Some {| exportTo := stored; namespace := svc_Namespace svc |} /\
            (forall viewer,
               IsValidForNamespace h host viewer =
               IsExportedTo stored (svc_Namespace svc) viewer) /\
            (stored = [] -> forall viewer, IsValidForNamespace h host viewer = true)).
  { intros conf pre post host Hpost Hhost h.
    destruct (index_facts.own_entry conf defaultExportTo pre post svc host Hpost Hhost)
      as [He Hh].
    assert (Hentry : entry_of h host =
                     Some {| exportTo := stored; namespace := svc_Namespace svc |}).
    { unfold entry_of. subst h. rewrite He, Hh, Hnew. reflexivity. }
    split; [exact Hentry |].
    assert (Hvis : forall viewer,
              IsValidForNamespace h host viewer =
              IsExportedTo stored (svc_Namespace svc) viewer).
    { intros viewer. unfold IsValidForNamespace. rewrite Hentry. reflexivity. }
    split; [exact Hvis |].
    intros Hnil viewer. rewrite Hvis, Hnil. reflexivity. }
  assert (Hsome : forall annotation,
            svc_Annotations svc !! ExportToAnnotation = Some annotation ->
            stored = parseExportToAnnotation annotation).
  { intros annotation E. subst stored. unfold newEntry. rewrite E. reflexivity. }
  assert (Hnone : svc_Annotations svc !! ExportToAnnotation = None ->
                  stored = defaultExportTo).
  { intros E. subst stored. unfold newEntry. rewrite E. reflexivity. }
  split.
  { intros annotation E. apply parse_facts.parse_tokens_of. symmetry. exact (Hsome _ E). }
  split; [exact Hnone |].
  split; [exact parse_facts.parse_tokens_of |].
  split; [exact parse_facts.parseExportToAnnotation_blank |].
  split.
  { intros annotation E Hblank. rewrite (Hsome _ E).
    apply (parse_facts.parseExportToAnnotation_blank [annotation]).
    constructor; [exact Hblank | constructor]. }
  split.
  { intros E Hdef.
    assert (Hnil : stored = []) by (rewrite (Hnone E); exact Hdef).
    split; [exact Hnil |].
    intros conf pre post host viewer Hpost Hhost.
    apply (Hfinal conf pre post host Hpost Hhost). exact Hnil. }
  split; [| exact Hfinal].
  intros conf h0 host Hhost.
  destruct (index_facts.register_stores conf defaultExportTo h0 svc host Hhost) as [He Hh].
  unfold entry_of. rewrite He, Hh, Hnew. reflexivity.
Qed.

Lemma exportTo_resolution_witness :
  Spec.tokens_of " . , istio-system " ["."; "istio-system"] /\
  exportTo (newEntry ["."] reviews) = ["."] /\
  parseExportToAnnotation (strings.Join [" "; Spec.utf8 160; ""; Spec.utf8 8232] ","%char) = [] /\
  exportTo (newEntry ["*"] (reviews_exported (Spec.utf8 160 ++ " "))) = [] /\
  (forall viewer,
     IsValidForNamespace (NewKubeServiceHosts [ratings; reviews] conf_default [])
       "reviews.bookinfo" viewer = true) /\
  entry_of (register "svc.cluster.local" [] {| entries := ∅; heap := [] |} reviews)
    "reviews.bookinfo.svc" = Some {| exportTo := []; namespace := "bookinfo" |} /\
  (forall viewer,
     IsValidForNamespace (NewKubeServiceHosts [ratings; reviews_exported "~"] conf_default [])
       "reviews.bookinfo" viewer =
     IsExportedTo ["~"] "bookinfo" viewer).
Proof.
  assert (Hkey : forall svc, svc = reviews \/ svc = reviews_exported "~" ->
                 "reviews.bookinfo" ∈ Spec.service_keys conf_default svc)
    by (intros svc [-> | ->]; right; right; left).
  assert (Hnbsp : Spec.blank (Spec.utf8 160))
    by (exists [160%N]; split; [repeat constructor; compute_done | reflexivity]).
  assert (Hsp : Spec.blank " ")
    by (exists [32%N]; split; [repeat constructor; compute_done | reflexivity]).
  assert (Hls : Spec.blank (Spec.utf8 8232))
    by (exists [8232%N]; split; [repeat constructor; compute_done | reflexivity]).
  assert (Hmixed : Spec.blank (Spec.utf8 160 ++ " "))
    by (exists [160%N; 32%N]; split; [repeat constructor; compute_done | reflexivity]).
  assert (Hempty : Spec.blank "")
    by (exists []; split; [constructor | reflexivity]).
  split.
  { destruct (exportTo_resolution (reviews_exported " . , istio-system ") ["*"])
      as (Hsome & _).
    apply (Hsome " . , istio-system " eq_refl). }
  split.
  { destruct (exportTo_resolution reviews ["."]) as (_ & Hnone & _).
    apply (Hnone eq_refl). }
  split.
  { destruct (exportTo_resolution reviews []) as (_ & _ & _ & Hblank & _).
    apply Hblank. repeat constructor; assumption. }
  split.
  { destruct (exportTo_resolution (reviews_exported (Spec.utf8 160 ++ " ")) ["*"])
      as (_ & _ & _ & _ & Hblank & _).
    apply (Hblank (Spec.utf8 160 ++ " ")%string eq_refl Hmixed). }
  split.
  { destruct (exportTo_resolution reviews []) as (_ & _ & _ & _ & _ & Hboth & _).
    destruct (Hboth eq_refl eq_refl) as [_ Hvis].
    intros viewer.
    apply (Hvis conf_default [ratings] [] "reviews.bookinfo" viewer (Forall_nil_2 _)).
    apply Hkey. left. reflexivity. }
  split.
  { destruct (exportTo_resolution reviews []) as (_ & _ & _ & _ & _ & _ & Hstep & _).
    apply (Hstep conf_default). right; left. }
  destruct (exportTo_resolution (reviews_exported "~") [])
    as (_ & _ & _ & _ & _ & _ & _ & Hfinal).
  destruct (Hfinal conf_default [ratings] [] "reviews.bookinfo" (Forall_nil_2 _))
    as (_ & Hvis & _).
  - apply Hkey. right. reflexivity.
  - exact Hvis.
Defined.

(** The test suite of the index, evaluated. *)
Example KubeServiceHosts_tests :
  let hosts := NewKubeServiceHosts [reviews] conf_default [] in
  let custom := NewKubeServiceHosts [reviews] conf_custom [] in
  let dot := NewKubeServiceHosts [reviews_exported "."] conf_default [] in
  let tilde := NewKubeServiceHosts [reviews_exported "~"] conf_default [] in
  let spaced := NewKubeServiceHosts [reviews_exported " . , istio-system "] conf_default [] in
  let meshdot := NewKubeServiceHosts [reviews] conf_default ["."] in
  let override := NewKubeServiceHosts [reviews_exported "*"] conf_default ["."] in
  HasHost hosts "reviews.bookinfo.svc.cluster.local" = true /\
  HasHost hosts "reviews.bookinfo.svc" = true /\
  HasHost hosts "reviews.bookinfo" = true /\
  HasHost hosts "reviews.other-ns.svc.cluster.local" = false /\
  HasHost custom "reviews.bookinfo.svc.my-custom.domain" = true /\
  HasHost custom "reviews.bookinfo.svc" = true /\
  HasHost custom "reviews.bookinfo" = true /\
  HasHost custom "reviews.bookinfo.svc.cluster.local" = false /\
  IsValidForNamespace hosts "reviews.bookinfo.svc.cluster.local" "other-ns" = true /\
  IsValidForNamespace dot "reviews.bookinfo.svc" "bookinfo" = true /\
  IsValidForNamespace dot "reviews.bookinfo.svc" "other-ns" = false /\
  IsValidForNamespace tilde "reviews.bookinfo.svc.cluster.local" "bookinfo" = false /\
  IsValidForNamespace spaced "reviews.bookinfo.svc.cluster.local" "istio-system" = true /\
  IsValidForNamespace spaced "reviews.bookinfo.svc.cluster.local" "other-ns" = false /\
  IsValidForNamespace meshdot "reviews.bookinfo.svc.cluster.local" "other-ns" = false /\
  IsValidForNamespace override "reviews.bookinfo.svc.cluster.local" "other-ns" = true /\
  IsValidForNamespace hosts "nonexistent.bookinfo.svc.cluster.local" "bookinfo" = false.
Proof. vm_compute. repeat split; reflexivity. Qed.

End hosts_facts.

(** ** PeerAuthentication scans and the workload status *)

Module policy_facts.
Import api kubernetes mtls Examples.

Lemma PeerAuthnMTLSMode_mode (p : PeerAuthentication) :
  (PeerAuthnMTLSMode p).2 = Spec.policy_mode p.
Proof. unfold PeerAuthnMTLSMode, Spec.policy_mode. destruct (pa_Mtls p); reflexivity. Qed.

Lemma selector_guard (sel : WorkloadSelector) :
  (0 <=? len_map (MatchLabels sel))%nat = true.
Proof. apply Nat.leb_le. lia. Qed.

Lemma PeerAuthnHasMTLSEnabled_cases (p : PeerAuthentication) :
  PeerAuthnHasMTLSEnabled p =
  match pa_Selector p with
  | Some _ => (false, "")
  | None => PeerAuthnMTLSMode p
  end.
Proof.
  unfold PeerAuthnHasMTLSEnabled. destruct (pa_Selector p) as [sel |]; [| reflexivity].
  rewrite selector_guard. reflexivity.
Qed.

Lemma mesh_loop_is_namespace_loop (pas : list PeerAuthentication) :
  hasPeerAuthnMeshTLSDefinition_loop pas = hasPeerAuthnNamespacemTLSDefinition_loop pas.
Proof. induction pas as [| p pas IH]; cbn; [| rewrite IH]; reflexivity. Qed.

Lemma namespace_loop_skips (pas : list PeerAuthentication) :
  hasPeerAuthnNamespacemTLSDefinition_loop pas =
  hasPeerAuthnNamespacemTLSDefinition_loop (filter Spec.no_selector pas).
Proof.
  induction pas as [| p pas IH]; [reflexivity |].
  rewrite filter_cons.
  cbn [hasPeerAuthnNamespacemTLSDefinition_loop].
  destruct (decide (Spec.no_selector p)) as [Hp | Hp].
  - cbn [hasPeerAuthnNamespacemTLSDefinition_loop]. rewrite IH. reflexivity.
  - rewrite PeerAuthnHasMTLSEnabled_cases. unfold Spec.no_selector in Hp.
    destruct (pa_Selector p); [exact IH | contradiction].
Qed.

Lemma namespace_loop_first_mode (pas : list PeerAuthentication) :
  Forall Spec.no_selector pas ->
  hasPeerAuthnNamespacemTLSDefinition_loop pas = Spec.first_mode pas.
Proof.
  unfold Spec.first_mode.
  induction 1 as [| p pas Hp _ IH]; [reflexivity |].
  cbn [hasPeerAuthnNamespacemTLSDefinition_loop map].
  rewrite PeerAuthnHasMTLSEnabled_cases, Hp, PeerAuthnMTLSMode_mode, filter_cons.
  destruct (String.eqb_spec (Spec.policy_mode p) "") as [E | E]; cbn [negb].
  - rewrite decide_False by (intros H; exact (H E)). exact IH.
  - rewrite decide_True by exact E. reflexivity.
Qed.

Lemma namespace_loop_spec (pas : list PeerAuthentication) :
  hasPeerAuthnNamespacemTLSDefinition_loop pas =
  Spec.first_mode (filter Spec.no_selector pas).
Proof.
  rewrite namespace_loop_skips. apply namespace_loop_first_mode.
  apply Forall_forall. intros p Hp. apply list_elem_of_filter in Hp as [Hp _]. exact Hp.
Qed.

(** C3, as stated, fails: a STRICT policy that has a selector gives the
    namespace an empty paStatus, while the first non-empty mode of the
    list, read without looking at selectors, is STRICT. *)
Lemma namespace_paStatus_consults_selector :
  ~ (forall (m : MtlsStatus) (namespace : string) (conf : Config),
       PeerAuthenticationStatus (NamespaceMtlsStatus m namespace conf) =
       Spec.first_mode (PeerAuthentications m)).
Proof.
  intros H. specialize (H m_selector_strict "bookinfo" conf_default).
  vm_compute in H. discriminate H.
Qed.

(** C3, amended: the namespace-level paStatus is the mode of the first
    policy of the list that has no selector and whose mode is not empty;
    policies with a selector are passed over; when no policy without
    selector has a mode, paStatus is empty. *)
Theorem namespace_paStatus_first_mode (m : MtlsStatus) (namespace : string) (conf : Config) :
  PeerAuthenticationStatus (NamespaceMtlsStatus m namespace conf) =
    Spec.first_mode (filter Spec.no_selector (PeerAuthentications m)) /\
  hasPeerAuthnNamespacemTLSDefinition m =
    Spec.first_mode (filter Spec.no_selector (PeerAuthentications m)) /\
  (Spec.first_mode (filter Spec.no_selector (PeerAuthentications m)) = "" <->
   forall p, p ∈ PeerAuthentications m -> Spec.no_selector p -> Spec.policy_mode p = "").
Proof.
  assert (H : hasPeerAuthnNamespacemTLSDefinition m =
              Spec.first_mode (filter Spec.no_selector (PeerAuthentications m)))
    by apply namespace_loop_spec.
  split; [exact H |]. split; [exact H |]. clear H.
  unfold Spec.first_mode.
  induction (PeerAuthentications m) as [| p pas IH].
  - split; [intros _ p Hp; inversion Hp | reflexivity].
  - rewrite filter_cons. destruct (decide (Spec.no_selector p)) as [Hp | Hp].
    + cbn [map]. rewrite filter_cons.
      destruct (decide (Spec.policy_mode p <> "")) as [Hm | Hm].
      * cbn. split; [intros E; contradiction |].
        intros Hall. apply Hall; [left | exact Hp].
      * rewrite IH. split.
        -- intros Hall q Hq Hsel. apply elem_of_cons in Hq as [-> | Hq].
           ++ destruct (String.eqb_spec (Spec.policy_mode p) ""); [assumption | contradiction].
           ++ exact (Hall q Hq Hsel).
        -- intros Hall q Hq. apply Hall. right. exact Hq.
    + rewrite IH. split.
      * intros Hall q Hq Hsel. apply elem_of_cons in Hq as [-> | Hq];
          [contradiction | exact (Hall q Hq Hsel)].
      * intros Hall q Hq. apply Hall. right. exact Hq.
Qed.

Lemma namespace_paStatus_first_mode_witness :
  PeerAuthenticationStatus (NamespaceMtlsStatus m_selector_strict "bookinfo" conf_default) = "" /\
  PeerAuthenticationStatus (NamespaceMtlsStatus namespace_example "bookinfo" conf_default) =
    "STRICT".
Proof.
  split.
  - rewrite (proj1 (namespace_paStatus_first_mode m_selector_strict "bookinfo" conf_default)).
    apply (proj2 (proj2 (namespace_paStatus_first_mode m_selector_strict "bookinfo"
                           conf_default))).
    intros p Hp Hsel. apply elem_of_cons in Hp as [-> | Hp]; [| inversion Hp].
    discriminate Hsel.
  - rewrite (proj1 (namespace_paStatus_first_mode namespace_example "bookinfo" conf_default)).
    reflexivity.
Defined.

(** C4: [PeerAuthnHasMTLSEnabled] answers the empty mode for every policy
    whose selector is not nil, whatever its label map (nil and empty
    included) and whatever its mTLS mode, because the length test that
    accompanies the nil test always holds; hence the namespace scan and
    the mesh scan give the same result on a list and on that list without
    its selector-bearing policies, and the empty result when every policy
    has a selector. *)
Theorem PeerAuthnHasMTLSEnabled_ignores_selected (p : PeerAuthentication) (m : MtlsStatus) :
  (forall sel : WorkloadSelector, (0 <=? len_map (MatchLabels sel))%nat = true) /\
  (pa_Selector p <> None -> PeerAuthnHasMTLSEnabled p = (false, "")) /\
  hasPeerAuthnNamespacemTLSDefinition m =
    hasPeerAuthnNamespacemTLSDefinition
      (Spec.with_policies m (filter Spec.no_selector (PeerAuthentications m))) /\
  hasPeerAuthnMeshTLSDefinition m =
    hasPeerAuthnMeshTLSDefinition
      (Spec.with_policies m (filter Spec.no_selector (PeerAuthentications m))) /\
  (Forall (fun q => pa_Selector q <> None) (PeerAuthentications m) ->
   hasPeerAuthnNamespacemTLSDefinition m = "" /\ hasPeerAuthnMeshTLSDefinition m = "").
Proof.
  split; [exact selector_guard |].
  split.
  { intros Hsel. rewrite PeerAuthnHasMTLSEnabled_cases.
    destruct (pa_Selector p); [reflexivity | contradiction]. }
  split; [apply namespace_loop_skips |].
  split.
  { unfold hasPeerAuthnMeshTLSDefinition. rewrite !mesh_loop_is_namespace_loop.
    apply namespace_loop_skips. }
  intros Hall.
  assert (Hns : hasPeerAuthnNamespacemTLSDefinition m = "").
  { unfold hasPeerAuthnNamespacemTLSDefinition.
    induction Hall as [| q pas Hq _ IH]; [reflexivity |].
    cbn [hasPeerAuthnNamespacemTLSDefinition_loop].
    rewrite PeerAuthnHasMTLSEnabled_cases.
    destruct (pa_Selector q); [exact IH | contradiction]. }
  split; [exact Hns |].
  unfold hasPeerAuthnMeshTLSDefinition. rewrite mesh_loop_is_namespace_loop. exact Hns.
Qed.

Lemma PeerAuthnHasMTLSEnabled_ignores_selected_witness :
  PeerAuthnHasMTLSEnabled (peerAuthnWithSelector "pa" "bookinfo" None PA_STRICT) = (false, "") /\
  hasPeerAuthnNamespacemTLSDefinition m_selector_strict = "" /\
  hasPeerAuthnMeshTLSDefinition m_selector_strict = "".
Proof.
  split.
  - apply (PeerAuthnHasMTLSEnabled_ignores_selected
             (peerAuthnWithSelector "pa" "bookinfo" None PA_STRICT) m_selector_strict).
    discriminate.
  - apply (PeerAuthnHasMTLSEnabled_ignores_selected (pa_reviews PA_STRICT) m_selector_strict).
    repeat constructor. discriminate.
Defined.

End policy_facts.

Module workload_facts.
Import api kubernetes mtls Examples.

(** The selector of the labels package is the sub-map test. *)
Lemma Matches_subseteq (sel ls : gmap string string) :
  labels.Matches sel ls = true <-> sel ⊆ ls.
Proof.
  unfold labels.Matches. rewrite forallb_forall, map_subseteq_spec. split.
  - intros H k v Hkv.
    specialize (H (k, v)). cbn in H. rewrite bool_decide_eq_true in H. apply H.
    apply list_elem_of_In, elem_of_map_to_list. exact Hkv.
  - intros H [k v] Hin. cbn. rewrite bool_decide_eq_true. apply H.
    apply elem_of_map_to_list, list_elem_of_In. exact Hin.
Qed.

Lemma underspecified_len (p : PeerAuthentication) :
  Spec.underspecified p = true <->
  pa_Selector p = None \/
  exists sel, pa_Selector p = Some sel /\ len_map (MatchLabels sel) = 0.
Proof.
  unfold Spec.underspecified. destruct (pa_Selector p) as [sel |].
  - destruct (MatchLabels sel) as [l |] eqn:Hl.
    + rewrite bool_decide_eq_true. split.
      * intros ->. right. exists sel. rewrite Hl. split; [reflexivity | apply map_size_empty].
      * intros [H | [sel' [[= <-] Hlen]]]; [discriminate |].
        rewrite Hl in Hlen. apply map_size_empty_iff. exact Hlen.
    + split; [intros _ | reflexivity]. right. exists sel. rewrite Hl. split; reflexivity.
  - split; [intros _; left; reflexivity | reflexivity].
Qed.

Lemma underspecified_never_selects (p : PeerAuthentication) (ls : gmap string string) :
  Spec.underspecified p = true -> ~ Spec.selects p ls.
Proof.
  unfold Spec.underspecified. intros Hu (sel & l & Hsel & Hl & Hne & _).
  rewrite Hsel, Hl in Hu. rewrite bool_decide_eq_true in Hu. contradiction.
Qed.

Section Workload.
Variable Filter : list DestinationRule -> string -> string -> Config -> list DestinationRule.

Lemma services_loop_ext (m m' : MtlsStatus) (namespace : string) (conf : Config)
    (selector : gmap string string) (svcs : list Service) :
  DestinationRules m = DestinationRules m' ->
  WorkloadMtlsStatus_services Filter m namespace conf selector svcs =
  WorkloadMtlsStatus_services Filter m' namespace conf selector svcs.
Proof.
  intros Hdr. induction svcs as [| svc svcs IH]; cbn [WorkloadMtlsStatus_services];
    [reflexivity |].
  rewrite Hdr, IH. reflexivity.
Qed.

Lemma loop_ext (m m' : MtlsStatus) (namespace : string) (conf : Config)
    (pas : list PeerAuthentication) :
  DestinationRules m = DestinationRules m' ->
  MatchingLabels m = MatchingLabels m' ->
  Services m = Services m' ->
  WorkloadMtlsStatus_loop Filter m namespace conf pas =
  WorkloadMtlsStatus_loop Filter m' namespace conf pas.
Proof.
  intros Hdr Hml Hsv. induction pas as [| pa pas IH]; cbn [WorkloadMtlsStatus_loop];
    [reflexivity |].
  rewrite IH, Hdr, Hml, Hsv.
  destruct (pa_Selector pa) as [sel |]; [| reflexivity].
  rewrite (services_loop_ext m m' namespace conf _ _ Hdr). reflexivity.
Qed.

(** One iteration on a policy that does not select the workload goes
    on to the next policy. *)
Lemma loop_skip (m : MtlsStatus) (namespace : string) (conf : Config)
    (pa : PeerAuthentication) (pas : list PeerAuthentication) :
  ~ Spec.selects pa (MatchingLabels m) ->
  WorkloadMtlsStatus_loop Filter m namespace conf (pa :: pas) =
  WorkloadMtlsStatus_loop Filter m namespace conf pas.
Proof.
  intros Hns. cbn [WorkloadMtlsStatus_loop].
  destruct (pa_Selector pa) as [sel |] eqn:Hsel; [| reflexivity].
  destruct (Nat.eqb_spec (len_map (MatchLabels sel)) 0) as [Hz | Hnz]; [reflexivity |].
  destruct (MatchLabels sel) as [l |] eqn:Hl; [| cbn in Hnz; contradiction].
  change (default ∅ (Some l)) with l.
  destruct (labels.Matches l (MatchingLabels m)) eqn:Hm; [| reflexivity].
  exfalso. apply Hns. exists sel, l. repeat split; try assumption.
  - intros ->. apply Hnz. cbn. apply map_size_empty.
  - apply Matches_subseteq. exact Hm.
Qed.

Lemma loop_filter (m : MtlsStatus) (namespace : string) (conf : Config)
    (pas : list PeerAuthentication) :
  WorkloadMtlsStatus_loop Filter m namespace conf pas =
  WorkloadMtlsStatus_loop Filter m namespace conf
    (filter (fun p => Spec.underspecified p = false) pas).
Proof.
  induction pas as [| pa pas IH]; [reflexivity |].
  rewrite filter_cons. destruct (decide (Spec.underspecified pa = false)) as [Hu | Hu].
  - cbn [WorkloadMtlsStatus_loop]. rewrite IH. reflexivity.
  - rewrite loop_skip; [exact IH |].
    apply underspecified_never_selects. destruct (Spec.underspecified pa); congruence.
Qed.

(** C5: a PeerAuthentication whose selector is nil, or whose selector
    has a nil or empty label map, selects no workload and is passed
    over: the workload status of a list of policies is the status of
    the list without them.  When no policy of the list selects the
    labels of the workload, the status is NOT_ENABLED. *)
Theorem WorkloadMtlsStatus_skips_underspecified (m : MtlsStatus)
    (namespace : string) (conf : Config) :
  (forall p,
     Spec.underspecified p = true <->
     pa_Selector p = None \/
     exists sel, pa_Selector p = Some sel /\ len_map (MatchLabels sel) = 0) /\
  (forall p ls, Spec.underspecified p = true -> ~ Spec.selects p ls) /\
  WorkloadMtlsStatus Filter m namespace conf =
    WorkloadMtlsStatus Filter
      (Spec.with_policies m
         (filter (fun p => Spec.underspecified p = false) (PeerAuthentications m)))
      namespace conf /\
  ((forall p, p ∈ PeerAuthentications m -> ~ Spec.selects p (MatchingLabels m)) ->
   WorkloadMtlsStatus Filter m namespace conf = MTLSNotEnabled) /\
  (Forall (fun p => Spec.underspecified p = true) (PeerAuthentications m) ->
   WorkloadMtlsStatus Filter m namespace conf = MTLSNotEnabled).
Proof.
  assert (Hnone : forall pas,
            (forall p, p ∈ pas -> ~ Spec.selects p (MatchingLabels m)) ->
            WorkloadMtlsStatus_loop Filter m namespace conf pas = MTLSNotEnabled).
  { induction pas as [| pa pas IH]; intros Hall; [reflexivity |].
    rewrite loop_skip by (apply Hall; left).
    apply IH. intros p Hp. apply Hall. right. exact Hp. }
  split; [exact underspecified_len |].
  split; [exact underspecified_never_selects |].
  split.
  { unfold WorkloadMtlsStatus. cbn [Spec.with_policies PeerAuthentications].
    rewrite loop_filter. apply loop_ext; reflexivity. }
  split; [apply Hnone |].
  intros Hall. apply Hnone. intros p Hp.
  apply underspecified_never_selects.
  rewrite Forall_forall in Hall. exact (Hall p Hp).
Qed.

End Workload.

Lemma WorkloadMtlsStatus_skips_underspecified_witness :
  WorkloadMtlsStatus filter_by_host
    (workload_example [peerAuthnWithSelector "pa-expressions" "bookinfo" None PA_STRICT;
                       peerAuthnNoSelector "pa-mesh" "istio-system" PA_STRICT;
                       peerAuthnWithSelector "pa-empty" "bookinfo" (Some ∅) PA_STRICT]
       [] [reviews])
    "bookinfo" conf_default = MTLSNotEnabled /\
  WorkloadMtlsStatus filter_by_host
    (workload_example [peerAuthnWithSelector "pa1" "bookinfo"
                         (Some {["app" := "ratings"]}) PA_STRICT] [] [])
    "bookinfo" conf_default = MTLSNotEnabled /\
  ~ Spec.selects (peerAuthnWithSelector "pa-empty" "bookinfo" (Some ∅) PA_STRICT)
      {["app" := "reviews"]}.
Proof.
  split; [| split].
  - eapply (proj2 (proj2 (proj2 (proj2
             (WorkloadMtlsStatus_skips_underspecified filter_by_host _ _ _))))).
    repeat constructor.
  - eapply (proj1 (proj2 (proj2 (proj2
             (WorkloadMtlsStatus_skips_underspecified filter_by_host _ _ _))))).
    intros p Hp (sel & l & Hsel & Hl & _ & Hsub).
    apply elem_of_cons in Hp as [-> | Hp]; [| inversion Hp].
    injection Hsel as <-. injection Hl as <-.
    change (({["app" := "ratings"]} : gmap string string) ⊆ {["app" := "reviews"]}) in Hsub.
    rewrite map_subseteq_spec in Hsub.
    specialize (Hsub "app" "ratings" (lookup_singleton_eq _ _)).
    rewrite lookup_singleton_eq in Hsub. discriminate Hsub.
  - apply (proj1 (proj2
             (WorkloadMtlsStatus_skips_underspecified filter_by_host
                (workload_example [] [] []) "bookinfo" conf_default))).
    reflexivity.
Defined.

(** The tests of the workload status, evaluated. *)
Example WorkloadMtlsStatus_tests :
  let dr mode := destinationRuleWithMTLS "dr1" "bookinfo"
                   "reviews.bookinfo.svc.cluster.local" mode in
  WorkloadMtlsStatus filter_by_host (workload_example [pa_reviews PA_STRICT] [] [])
    "bookinfo" conf_default = MTLSEnabled /\
  WorkloadMtlsStatus filter_by_host (workload_example [pa_reviews PA_DISABLE] [] [])
    "bookinfo" conf_default = MTLSDisabled /\
  WorkloadMtlsStatus filter_by_host
    (workload_example [pa_reviews PA_PERMISSIVE] [dr TLS_ISTIO_MUTUAL] [reviews])
    "bookinfo" conf_default = MTLSEnabled /\
  WorkloadMtlsStatus filter_by_host
    (workload_example [pa_reviews PA_PERMISSIVE] [dr TLS_MUTUAL] [reviews])
    "bookinfo" conf_default = MTLSEnabled /\
  WorkloadMtlsStatus filter_by_host
    (workload_example [pa_reviews PA_PERMISSIVE] [] [reviews])
    "bookinfo" conf_default = MTLSNotEnabled /\
  WorkloadMtlsStatus filter_by_host
    (workload_example [pa_reviews PA_PERMISSIVE] [dr TLS_DISABLE] [reviews])
    "bookinfo" conf_default = MTLSDisabled /\
  WorkloadMtlsStatus filter_by_host
    (workload_example [pa_reviews PA_PERMISSIVE] [dr TLS_ISTIO_MUTUAL] [headless])
    "bookinfo" conf_default = MTLSNotEnabled.
Proof. vm_compute. repeat split; reflexivity. Qed.

End workload_facts.

(** ** Port names and protocols (kubernetes/istio.go) *)

Module port_facts.
Import api kubernetes.

Lemma ToLower_length (s : string) :
  String.length (strings.ToLower s) = String.length s.
Proof. induction s as [| c s IH]; cbn; [reflexivity | rewrite IH; reflexivity]. Qed.

Lemma portProtocols_lower :
  Forall (fun p => strings.ToLower p = p) portProtocols.
Proof. repeat constructor. Qed.

Lemma app_inv_head (a b c : string) : (a ++ b)%string = (a ++ c)%string -> b = c.
Proof.
  induction a as [| x a IH]; cbn; intros E; [exact E |].
  injection E as E. exact (IH E).
Qed.

(** One protocol of the loop: the name is the protocol, or the protocol,
    a dash and any text. *)
Lemma valid_protocol_test (portName protocol : string) :
  strings.ToLower protocol = protocol ->
  strings.HasPrefix portName protocol &&
    (String.eqb (strings.ToLower portName) protocol ||
     regexp.MatchString portNameMatcher
       (strings.slice_from (String.length protocol) portName)) = true <->
  portName = protocol \/ exists suffix, portName = (protocol ++ "-" ++ suffix)%string.
Proof.
  intros Hlow. rewrite andb_true_iff, orb_true_iff, strings_facts.HasPrefix_spec,
    String.eqb_eq, regexp_facts.portNameMatcher_spec. split.
  - intros [[r ->] [Hl | [r' Hr]]].
    + left. apply (f_equal String.length) in Hl.
      rewrite ToLower_length, strings_facts.length_app in Hl.
      destruct r; [apply strings_facts.app_empty_r | cbn in Hl; lia].
    + right. rewrite strings_facts.slice_from_app in Hr. subst r.
      exists r'. reflexivity.
  - intros [-> | [suffix ->]].
    + split; [exists ""%string; symmetry; apply strings_facts.app_empty_r |].
      left. exact Hlow.
    + split; [eexists; reflexivity |]. right.
      rewrite strings_facts.slice_from_app. exists suffix. reflexivity.
Qed.

Lemma valid_protocols_loop_spec (portName : string) (protocols : list string) :
  Forall (fun p => strings.ToLower p = p) protocols ->
  MatchPortNameWithValidProtocols_loop portName protocols = true <->
  exists protocol, protocol ∈ protocols /\
    (portName = protocol \/ exists suffix, portName = (protocol ++ "-" ++ suffix)%string).
Proof.
  induction 1 as [| p l Hp _ IH]; cbn [MatchPortNameWithValidProtocols_loop].
  - split; [discriminate | intros (q & Hq & _); inversion Hq].
  - pose proof (valid_protocol_test portName p Hp) as Htest.
    destruct (strings.HasPrefix portName p && _) eqn:E.
    + split; [intros _ | reflexivity]. exists p. split; [left | apply Htest; reflexivity].
    + rewrite IH. split.
      * intros (q & Hq & Hm). exists q. split; [right; exact Hq | exact Hm].
      * intros (q & Hq & Hm). apply elem_of_cons in Hq as [-> | Hq].
        -- apply Htest in Hm. discriminate Hm.
        -- exists q. split; assumption.
Qed.

(** A port name is accepted by [MatchPortNameWithValidProtocols] exactly
    when it is one of the listed protocols, written in lower case, or one of
    them followed by a dash and any text (the empty text included).  The name
    is compared as it is: the lower-casing of the name in the code never lets
    an upper-case name through. *)
Theorem MatchPortNameWithValidProtocols_spec (portName : string) :
  MatchPortNameWithValidProtocols portName = true <->
  exists protocol, protocol ∈ portProtocols /\
    (portName = protocol \/ exists suffix, portName = (protocol ++ "-" ++ suffix)%string).
Proof. apply valid_protocols_loop_spec, portProtocols_lower. Qed.

(** Every name accepted by [MatchPortNameWithValidProtocols] passes
    [MatchPortNameRule] for one of the listed protocols; conversely a name
    that passes the rule for a listed protocol other than tcp and udp is
    accepted.  For tcp and udp the rule accepts every name, the list test
    only the names that start with the protocol. *)
Theorem valid_protocols_agree_with_rule (portName : string) :
  (MatchPortNameWithValidProtocols portName = true ->
   exists protocol, protocol ∈ portProtocols /\ MatchPortNameRule portName protocol = true) /\
  (forall protocol,
     protocol ∈ portProtocols -> protocol <> "tcp" -> protocol <> "udp" ->
     MatchPortNameRule portName protocol = true ->
     MatchPortNameWithValidProtocols portName = true) /\
  (MatchPortNameRule "metrics" "tcp" = true /\
   MatchPortNameWithValidProtocols "metrics" = false).
Proof.
  assert (Hlow : forall p, p ∈ portProtocols -> strings.ToLower p = p).
  { intros p Hp. pose proof portProtocols_lower as H. rewrite Forall_forall in H.
    exact (H p Hp). }
  split; [| split].
  - unfold MatchPortNameWithValidProtocols.
    rewrite (valid_protocols_loop_spec _ _ portProtocols_lower). intros (p & Hp & Hm).
    exists p. split; [exact Hp |].
    apply kubernetes_facts.MatchPortNameRule_spec. cbn zeta. rewrite (Hlow p Hp). tauto.
  - intros p Hp Htcp Hudp Hrule.
    apply kubernetes_facts.MatchPortNameRule_spec in Hrule. cbn zeta in Hrule.
    rewrite (Hlow p Hp) in Hrule.
    apply (valid_protocols_loop_spec _ _ portProtocols_lower).
    exists p. split; [exact Hp | tauto].
  - split; reflexivity.
Qed.

Lemma valid_protocols_agree_with_rule_witness :
  (exists protocol, protocol ∈ portProtocols /\ MatchPortNameRule "grpc-web" protocol = true) /\
  MatchPortNameWithValidProtocols "http-" = true.
Proof.
  split.
  - apply (proj1 (valid_protocols_agree_with_rule "grpc-web")). reflexivity.
  - apply (proj1 (proj2 (valid_protocols_agree_with_rule "http-")) "http").
    + right; right; left.
    + discriminate.
    + discriminate.
    + reflexivity.
Defined.

Lemma lower_byte_idempotent (c : ascii) :
  strings.lower_byte (strings.lower_byte c) = strings.lower_byte c.
Proof.
  destruct c as [[] [] [] [] [] [] [] []]; reflexivity.
Qed.

Lemma lower_byte_ascii (c : ascii) :
  (nat_of_ascii c <? 128)%nat = true ->
  (nat_of_ascii (strings.lower_byte c) <? 128)%nat = true.
Proof.
  destruct c as [[] [] [] [] [] [] [] []]; intros H; try discriminate H; reflexivity.
Qed.

Lemma ToLower_ascii (s : string) :
  Spec.ascii_text s = true -> Spec.ascii_text (strings.ToLower s) = true.
Proof.
  unfold Spec.ascii_text. induction s as [| c s IH]; [reflexivity |].
  cbn [strings.ToLower list_ascii_of_string forallb].
  rewrite !andb_true_iff. intros [Hc Hs].
  split; [apply lower_byte_ascii, Hc | apply IH, Hs].
Qed.

Lemma ToLower_idempotent (s : string) :
  strings.ToLower (strings.ToLower s) = strings.ToLower s.
Proof.
  induction s as [| c s IH]; cbn [strings.ToLower]; [reflexivity |].
  rewrite lower_byte_idempotent, IH. reflexivity.
Qed.

(** For a protocol written in ASCII, [MatchPortNameRule] accepts every
    name when the protocol is tcp or udp in any case, and otherwise exactly
    the lower-cased protocol itself or the lower-cased protocol followed by
    a dash and any text, the empty text included.  The protocol is compared
    without regard to case, the name as it is: an upper-case name is
    refused even for an upper-case protocol. *)
Theorem MatchPortNameRule_accepts (portName protocol : string) :
  (Spec.ascii_text protocol = true ->
   (MatchPortNameRule portName protocol = true <->
    strings.ToLower protocol = "tcp" \/ strings.ToLower protocol = "udp" \/
    portName = strings.ToLower protocol \/
    exists suffix, portName = (strings.ToLower protocol ++ "-" ++ suffix)%string) /\
   Spec.ascii_text (strings.ToLower protocol) = true /\
   MatchPortNameRule portName (strings.ToLower protocol) =
     MatchPortNameRule portName protocol) /\
  (MatchPortNameRule "HTTP-api" "HTTP" = false /\ MatchPortNameRule "http-api" "HTTP" = true).
Proof.
  split; [| split; reflexivity].
  intros Hascii.
  split; [apply kubernetes_facts.MatchPortNameRule_spec |].
  split; [apply ToLower_ascii; exact Hascii |].
  unfold MatchPortNameRule. rewrite ToLower_idempotent. reflexivity.
Qed.

Lemma MatchPortNameRule_accepts_witness :
  MatchPortNameRule "grpc-web" "gRPC" = true /\
  MatchPortNameRule "anything" "TCP" = true.
Proof.
  split.
  - apply (proj1 (proj1 (MatchPortNameRule_accepts "grpc-web" "gRPC") eq_refl)).
    right; right; right. exists "web". reflexivity.
  - apply (proj1 (proj1 (MatchPortNameRule_accepts "anything" "TCP") eq_refl)).
    left. reflexivity.
Defined.

Lemma app_protocol_loop_spec (a : string) (protocols : list string) :
  MatchPortAppProtocolWithValidProtocols_loop a protocols = true <->
  strings.ToLower a ∈ protocols.
Proof.
  induction protocols as [| p l IH]; cbn [MatchPortAppProtocolWithValidProtocols_loop].
  - split; [discriminate | intros H; inversion H].
  - rewrite elem_of_cons. destruct (String.eqb_spec (strings.ToLower a) p) as [E | E].
    + split; [intros _; left; exact E | reflexivity].
    + rewrite IH. split; [intros H; right; exact H | intros [H | H]; [contradiction | exact H]].
Qed.

(** For an application protocol written in ASCII,
    [MatchPortAppProtocolWithValidProtocols] answers true exactly when the
    lower-cased text is one of the listed protocols; nil and the empty text
    give false. *)
Theorem MatchPortAppProtocolWithValidProtocols_spec (appProtocol : option string) :
  MatchPortAppProtocolWithValidProtocols None = false /\
  MatchPortAppProtocolWithValidProtocols (Some "") = false /\
  ((forall a, appProtocol = Some a -> Spec.ascii_text a = true) ->
   (MatchPortAppProtocolWithValidProtocols appProtocol = true <->
    exists a, appProtocol = Some a /\ strings.ToLower a ∈ portProtocols)).
Proof.
  split; [reflexivity |]. split; [reflexivity |]. intros _.
  unfold MatchPortAppProtocolWithValidProtocols.
  destruct appProtocol as [a |].
  - destruct (String.eqb_spec a "") as [-> | Hne].
    + split; [discriminate |]. intros (a & [= <-] & Hin).
      cbn in Hin. exfalso. revert Hin. unfold portProtocols.
      rewrite !elem_of_cons, elem_of_nil. intros H.
      repeat (destruct H as [H | H]; [discriminate H |]). exact H.
    + rewrite app_protocol_loop_spec. split.
      * intros H. exists a. split; [reflexivity | exact H].
      * intros (b & [= <-] & H). exact H.
  - split; [discriminate | intros (a & H & _); discriminate H].
Qed.

Lemma MatchPortAppProtocolWithValidProtocols_spec_witness :
  MatchPortAppProtocolWithValidProtocols (Some "gRPC-Web") = true.
Proof.
  apply (proj2 (proj2 (MatchPortAppProtocolWithValidProtocols_spec (Some "gRPC-Web")))).
  - intros a [= <-]. reflexivity.
  - exists "gRPC-Web". split; [reflexivity |].
    unfold portProtocols. rewrite !elem_of_cons. cbn. tauto.
Defined.

Example app_protocol_examples :
  MatchPortAppProtocolWithValidProtocols (Some "HTTP2") = true /\
  MatchPortAppProtocolWithValidProtocols (Some "gRPC-Web") = true /\
  MatchPortAppProtocolWithValidProtocols (Some "kafka") = false /\
  MatchPortNameWithValidProtocols "HTTP" = false /\
  MatchPortNameWithValidProtocols "http2-foo" = true /\
  ValidatePort None = false.
Proof. repeat split; reflexivity. Qed.

End port_facts.

Module hostnames_facts.
Import api kubernetes.

Lemma mapPort_range (proto : string) :
  mapPortToVirtualServiceProtocol proto ∈ ["http"; "tls"; "tcp"].
Proof.
  unfold mapPortToVirtualServiceProtocol.
  destruct (_ || _); [left |]. destruct (_ || _); [right; left | right; right; left].
Qed.

Lemma prepend_fold (occ : list (list string)) (v : option (list string)) :
  fold_left (fun v P => Some (P ++ default [] v)) occ v =
  match occ with
  | [] => v
  | _ :: _ => Some (concat (rev occ) ++ default [] v)
  end.
Proof.
  revert v. induction occ as [| P occ IH]; intros v; [reflexivity |].
  cbn [fold_left]. rewrite IH. cbn [rev]. rewrite concat_app. cbn [concat].
  rewrite app_nil_r. destruct occ as [| Q occ].
  - reflexivity.
  - cbn [default]. rewrite <- app_assoc. reflexivity.
Qed.

Lemma hosts_fold_lookup (P : list string) (hosts : list string)
    (m : gmap string (list string)) (host : string) :
  fold_left (ServiceEntryHostnames_host P) hosts m !! host =
  fold_left (fun v P => Some (P ++ default [] v))
    (flat_map (fun h => if decide (h = host) then [P] else []) hosts) (m !! host).
Proof.
  revert m. induction hosts as [| h hosts IH]; intros m; [reflexivity |].
  cbn [fold_left flat_map]. rewrite IH, fold_left_app.
  unfold ServiceEntryHostnames_host. rewrite lookup_insert.
  destruct (decide (h = host)) as [-> | Hne]; reflexivity.
Qed.

Lemma entries_fold_lookup (ses : list ServiceEntry) (m : gmap string (list string))
    (host : string) :
  fold_left ServiceEntryHostnames_entry ses m !! host =
  fold_left (fun v P => Some (P ++ default [] v)) (Spec.host_occurrences host ses) (m !! host).
Proof.
  revert m. induction ses as [| se ses IH]; intros m; [reflexivity |].
  cbn [fold_left]. rewrite IH. unfold Spec.host_occurrences. cbn [flat_map].
  rewrite fold_left_app. f_equal.
  unfold ServiceEntryHostnames_entry. apply hosts_fold_lookup.
Qed.

(** [ServiceEntryHostnames] holds a key exactly for the hosts that occur in
    some entry.  The list under a host is made of the protocol lists of its
    occurrences, the latest occurrence first, and contains only http, tls
    and tcp; a host of entries without ports is a key with an empty list. *)
Theorem ServiceEntryHostnames_spec (serviceEntries : list ServiceEntry) (host : string) :
  ServiceEntryHostnames serviceEntries !! host =
    match Spec.host_occurrences host serviceEntries with
    | [] => None
    | occ => Some (concat (rev occ))
    end /\
  (is_Some (ServiceEntryHostnames serviceEntries !! host) <->
   exists se, se ∈ serviceEntries /\ host ∈ se_Hosts se) /\
  (forall protocols p,
     ServiceEntryHostnames serviceEntries !! host = Some protocols ->
     p ∈ protocols -> p ∈ ["http"; "tls"; "tcp"]).
Proof.
  assert (Hval : ServiceEntryHostnames serviceEntries !! host =
                 match Spec.host_occurrences host serviceEntries with
                 | [] => None
                 | occ => Some (concat (rev occ))
                 end).
  { unfold ServiceEntryHostnames. rewrite entries_fold_lookup, prepend_fold, lookup_empty.
    destruct (Spec.host_occurrences host serviceEntries); [reflexivity |].
    cbn [default]. rewrite app_nil_r. reflexivity. }
  assert (Hocc : forall P, P ∈ Spec.host_occurrences host serviceEntries <->
                 exists se, se ∈ serviceEntries /\ host ∈ se_Hosts se /\
                            P = Spec.entry_protocols se).
  { intros P. unfold Spec.host_occurrences. rewrite list_elem_of_In, in_flat_map. split.
    - intros (se & Hse & Hin). apply in_flat_map in Hin as (h & Hh & Hin).
      destruct (decide (h = host)) as [-> | Hne]; [| inversion Hin].
      destruct Hin as [<- | []]. exists se.
      repeat split; [apply list_elem_of_In; exact Hse | apply list_elem_of_In; exact Hh].
    - intros (se & Hse & Hh & ->). exists se. split; [apply list_elem_of_In; exact Hse |].
      apply in_flat_map. exists host. split; [apply list_elem_of_In; exact Hh |].
      rewrite decide_True by reflexivity. left. reflexivity. }
  split; [exact Hval |]. split.
  - rewrite Hval. split.
    + intros Hsome. destruct (Spec.host_occurrences host serviceEntries) as [| P occ] eqn:E.
      * destruct Hsome as [x Hx]. discriminate Hx.
      * destruct (proj1 (Hocc P)) as (se & Hse & Hh & _); [left |].
        exists se. split; assumption.
    + intros (se & Hse & Hh).
      assert (Hin : Spec.entry_protocols se ∈ Spec.host_occurrences host serviceEntries)
        by (apply Hocc; exists se; repeat split; assumption).
      destruct (Spec.host_occurrences host serviceEntries); [inversion Hin | eexists; reflexivity].
  - intros protocols p Hsome Hp. rewrite Hval in Hsome.
    destruct (Spec.host_occurrences host serviceEntries) as [| P occ] eqn:E; [discriminate |].
    injection Hsome as <-.
    apply list_elem_of_In, in_concat in Hp as (Q & HQ & Hp).
    change (In Q (rev (P :: occ))) in HQ.
    rewrite <- in_rev in HQ. apply list_elem_of_In in HQ.
    apply Hocc in HQ as (se & _ & _ & ->).
    unfold Spec.entry_protocols in Hp. apply in_map_iff in Hp as (port & <- & _).
    apply mapPort_range.
Qed.

Lemma ServiceEntryHostnames_spec_witness :
  "tcp" ∈ ["http"; "tls"; "tcp"].
Proof.
  apply (proj2 (proj2 (ServiceEntryHostnames_spec
           [{| se_Name := "ext"; se_Namespace := "bookinfo";
               se_Hosts := ["external-api.example.com"];
               se_Ports := [{| iport_Number := 80%Z; iport_Protocol := "HTTP";
                               iport_Name := "http" |};
                            {| iport_Number := 9000%Z; iport_Protocol := "mongo";
                               iport_Name := "db" |}] |}]
           "external-api.example.com")) ["http"; "tcp"] "tcp" eq_refl).
  right; left.
Defined.

Example ServiceEntryHostnames_prepends :
  let se name protos :=
    {| se_Name := name; se_Namespace := "bookinfo"; se_Hosts := ["a.example.com"; "b.example.com"];
       se_Ports := map (fun pr => {| iport_Number := 80%Z; iport_Protocol := pr;
                                     iport_Name := "p" |}) protos |} in
  let hn := ServiceEntryHostnames [se "one" ["HTTP"; "TLS"]; se "two" ["http"]; se "three" []] in
  hn !! "a.example.com" = Some ["tcp"; "http"; "tls"] /\
  hn !! "c.example.com" = None /\
  ServiceEntryHostnames [se "three" []] !! "b.example.com" = Some [].
Proof. vm_compute. repeat split; reflexivity. Qed.

End hostnames_facts.

(** ** The host index as a whole (kubernetes/istio.go) *)

Module visibility_facts.
Import api kubernetes.

Lemma last_writer_last_service (conf : Config) (host : string) (l : list Service) (b : nat) :
  match Spec.last_writer conf host l b with
  | Some i => b <= i /\ i < b + List.length l /\
              l !! (i - b) = Spec.last_service conf host l /\
              is_Some (Spec.last_service conf host l)
  | None => Spec.last_service conf host l = None
  end.
Proof.
  unfold Spec.last_service.
  destruct (Spec.last_writer conf host l b) as [i |] eqn:E.
  - apply index_facts.last_writer_Some in E as (pre & svc & post & -> & -> & Hk & Hpost).
    assert (Hf : filter (fun t => host ∈ Spec.service_keys conf t) post = []).
    { clear -Hpost. induction Hpost as [| t post Ht _ IH]; [reflexivity |].
      rewrite filter_cons_False by exact Ht. exact IH. }
    rewrite filter_app, filter_cons_True, Hf, last_snoc by exact Hk.
    rewrite length_app. cbn [List.length].
    replace (b + List.length pre - b) with (List.length pre) by lia.
    repeat split; try lia.
    + rewrite lookup_app_r by lia. rewrite Nat.sub_diag. reflexivity.
    + eexists; reflexivity.
  - apply index_facts.last_writer_None in E. apply last_None.
    induction E as [| t l Ht _ IH]; [reflexivity |].
    rewrite filter_cons_False by exact Ht. exact IH.
Qed.

Lemma built_index_answers (services : list Service) (conf : Config)
    (defaultExportTo : list string) (host : string) :
  let h := NewKubeServiceHosts services conf defaultExportTo in
  entry_of h host = newEntry defaultExportTo <$> Spec.last_service conf host services /\
  HasHost h host = bool_decide (is_Some (Spec.last_service conf host services)) /\
  (forall viewer,
     IsValidForNamespace h host viewer =
     match Spec.last_service conf host services with
     | Some svc =>
         IsExportedTo (exportTo (newEntry defaultExportTo svc)) (svc_Namespace svc) viewer
     | None => false
     end).
Proof.
  intros h.
  assert (Hentries : entries h !! host = Spec.last_writer conf host services 0).
  { subst h. unfold NewKubeServiceHosts. rewrite index_facts.fold_entries.
    cbn [heap entries List.length]. rewrite lookup_empty.
    destruct (Spec.last_writer conf host services 0); reflexivity. }
  assert (Hheap : heap h = map (newEntry defaultExportTo) services).
  { subst h. unfold NewKubeServiceHosts. rewrite index_facts.fold_heap. reflexivity. }
  pose proof (last_writer_last_service conf host services 0) as Hlw.
  assert (Hentry : entry_of h host =
                   newEntry defaultExportTo <$> Spec.last_service conf host services).
  { unfold entry_of. rewrite Hentries.
    destruct (Spec.last_writer conf host services 0) as [i |].
    - destruct Hlw as (_ & _ & Hl & _). rewrite Nat.sub_0_r in Hl.
      rewrite Hheap, list_lookup_fmap, Hl. reflexivity.
    - rewrite Hlw. reflexivity. }
  split; [exact Hentry |]. split.
  - unfold HasHost. rewrite Hentries.
    destruct (Spec.last_writer conf host services 0) as [i |].
    + destruct Hlw as (_ & _ & _ & Hs). symmetry. apply bool_decide_eq_true_2. exact Hs.
    + rewrite Hlw. symmetry. apply bool_decide_eq_false_2. intros [x Hx]. discriminate Hx.
  - intros viewer. unfold IsValidForNamespace. rewrite Hentry.
    destruct (Spec.last_service conf host services) as [svc |]; [| reflexivity].
    cbn [fmap option_fmap option_map]. rewrite index_facts.newEntry_spec. reflexivity.
Qed.

(** What the finished index answers for a host name: the entry built for
    the last service of the input that has this name among its three host
    names, and nothing when no service has it.  In particular no address
    stored in the map is dangling, and visibility is decided on the
    exportTo list of that last service. *)
Theorem entry_of_last_service (services : list Service) (conf : Config)
    (defaultExportTo : list string) (host : string) :
  let h := NewKubeServiceHosts services conf defaultExportTo in
  entry_of h host = newEntry defaultExportTo <$> Spec.last_service conf host services /\
  HasHost h host = bool_decide (is_Some (Spec.last_service conf host services)) /\
  (forall viewer,
     IsValidForNamespace h host viewer =
     match Spec.last_service conf host services with
     | Some svc =>
         IsExportedTo (exportTo (newEntry defaultExportTo svc)) (svc_Namespace svc) viewer
     | None => false
     end).
Proof.
  intros h.
  destruct (built_index_answers services conf defaultExportTo host) as (H1 & H2 & H3).
  split; [exact H1 |]. split; [exact H2 | exact H3].
Qed.

(** A host name that is visible from some namespace is a registered host
    name, in any index; in a built index a name that is none of the three
    host names of any service is not registered and visible from nowhere;
    the index of an empty input holds nothing. *)
Theorem unregistered_host_invisible (services : list Service) (conf : Config)
    (defaultExportTo : list string) (host : string) :
  (forall (h : KubeServiceHosts) viewer,
     IsValidForNamespace h host viewer = true -> HasHost h host = true) /\
  ((forall svc, svc ∈ services -> host ∉ Spec.service_keys conf svc) ->
   HasHost (NewKubeServiceHosts services conf defaultExportTo) host = false /\
   forall viewer,
     IsValidForNamespace (NewKubeServiceHosts services conf defaultExportTo) host viewer
     = false) /\
  (HasHost (NewKubeServiceHosts [] conf defaultExportTo) host = false).
Proof.
  split; [| split].
  - intros h viewer. unfold IsValidForNamespace, entry_of, HasHost.
    destruct (entries h !! host); [reflexivity | discriminate].
  - intros Hnone.
    assert (Hh : HasHost (NewKubeServiceHosts services conf defaultExportTo) host = false).
    { apply not_true_iff_false. rewrite index_facts.HasHost_iff.
      intros (svc & Hin & Hk). exact (Hnone svc Hin Hk). }
    split; [exact Hh |]. intros viewer.
    unfold IsValidForNamespace, entry_of. unfold HasHost in Hh.
    destruct (entries _ !! host); [discriminate | reflexivity].
  - reflexivity.
Qed.

Lemma unregistered_host_invisible_witness :
  HasHost (NewKubeServiceHosts [Examples.reviews] Examples.conf_default [])
    "reviews.other-ns.svc.cluster.local" = false /\
  HasHost (NewKubeServiceHosts [Examples.reviews_exported "."] Examples.conf_default [])
    "reviews.bookinfo" = true.
Proof.
  split.
  - apply (proj1 (proj2 (unregistered_host_invisible [Examples.reviews]
                           Examples.conf_default [] "reviews.other-ns.svc.cluster.local"))).
    intros svc Hin Hk. apply elem_of_cons in Hin as [-> | Hin]; [| inversion Hin].
    revert Hk. unfold Spec.service_keys. rewrite !elem_of_cons, elem_of_nil.
    intros [H | [H | [H | []]]]; discriminate H.
  - apply (proj1 (unregistered_host_invisible [] Examples.conf_default [] "reviews.bookinfo")
             _ "bookinfo").
    reflexivity.
Defined.

Lemma register_size (D : string) (defaultExportTo : list string)
    (h : KubeServiceHosts) (svc : Service) :
  size (entries (register D defaultExportTo h svc)) <= size (entries h) + 3.
Proof.
  unfold register. cbn [entries].
  assert (Hins : forall (m : gmap string nat) k a, size (<[k := a]> m) <= S (size m)).
  { intros m k a. rewrite map_size_insert. destruct (m !! k); cbn; lia. }
  pose proof (Hins (<[shortFqdn svc := List.length (heap h)]>
                      (<[fqdn D svc := List.length (heap h)]> (entries h)))
                (twoPart svc) (List.length (heap h))) as H3.
  pose proof (Hins (<[fqdn D svc := List.length (heap h)]> (entries h))
                (shortFqdn svc) (List.length (heap h))) as H2.
  pose proof (Hins (entries h) (fqdn D svc) (List.length (heap h))) as H1.
  lia.
Qed.

(** The built index allocates exactly one entry per service of the input,
    holds at most three host names per service, and every address found in
    the map is the address of an allocated entry. *)
Theorem NewKubeServiceHosts_bounds (services : list Service) (conf : Config)
    (defaultExportTo : list string) :
  let h := NewKubeServiceHosts services conf defaultExportTo in
  List.length (heap h) = List.length services /\
  size (entries h) <= 3 * List.length services /\
  (forall host a, entries h !! host = Some a -> a < List.length (heap h)).
Proof.
  intros h. subst h. unfold NewKubeServiceHosts.
  assert (Hlen : forall l h0,
            List.length (heap (fold_left (register (IstioIdentityDomain conf) defaultExportTo)
                                 l h0)) = List.length (heap h0) + List.length l).
  { intros l h0. rewrite index_facts.fold_heap, length_app, length_map. reflexivity. }
  assert (Hsize : forall l h0,
            size (entries (fold_left (register (IstioIdentityDomain conf) defaultExportTo)
                             l h0)) <= size (entries h0) + 3 * List.length l).
  { induction l as [| svc l IH]; intros h0; cbn [fold_left List.length]; [lia |].
    pose proof (IH (register (IstioIdentityDomain conf) defaultExportTo h0 svc)) as H1.
    pose proof (register_size (IstioIdentityDomain conf) defaultExportTo h0 svc) as H2.
    lia. }
  split; [rewrite Hlen; reflexivity |]. split.
  - pose proof (Hsize services {| entries := ∅; heap := [] |}) as H.
    cbn [entries] in H. rewrite map_size_empty in H. lia.
  - intros host a Ha. rewrite Hlen. cbn [heap List.length].
    rewrite index_facts.fold_entries in Ha. cbn [heap entries List.length] in Ha.
    pose proof (last_writer_last_service conf host services 0) as Hlw.
    destruct (Spec.last_writer conf host services 0) as [i |].
    + injection Ha as <-. lia.
    + rewrite lookup_empty in Ha. discriminate Ha.
Qed.

Lemma NewKubeServiceHosts_bounds_witness :
  0 < List.length
        (heap (NewKubeServiceHosts [Examples.reviews; Examples.headless]
                 Examples.conf_default [])).
Proof.
  apply (proj2 (proj2 (NewKubeServiceHosts_bounds [Examples.reviews; Examples.headless]
                         Examples.conf_default [])) "reviews.bookinfo.svc" 0).
  reflexivity.
Defined.

(** When no service carries the exportTo annotation and the mesh default
    is empty (as with [KubeServiceFQDNs]), every registered host name is
    visible from every namespace: visibility and registration coincide. *)
Theorem unannotated_services_visible_everywhere (services : list Service) (conf : Config) :
  (forall svc, svc ∈ services -> svc_Annotations svc !! ExportToAnnotation = None) ->
  forall host viewer,
    IsValidForNamespace (KubeServiceFQDNs services conf) host viewer =
    HasHost (KubeServiceFQDNs services conf) host.
Proof.
  intros Hnone host viewer. unfold KubeServiceFQDNs.
  destruct (built_index_answers services conf [] host) as (_ & Hhas & Hvis).
  rewrite Hhas, Hvis.
  destruct (Spec.last_service conf host services) as [svc |] eqn:E.
  - assert (Hin : svc ∈ services).
    { unfold Spec.last_service in E. apply last_Some_elem_of in E.
      apply list_elem_of_filter in E as [_ E]. exact E. }
    rewrite index_facts.newEntry_spec, (Hnone svc Hin). reflexivity.
  - reflexivity.
Qed.

Lemma unannotated_services_visible_everywhere_witness :
  IsValidForNamespace (KubeServiceFQDNs [Examples.reviews; Examples.ratings]
                         Examples.conf_default) "ratings.bookinfo.svc" "other-ns" =
  HasHost (KubeServiceFQDNs [Examples.reviews; Examples.ratings] Examples.conf_default)
    "ratings.bookinfo.svc".
Proof.
  apply (unannotated_services_visible_everywhere [Examples.reviews; Examples.ratings]
           Examples.conf_default).
  intros svc Hin.
  apply elem_of_cons in Hin as [-> | Hin]; [reflexivity |].
  apply elem_of_cons in Hin as [-> | Hin]; [reflexivity | inversion Hin].
Defined.

End visibility_facts.

(** ** The exportTo annotation and token lists (kubernetes/istio.go) *)

Module annotation_facts.
Import strings kubernetes.

(** Every token returned by [parseExportToAnnotation] is non-empty, holds
    no comma and neither starts nor ends with a white space rune of
    Unicode; the tokens are those the annotation stands for: its segments
    between commas, each without the white space at its two ends, the empty
    ones dropped, in the order of the annotation. *)
Theorem parseExportToAnnotation_clean (annotation : string) :
  Forall Spec.clean_token (parseExportToAnnotation annotation) /\
  (forall tokens,
     parseExportToAnnotation annotation = tokens <-> Spec.tokens_of annotation tokens) /\
  (forall segment,
     Spec.trimmed segment (TrimSpace segment) /\
     (TrimSpace segment = "" <-> Spec.blank segment)) /\
  Join (Split annotation ","%char) ","%char = annotation.
Proof.
  split; [apply parse_facts.tokens_clean |]. split; [| split].
  - intros tokens. apply parse_facts.parse_tokens_of.
  - intros segment. split;
      [apply trim_facts.TrimSpace_trimmed | apply trim_facts.TrimSpace_empty_iff].
  - apply parse_facts.Join_Split.
Qed.

(** An annotation written as clean tokens joined by commas is read back as
    those tokens, in the same order; hence parsing, joining and parsing again
    changes nothing. *)
Theorem parseExportToAnnotation_Join (tokens : list string) (annotation : string) :
  (Forall Spec.clean_token tokens ->
   parseExportToAnnotation (Join tokens ","%char) = tokens) /\
  parseExportToAnnotation (Join (parseExportToAnnotation annotation) ","%char) =
    parseExportToAnnotation annotation.
Proof.
  split; [apply parse_facts.parse_Join_clean |].
  apply parse_facts.parse_Join_clean, parse_facts.tokens_clean.
Qed.

Lemma parseExportToAnnotation_Join_witness :
  parseExportToAnnotation (Join ["."; "istio-system"] ","%char) = ["."; "istio-system"].
Proof.
  apply (proj1 (parseExportToAnnotation_Join ["."; "istio-system"] "")).
  assert (Hlead : forall t : string,
            strip_rune space_encodings (list_ascii_of_string t) = None ->
            ~ Spec.leading_space t)
    by (intros t; apply trim_facts.leading_space_strip).
  assert (Htrail : forall t : string,
            strip_rune (map (@rev ascii) space_encodings)
              (rev (list_ascii_of_string t)) = None ->
            ~ Spec.trailing_space t)
    by (intros t; apply trim_facts.trailing_space_strip).
  repeat constructor; first [discriminate | apply Hlead; reflexivity | apply Htrail; reflexivity].
Defined.

(** A token that starts or ends with a white space rune beyond ASCII is
    not clean, and is not read back as it is. *)
Example no_break_space_is_trimmed :
  ~ Spec.clean_token (Spec.utf8 160) /\
  parseExportToAnnotation (Join [Spec.utf8 160] ","%char) = [].
Proof.
  split; [| reflexivity].
  intros (_ & _ & Hlead & _). apply Hlead. exists 160%N, "".
  split; [compute_done | reflexivity].
Qed.

End annotation_facts.

Module token_facts.
Import api kubernetes.

Lemma IsExportedTo_true_iff (l : list string) (rns vns : string) :
  IsExportedTo l rns vns = true <->
  l = [] \/ exists token, token ∈ l /\ Spec.token_matches token rns vns.
Proof.
  unfold IsExportedTo. destruct l as [| e l].
  - cbn. split; [intros _; left; reflexivity | reflexivity].
  - cbn [List.length Nat.eqb]. rewrite exportTo_facts.IsExportedTo_loop_spec.
    split; [intros H; right; exact H | intros [H | H]; [discriminate | exact H]].
Qed.

(** Visibility depends on the tokens of the list only, not on their order
    nor on repetitions: two lists with the same tokens give the same
    answer. *)
Theorem IsExportedTo_same_tokens (l l' : list string) (resourceNamespace viewerNamespace : string) :
  (forall token, token ∈ l <-> token ∈ l') ->
  IsExportedTo l resourceNamespace viewerNamespace =
  IsExportedTo l' resourceNamespace viewerNamespace.
Proof.
  intros Hsame. apply eq_true_iff_eq. rewrite !IsExportedTo_true_iff.
  assert (Hnil : l = [] <-> l' = []).
  { split; intros ->.
    - destruct l' as [| x l']; [reflexivity |].
      exfalso. apply (elem_of_nil x), Hsame. left.
    - destruct l as [| x l]; [reflexivity |].
      exfalso. apply (elem_of_nil x), Hsame. left. }
  rewrite Hnil. split; (intros [H | (t & Ht & Hm)]; [left; exact H | right; exists t]);
    (split; [apply Hsame; exact Ht | exact Hm]).
Qed.

Lemma IsExportedTo_same_tokens_witness :
  IsExportedTo ["."; "istio-system"; "."] "bookinfo" "other-ns" =
  IsExportedTo ["istio-system"; "."] "bookinfo" "other-ns".
Proof.
  apply IsExportedTo_same_tokens. intros token.
  rewrite !elem_of_cons, elem_of_nil. tauto.
Defined.

(** Joining two non-empty token lists gives the union of what each makes
    visible, so adding tokens to a non-empty list never hides a resource.
    The empty list is the exception: it is visible from everywhere, and
    adding a token to it can hide the resource. *)
Theorem IsExportedTo_app (l1 l2 : list string) (resourceNamespace viewerNamespace : string) :
  (l1 <> [] -> l2 <> [] ->
   IsExportedTo (l1 ++ l2) resourceNamespace viewerNamespace =
   IsExportedTo l1 resourceNamespace viewerNamespace ||
   IsExportedTo l2 resourceNamespace viewerNamespace) /\
  (l1 <> [] -> IsExportedTo l1 resourceNamespace viewerNamespace = true ->
   IsExportedTo (l1 ++ l2) resourceNamespace viewerNamespace = true) /\
  (IsExportedTo [] resourceNamespace viewerNamespace = true /\
   IsExportedTo ([] ++ ["~"]) resourceNamespace viewerNamespace = false).
Proof.
  split; [| split].
  - intros H1 H2. apply eq_true_iff_eq.
    rewrite orb_true_iff, !IsExportedTo_true_iff. split.
    + intros [H | (t & Ht & Hm)].
      * apply app_eq_nil in H as [H _]. contradiction.
      * apply elem_of_app in Ht as [Ht | Ht]; [left | right]; right; exists t; tauto.
    + intros [[H | (t & Ht & Hm)] | [H | (t & Ht & Hm)]]; try contradiction;
        right; exists t; (split; [apply elem_of_app; tauto | exact Hm]).
  - intros H1 Hv. apply IsExportedTo_true_iff.
    apply IsExportedTo_true_iff in Hv as [H | (t & Ht & Hm)]; [contradiction |].
    right. exists t. split; [apply elem_of_app; left; exact Ht | exact Hm].
  - split; reflexivity.
Qed.

Lemma IsExportedTo_app_witness :
  IsExportedTo (["."] ++ ["istio-system"]) "bookinfo" "istio-system" =
  IsExportedTo ["."] "bookinfo" "istio-system" ||
  IsExportedTo ["istio-system"] "bookinfo" "istio-system".
Proof.
  apply (proj1 (IsExportedTo_app ["."] ["istio-system"] "bookinfo" "istio-system"));
    discriminate.
Defined.

(** The token [~] contributes nothing: a list made of [~] tokens only is
    visible from no namespace, and removing the [~] tokens from a list does
    not change the answer as long as a token remains.  When none remains the
    answer flips from hidden to visible everywhere. *)
Theorem IsExportedTo_tilde (l : list string) (resourceNamespace viewerNamespace : string) :
  (l <> [] -> Forall (fun t => t = "~") l ->
   IsExportedTo l resourceNamespace viewerNamespace = false) /\
  (filter (fun t => t <> "~") l <> [] ->
   IsExportedTo (filter (fun t => t <> "~") l) resourceNamespace viewerNamespace =
   IsExportedTo l resourceNamespace viewerNamespace) /\
  (l <> [] -> filter (fun t => t <> "~") l = [] ->
   IsExportedTo l resourceNamespace viewerNamespace = false /\
   IsExportedTo (filter (fun t => t <> "~") l) resourceNamespace viewerNamespace = true).
Proof.
  assert (Hall : l <> [] -> Forall (fun t => t = "~") l ->
                 IsExportedTo l resourceNamespace viewerNamespace = false).
  { intros Hne Hl. apply not_true_iff_false. rewrite IsExportedTo_true_iff.
    intros [H | (t & Ht & Hm)]; [contradiction |].
    rewrite Forall_forall in Hl. rewrite (Hl t Ht) in Hm. exact Hm. }
  split; [exact Hall |]. split.
  - intros Hne. apply eq_true_iff_eq. rewrite !IsExportedTo_true_iff. split.
    + intros [H | (t & Ht & Hm)]; [contradiction |].
      apply list_elem_of_filter in Ht as [_ Ht]. right. exists t. split; assumption.
    + intros [-> | (t & Ht & Hm)]; [left; reflexivity |].
      right. exists t. split; [| exact Hm].
      apply list_elem_of_filter. split; [| exact Ht].
      intros ->. exact Hm.
  - intros Hne Hf. split; [| rewrite Hf; reflexivity].
    apply Hall; [exact Hne |]. apply Forall_forall. intros t Ht.
    destruct (decide (t = "~")) as [E | E]; [exact E |].
    exfalso. apply (filter_nil_not_elem_of _ _ t Hf E Ht).
Qed.

Lemma IsExportedTo_tilde_witness :
  IsExportedTo ["~"; "~"] "bookinfo" "bookinfo" = false /\
  IsExportedTo (filter (fun t => t <> "~") ["~"; "."]) "bookinfo" "other-ns" =
  IsExportedTo ["~"; "."] "bookinfo" "other-ns" /\
  IsExportedTo (filter (fun t => t <> "~") ["~"]) "bookinfo" "other-ns" = true.
Proof.
  split; [| split].
  - apply (proj1 (IsExportedTo_tilde ["~"; "~"] "bookinfo" "bookinfo"));
      [discriminate | repeat constructor].
  - apply (proj1 (proj2 (IsExportedTo_tilde ["~"; "."] "bookinfo" "other-ns"))).
    discriminate.
  - apply (proj2 (proj2 (IsExportedTo_tilde ["~"] "bookinfo" "other-ns")));
      [discriminate | reflexivity].
Defined.

End token_facts.

Module references_facts.
Import api kubernetes references.

Section Host.
Variable Host : Type.
Variable Host_String : Host -> string.
Variable Host_Service : Host -> string.
Variable Host_Namespace : Host -> string.

(** [getServiceReferences] returns at most one reference, the service and
    namespace of the host, and returns it exactly when the host name is
    visible from the namespace of the item; for a host name the index does
    not hold it returns nothing, whatever the namespace. *)
Theorem getServiceReferences_spec (hosts : KubeServiceHosts) (host : Host)
    (itemNamespace : string) :
  List.length (getServiceReferences Host Host_String Host_Service Host_Namespace
                 hosts host itemNamespace) <= 1 /\
  (forall ref,
     ref ∈ getServiceReferences Host Host_String Host_Service Host_Namespace
             hosts host itemNamespace <->
     IsValidForNamespace hosts (Host_String host) itemNamespace = true /\
     ref = {| ref_Name := Host_Service host; ref_Namespace := Host_Namespace host |}) /\
  (HasHost hosts (Host_String host) = false ->
   getServiceReferences Host Host_String Host_Service Host_Namespace
     hosts host itemNamespace = []).
Proof.
  unfold getServiceReferences. split; [| split].
  - destruct (IsValidForNamespace _ _ _); cbn; lia.
  - intros ref. destruct (IsValidForNamespace _ _ _); cbn [app].
    + rewrite list_elem_of_singleton. tauto.
    + rewrite elem_of_nil. split; [contradiction | intros [H _]; discriminate H].
  - intros Hh. unfold IsValidForNamespace, entry_of. unfold HasHost in Hh.
    destruct (entries hosts !! Host_String host); [discriminate | reflexivity].
Qed.

End Host.

Lemma getServiceReferences_spec_witness :
  getServiceReferences string (fun s => s) (fun _ => "reviews") (fun _ => "bookinfo")
    (NewKubeServiceHosts [Examples.reviews] Examples.conf_default [])
    "reviews.default" "bookinfo" = [].
Proof.
  apply (getServiceReferences_spec string (fun s => s) (fun _ => "reviews")
           (fun _ => "bookinfo")).
  reflexivity.
Defined.

End references_facts.

(** ** Mode readers, scans and the mesh status (istio.go, status.go) *)

Module scan_facts.
Import api kubernetes mtls.

(** [PeerAuthnHasStrictMTLS] holds exactly for a policy without selector
    whose mTLS mode is STRICT; a STRICT policy with a selector, even one
    with a nil or empty label map, is not counted. *)
Theorem PeerAuthnHasStrictMTLS_spec (p : PeerAuthentication) :
  PeerAuthnHasStrictMTLS p = true <->
  pa_Selector p = None /\ pa_Mtls p = Some PA_STRICT.
Proof.
  unfold PeerAuthnHasStrictMTLS. rewrite policy_facts.PeerAuthnHasMTLSEnabled_cases.
  destruct (pa_Selector p) as [sel |].
  - cbn. split; [discriminate | intros [H _]; discriminate H].
  - unfold PeerAuthnMTLSMode. destruct (pa_Mtls p) as [[] |]; cbn;
      split; try discriminate; try (intros [_ H]; discriminate H); intros _; split; reflexivity.
Qed.

Lemma rule_for_host (expectedHost : string) (dr : DestinationRule) :
  expectedHost <> "" ->
  (DestinationRuleHasMTLSEnabledForHost expectedHost dr).2 =
  if decide (dr_Host dr = expectedHost) then Spec.rule_mode dr else "".
Proof.
  intros Hne. unfold DestinationRuleHasMTLSEnabledForHost.
  destruct (String.eqb_spec (dr_Host dr) "") as [E | E]; cbn [orb].
  - rewrite decide_False by congruence. reflexivity.
  - destruct (String.eqb_spec (dr_Host dr) expectedHost) as [E' | E']; cbn [negb].
    + rewrite decide_True by exact E'. unfold DestinationRuleHasMTLSEnabled, Spec.rule_mode.
      destruct (dr_TrafficPolicy dr) as [tp |]; [| reflexivity].
      destruct (Tls tp); reflexivity.
    + rewrite decide_False by exact E'. reflexivity.
Qed.

Lemma first_rule_mode_cons (host : string) (dr : DestinationRule) (drs : list DestinationRule) :
  Spec.first_rule_mode host (dr :: drs) =
  let mode := if decide (dr_Host dr = host) then Spec.rule_mode dr else "" in
  if negb (String.eqb mode "") then mode else Spec.first_rule_mode host drs.
Proof.
  unfold Spec.first_rule_mode. rewrite filter_cons. cbn zeta.
  destruct (decide (dr_Host dr = host)) as [E | E]; [| reflexivity].
  cbn [map]. rewrite filter_cons.
  destruct (String.eqb_spec (Spec.rule_mode dr) "") as [E' | E']; cbn [negb].
  - rewrite decide_False by (intros H; exact (H E')). reflexivity.
  - rewrite decide_True by exact E'. reflexivity.
Qed.

Lemma namespace_host_not_empty (namespace domain : string) :
  ("*." ++ namespace ++ "." ++ domain)%string <> "".
Proof. discriminate. Qed.

(** The namespace scan of the destination rules returns the mode of the
    first rule whose host is [*.<namespace>.<identityDomain>] and that has
    TLS settings, the mesh scan does the same for host [*.local]; rules for
    any other host never count.  [NamespaceMtlsStatus] is [finalStatus] on
    that mode and on the mode of the first selector-less policy. *)
Theorem destination_rule_scans (m : MtlsStatus) (namespace : string) (conf : Config) :
  hasDesinationRuleEnablingNamespacemTLS m namespace conf =
    Spec.first_rule_mode ("*." ++ namespace ++ "." ++ IstioIdentityDomain conf)%string
      (DestinationRules m) /\
  hasDestinationRuleMeshTLSDefinition m =
    Spec.first_rule_mode "*.local" (DestinationRules m) /\
  NamespaceMtlsStatus m namespace conf =
    finalStatus m
      (Spec.first_rule_mode ("*." ++ namespace ++ "." ++ IstioIdentityDomain conf)%string
         (DestinationRules m))
      (Spec.first_mode (filter Spec.no_selector (PeerAuthentications m))).
Proof.
  assert (Hns : hasDesinationRuleEnablingNamespacemTLS m namespace conf =
                Spec.first_rule_mode
                  ("*." ++ namespace ++ "." ++ IstioIdentityDomain conf)%string
                  (DestinationRules m)).
  { unfold hasDesinationRuleEnablingNamespacemTLS.
    induction (DestinationRules m) as [| dr drs IH]; [reflexivity |].
    cbn [hasDesinationRuleEnablingNamespacemTLS_loop]. rewrite first_rule_mode_cons.
    unfold DestinationRuleHasNamespaceWideMTLSEnabled.
    rewrite rule_for_host by apply namespace_host_not_empty.
    cbn zeta. rewrite IH. reflexivity. }
  split; [exact Hns |]. split.
  - clear Hns. unfold hasDestinationRuleMeshTLSDefinition.
    induction (DestinationRules m) as [| dr drs IH]; [reflexivity |].
    cbn [hasDestinationRuleMeshTLSDefinition_loop]. rewrite first_rule_mode_cons.
    rewrite rule_for_host by discriminate. cbn zeta. rewrite IH. reflexivity.
  - unfold NamespaceMtlsStatus. rewrite Hns.
    unfold hasPeerAuthnNamespacemTLSDefinition. rewrite policy_facts.namespace_loop_spec.
    reflexivity.
Qed.

Ltac split_on s c := destruct (String.eqb_spec s c) as [-> | ?].

Ltac mode_cases s :=
  split_on s "";
  [| split_on s "ISTIO_MUTUAL";
     [| split_on s "MUTUAL";
        [| split_on s "DISABLE";
           [| split_on s "STRICT"; [| split_on s "PERMISSIVE"]]]]].

(** The overall status [MeshMtlsStatus] reports, as a table of the two
    scanned modes: ENABLED as in [finalStatus], and also for an
    ISTIO_MUTUAL or MUTUAL rule without policy under auto-mTLS; DISABLED
    when the policy is DISABLE and the rule is DISABLE or absent, or the
    rule is DISABLE and there is no policy, with or without auto-mTLS;
    NOT_ENABLED exactly when neither is set; PARTIALLY_ENABLED
    otherwise.  One frame of [OverallMtlsStatus] is enough. *)
Theorem mesh_overall_table (m : MtlsStatus) (drStatus paStatus : string) (d : nat) :
  OverallMtlsStatus (S d) m TlsStatus_zero (finalStatus m drStatus paStatus) =
    Some (Spec.mesh_overall (AutoMtlsEnabled m) (AllowPermissive m) drStatus paStatus) /\
  MeshMtlsStatus (S d) m =
    Some {| DestinationRuleStatus := hasDestinationRuleMeshTLSDefinition m;
            PeerAuthenticationStatus := hasPeerAuthnMeshTLSDefinition m;
            OverallStatus :=
              Spec.mesh_overall (AutoMtlsEnabled m) (AllowPermissive m)
                (hasDestinationRuleMeshTLSDefinition m)
                (hasPeerAuthnMeshTLSDefinition m) |}.
Proof.
  assert (Htable : forall dr pa,
            OverallMtlsStatus (S d) m TlsStatus_zero (finalStatus m dr pa) =
            Some (Spec.mesh_overall (AutoMtlsEnabled m) (AllowPermissive m) dr pa)).
  { intros dr pa.
    cbn [OverallMtlsStatus]. rewrite mtls_facts.zero_not_defined, mtls_facts.zero_not_partial.
    unfold Spec.mesh_overall, Spec.mtlsEnabled.
    rewrite !decide_bool_decide.
    rewrite !bool_decide_and, !bool_decide_or, !bool_decide_and.
    rewrite !mtls_facts.bool_decide_string_eqb, !mtls_facts.bool_decide_is_true.
    unfold hasDefinedTls, hasNoConfig, hasPartialDisabledConfig, hasHalfTlsConfigDefined,
      hasPartialTlsConfig, finalStatus.
    cbn [OverallStatus DestinationRuleStatus PeerAuthenticationStatus].
    destruct (AutoMtlsEnabled m), (AllowPermissive m);
      mode_cases dr; mode_cases pa; reflexivity. }
  split; [apply Htable |].
  unfold MeshMtlsStatus. rewrite Htable. reflexivity.
Qed.

Lemma zero_range (m : MtlsStatus) (t : TlsStatus) (d : nat) :
  exists s, OverallMtlsStatus (S d) m TlsStatus_zero t = Some s /\
            s ∈ [MTLSEnabled; MTLSPartiallyEnabled; MTLSNotEnabled; MTLSDisabled].
Proof.
  cbn [OverallMtlsStatus]. rewrite mtls_facts.zero_not_defined, mtls_facts.zero_not_partial.
  destruct (hasDefinedTls t) eqn:Hd.
  - apply mtls_facts.hasDefinedTls_spec in Hd as [-> | ->]; eexists; (split; [reflexivity |]);
      rewrite !elem_of_cons; tauto.
  - repeat match goal with
      | |- context [if ?b then _ else _] => destruct b
      end; eexists; (split; [reflexivity |]); rewrite !elem_of_cons; tauto.
Qed.

(** Whatever the two statuses hold, [OverallMtlsStatus] returns one of
    the four status constants: an overall field with any other text is never
    passed through. *)
Theorem OverallMtlsStatus_range (m : MtlsStatus) (nsStatus meshStatus : TlsStatus) :
  exists s,
    (forall d, OverallMtlsStatus (3 + d) m nsStatus meshStatus = Some s) /\
    s ∈ [MTLSEnabled; MTLSPartiallyEnabled; MTLSNotEnabled; MTLSDisabled].
Proof.
  destruct (hasDefinedTls nsStatus) eqn:Hd.
  - exists (OverallStatus nsStatus). split.
    + intros d. cbn [OverallMtlsStatus Nat.add]. rewrite Hd. reflexivity.
    + apply mtls_facts.hasDefinedTls_spec in Hd as [-> | ->]; rewrite !elem_of_cons; tauto.
  - destruct (hasPartialTlsConfig nsStatus) eqn:Hp.
    + set (hybrid := finalStatus m
             (Spec.inherit (DestinationRuleStatus nsStatus) (DestinationRuleStatus meshStatus))
             (Spec.inherit (PeerAuthenticationStatus nsStatus)
                (PeerAuthenticationStatus meshStatus))).
      destruct (zero_range m hybrid 0) as (s & Hs & Hin).
      exists s. split; [| exact Hin]. intros d0. change (3 + d0) with (S (S (S d0))).
      rewrite (mtls_facts.Overall_partial_unfold _ _ _ _ Hp). fold hybrid.
      destruct (mtls_facts.Overall_zero_returns m hybrid) as [s' Hs'].
      rewrite Hs'. rewrite Hs' in Hs. exact Hs.
    + destruct (zero_range m meshStatus 0) as (s & Hs & Hin).
      exists s. split; [| exact Hin]. intros d0.
      destruct (mtls_facts.Overall_zero_returns m meshStatus) as [s' Hs'].
      rewrite Hs' in Hs. injection Hs as <-. rewrite <- (Hs' (2 + d0)).
      cbn [OverallMtlsStatus Nat.add]. rewrite Hd, Hp.
      rewrite mtls_facts.zero_not_defined, mtls_facts.zero_not_partial. reflexivity.
Qed.

(** A namespace status that is neither fully defined nor partial (a
    namespace without any policy, NOT_ENABLED) defers entirely to the mesh:
    the result is the one obtained with the empty namespace status, and the
    two mode fields of the namespace status are not looked at. *)
Theorem namespace_without_policy_defers (m : MtlsStatus) (nsStatus meshStatus : TlsStatus)
    (d : nat) :
  hasDefinedTls nsStatus = false -> hasPartialTlsConfig nsStatus = false ->
  OverallMtlsStatus (S d) m nsStatus meshStatus =
  OverallMtlsStatus (S d) m TlsStatus_zero meshStatus.
Proof.
  intros Hd Hp. cbn [OverallMtlsStatus].
  rewrite Hd, Hp, mtls_facts.zero_not_defined, mtls_facts.zero_not_partial. reflexivity.
Qed.

Lemma namespace_without_policy_defers_witness :
  OverallMtlsStatus 1 Examples.mesh_strict_example
    (finalStatus Examples.mesh_strict_example "" "")
    (finalStatus Examples.mesh_strict_example "" "STRICT") =
  OverallMtlsStatus 1 Examples.mesh_strict_example TlsStatus_zero
    (finalStatus Examples.mesh_strict_example "" "STRICT").
Proof.
  apply (namespace_without_policy_defers Examples.mesh_strict_example
           (finalStatus Examples.mesh_strict_example "" "")
           (finalStatus Examples.mesh_strict_example "" "STRICT") 0); reflexivity.
Defined.

(** A partial namespace status that sets both of its modes takes nothing
    from the mesh: the result is the same for every mesh status. *)
Theorem partial_namespace_with_both_modes (m : MtlsStatus)
    (nsStatus meshStatus meshStatus' : TlsStatus) (d : nat) :
  OverallStatus nsStatus = MTLSPartiallyEnabled ->
  DestinationRuleStatus nsStatus <> "" -> PeerAuthenticationStatus nsStatus <> "" ->
  OverallMtlsStatus (3 + d) m nsStatus meshStatus =
  OverallMtlsStatus (3 + d) m nsStatus meshStatus'.
Proof.
  intros Hp Hdr Hpa. apply mtls_facts.hasPartialTlsConfig_spec in Hp.
  change (3 + d) with (S (S (S d))).
  rewrite !(mtls_facts.Overall_partial_unfold _ _ _ _ Hp).
  unfold Spec.inherit. rewrite !decide_False by assumption. reflexivity.
Qed.

Lemma partial_namespace_with_both_modes_witness :
  OverallMtlsStatus 3 Examples.m_example
    (finalStatus Examples.m_example "DISABLE" "STRICT") Examples.mesh_example =
  OverallMtlsStatus 3 Examples.m_example
    (finalStatus Examples.m_example "DISABLE" "STRICT") Examples.ns_enabled_example.
Proof.
  apply (partial_namespace_with_both_modes Examples.m_example
           (finalStatus Examples.m_example "DISABLE" "STRICT")
           Examples.mesh_example Examples.ns_enabled_example 0);
    [reflexivity | discriminate | discriminate].
Defined.

End scan_facts.

(** ** The workload status, policy by policy (util/mtls/status.go) *)

Module workload_order_facts.
Import api kubernetes mtls.

Section Workload.
Variable Filter : list DestinationRule -> string -> string -> Config -> list DestinationRule.

Lemma drs_range (drs : list DestinationRule) (r : string) :
  WorkloadMtlsStatus_drs drs = Some r -> r = MTLSEnabled \/ r = MTLSDisabled.
Proof.
  induction drs as [| dr drs IH]; cbn [WorkloadMtlsStatus_drs]; [discriminate |].
  destruct (DestinationRuleHasMTLSEnabled dr) as [enabled mode].
  destruct (enabled || String.eqb mode "MUTUAL"); [intros [= <-]; left; reflexivity |].
  destruct (String.eqb mode "DISABLE"); [intros [= <-]; right; reflexivity | exact IH].
Qed.

Lemma services_range (m : MtlsStatus) (namespace : string) (conf : Config)
    (selector : gmap string string) (svcs : list Service) (r : string) :
  WorkloadMtlsStatus_services Filter m namespace conf selector svcs = Some r ->
  r = MTLSEnabled \/ r = MTLSDisabled.
Proof.
  induction svcs as [| svc svcs IH]; cbn [WorkloadMtlsStatus_services]; [discriminate |].
  destruct (negb _ || _); [exact IH |].
  destruct (labels.Matches selector (svc_Selector svc)); [| exact IH].
  destruct (WorkloadMtlsStatus_drs _) as [r' |] eqn:E; [| exact IH].
  intros [= <-]. exact (drs_range _ _ E).
Qed.

(** The workload status is ENABLED, DISABLED or NOT_ENABLED: it is never
    PARTIALLY_ENABLED, whatever the policies, rules and services. *)
Theorem WorkloadMtlsStatus_range (m : MtlsStatus) (namespace : string) (conf : Config) :
  WorkloadMtlsStatus Filter m namespace conf ∈ [MTLSEnabled; MTLSDisabled; MTLSNotEnabled] /\
  WorkloadMtlsStatus Filter m namespace conf <> MTLSPartiallyEnabled.
Proof.
  assert (H : WorkloadMtlsStatus Filter m namespace conf
              ∈ [MTLSEnabled; MTLSDisabled; MTLSNotEnabled]).
  { unfold WorkloadMtlsStatus.
    induction (PeerAuthentications m) as [| pa pas IH]; cbn [WorkloadMtlsStatus_loop].
    - right; right; left.
    - destruct (pa_Selector pa) as [sel |]; [| exact IH].
      destruct (len_map (MatchLabels sel) =? 0)%nat; [exact IH |].
      destruct (negb _); [exact IH |].
      destruct (String.eqb _ "STRICT"); [left |].
      destruct (String.eqb _ "DISABLE"); [right; left |].
      destruct (String.eqb _ "PERMISSIVE"); [| exact IH].
      destruct (List.length (DestinationRules m) =? 0)%nat; [right; right; left |].
      destruct (WorkloadMtlsStatus_services _ _ _ _ _ _) as [r |] eqn:E;
        [| right; right; left].
      destruct (services_range _ _ _ _ _ _ E) as [-> | ->]; [left | right; left]. }
  split; [exact H |]. intros E. rewrite E in H. revert H.
  rewrite !elem_of_cons, elem_of_nil. intros [H | [H | [H | []]]]; discriminate H.
Qed.

(** What one iteration does on a policy that selects the workload. *)
Lemma loop_selected (m : MtlsStatus) (namespace : string) (conf : Config)
    (pa : PeerAuthentication) (post : list PeerAuthentication)
    (sel : WorkloadSelector) (l : gmap string string) :
  pa_Selector pa = Some sel -> MatchLabels sel = Some l ->
  l <> ∅ -> l ⊆ MatchingLabels m ->
  WorkloadMtlsStatus_loop Filter m namespace conf (pa :: post) =
  if String.eqb (Spec.policy_mode pa) "STRICT" then MTLSEnabled
  else if String.eqb (Spec.policy_mode pa) "DISABLE" then MTLSDisabled
  else if String.eqb (Spec.policy_mode pa) "PERMISSIVE" then
    if (List.length (DestinationRules m) =? 0)%nat then MTLSNotEnabled
    else match WorkloadMtlsStatus_services Filter m namespace conf l (Services m) with
         | Some r => r
         | None => MTLSNotEnabled
         end
  else WorkloadMtlsStatus_loop Filter m namespace conf post.
Proof.
  intros Hsel Hl Hne Hsub.
  cbn [WorkloadMtlsStatus_loop]. rewrite Hsel, Hl. cbn [len_map].
  destruct (Nat.eqb_spec (size l) 0) as [Hz | _].
  { exfalso. apply Hne, map_size_empty_iff, Hz. }
  change (default ∅ (Some l)) with l.
  rewrite (proj2 (workload_facts.Matches_subseteq l (MatchingLabels m)) Hsub).
  cbn [negb]. rewrite policy_facts.PeerAuthnMTLSMode_mode. reflexivity.
Qed.

(** The first policy of the list that selects the workload decides when
    its mode is STRICT (ENABLED), DISABLE (DISABLED) or PERMISSIVE: the
    policies after it are not consulted, and a PERMISSIVE policy without any
    destination rule gives NOT_ENABLED.  A selecting policy with another
    mode (no mTLS block, or UNSET) decides nothing: the result is the one of
    the policies after it. *)
Theorem first_selecting_policy (m : MtlsStatus) (namespace : string) (conf : Config)
    (pre post : list PeerAuthentication) (pa : PeerAuthentication) :
  PeerAuthentications m = pre ++ pa :: post ->
  (forall p, p ∈ pre -> ~ Spec.selects p (MatchingLabels m)) ->
  Spec.selects pa (MatchingLabels m) ->
  (Spec.policy_mode pa = "STRICT" ->
   WorkloadMtlsStatus Filter m namespace conf = MTLSEnabled) /\
  (Spec.policy_mode pa = "DISABLE" ->
   WorkloadMtlsStatus Filter m namespace conf = MTLSDisabled) /\
  (Spec.policy_mode pa = "PERMISSIVE" -> DestinationRules m = [] ->
   WorkloadMtlsStatus Filter m namespace conf = MTLSNotEnabled) /\
  (Spec.policy_mode pa = "PERMISSIVE" ->
   WorkloadMtlsStatus Filter m namespace conf =
   WorkloadMtlsStatus_loop Filter m namespace conf [pa]) /\
  (Spec.policy_mode pa = "" \/ Spec.policy_mode pa = "UNSET" ->
   WorkloadMtlsStatus Filter m namespace conf =
   WorkloadMtlsStatus_loop Filter m namespace conf post).
Proof.
  intros Hpas Hpre Hsel.
  assert (Hskip : WorkloadMtlsStatus Filter m namespace conf =
                  WorkloadMtlsStatus_loop Filter m namespace conf (pa :: post)).
  { unfold WorkloadMtlsStatus. rewrite Hpas. clear Hpas.
    induction pre as [| p pre IH]; [reflexivity |].
    cbn [app]. rewrite workload_facts.loop_skip by (apply Hpre; left).
    apply IH. intros q Hq. apply Hpre. right. exact Hq. }
  destruct Hsel as (sel & l & Hs & Hm & Hne & Hsub).
  rewrite Hskip, (loop_selected m namespace conf pa post sel l Hs Hm Hne Hsub).
  split; [intros ->; reflexivity |].
  split; [intros ->; reflexivity |].
  split; [intros -> ->; reflexivity |].
  split.
  - intros Hmode.
    rewrite (loop_selected m namespace conf pa [] sel l Hs Hm Hne Hsub), Hmode.
    reflexivity.
  - intros [Hmode | Hmode]; rewrite Hmode; reflexivity.
Qed.

Lemma services_none (m : MtlsStatus) (namespace : string) (conf : Config)
    (l : gmap string string) (svcs : list Service) :
  (forall svc, svc ∈ svcs ->
     ~ (svc_Namespace svc = namespace /\ svc_Selector svc <> ∅ /\ l ⊆ svc_Selector svc)) ->
  WorkloadMtlsStatus_services Filter m namespace conf l svcs = None.
Proof.
  induction svcs as [| svc svcs IH]; intros Hall; [reflexivity |].
  cbn [WorkloadMtlsStatus_services].
  assert (Hrest : WorkloadMtlsStatus_services Filter m namespace conf l svcs = None)
    by (apply IH; intros t Ht; apply Hall; right; exact Ht).
  destruct (String.eqb_spec (svc_Namespace svc) namespace) as [Hns | Hns]; cbn [negb orb];
    [| exact Hrest].
  destruct (Nat.eqb_spec (size (svc_Selector svc)) 0) as [Hz | Hz]; [exact Hrest |].
  destruct (labels.Matches l (svc_Selector svc)) eqn:Hm; [| exact Hrest].
  exfalso. apply (Hall svc); [left |]. repeat split.
  - exact Hns.
  - intros E. apply Hz. rewrite E. apply map_size_empty.
  - apply workload_facts.Matches_subseteq. exact Hm.
Qed.

(** Under a PERMISSIVE policy that selects the workload first, only the
    services of the evaluated namespace that have a selector containing
    every label of the policy are looked at: when there is none, the status
    is NOT_ENABLED whatever the destination rules say. *)
Theorem permissive_without_matching_service (m : MtlsStatus) (namespace : string)
    (conf : Config) (pre post : list PeerAuthentication) (pa : PeerAuthentication)
    (sel : WorkloadSelector) (l : gmap string string) :
  PeerAuthentications m = pre ++ pa :: post ->
  (forall p, p ∈ pre -> ~ Spec.selects p (MatchingLabels m)) ->
  pa_Selector pa = Some sel -> MatchLabels sel = Some l ->
  l <> ∅ -> l ⊆ MatchingLabels m ->
  Spec.policy_mode pa = "PERMISSIVE" ->
  (forall svc, svc ∈ Services m ->
     ~ (svc_Namespace svc = namespace /\ svc_Selector svc <> ∅ /\ l ⊆ svc_Selector svc)) ->
  WorkloadMtlsStatus Filter m namespace conf = MTLSNotEnabled.
Proof.
  intros Hpas Hpre Hs Hm Hne Hsub Hmode Hsvcs.
  unfold WorkloadMtlsStatus. rewrite Hpas. clear Hpas.
  induction pre as [| p pre IH].
  - cbn [app]. rewrite (loop_selected m namespace conf pa post sel l Hs Hm Hne Hsub), Hmode.
    cbn. rewrite (services_none m namespace conf l (Services m) Hsvcs).
    destruct (List.length (DestinationRules m) =? 0)%nat; reflexivity.
  - cbn [app]. rewrite workload_facts.loop_skip by (apply Hpre; left).
    apply IH. intros q Hq. apply Hpre. right. exact Hq.
Qed.

End Workload.

Lemma permissive_without_matching_service_witness :
  WorkloadMtlsStatus Examples.filter_by_host
    (Examples.workload_example [Examples.pa_reviews PA_PERMISSIVE]
       [Examples.destinationRuleWithMTLS "dr1" "bookinfo"
          "ratings.bookinfo.svc.cluster.local" TLS_ISTIO_MUTUAL]
       [Examples.ratings])
    "bookinfo" Examples.conf_default = MTLSNotEnabled.
Proof.
  apply (permissive_without_matching_service Examples.filter_by_host
           (Examples.workload_example [Examples.pa_reviews PA_PERMISSIVE]
              [Examples.destinationRuleWithMTLS "dr1" "bookinfo"
                 "ratings.bookinfo.svc.cluster.local" TLS_ISTIO_MUTUAL]
              [Examples.ratings])
           "bookinfo" Examples.conf_default [] [] (Examples.pa_reviews PA_PERMISSIVE)
           {| MatchLabels := Some {["app" := "reviews"]} |} {["app" := "reviews"]}
           eq_refl).
  - intros p Hp. inversion Hp.
  - reflexivity.
  - reflexivity.
  - intros E. apply (f_equal (fun x : gmap string string => x !! "app")) in E.
    rewrite lookup_singleton_eq, lookup_empty in E. discriminate E.
  - reflexivity.
  - reflexivity.
  - intros svc Hsvc (_ & _ & Hsub).
    apply elem_of_cons in Hsvc as [-> | Hsvc]; [| inversion Hsvc].
    change (({["app" := "reviews"]} : gmap string string) ⊆ {["app" := "ratings"]}) in Hsub.
    rewrite map_subseteq_spec in Hsub.
    specialize (Hsub "app" "reviews" (lookup_singleton_eq _ _)).
    rewrite lookup_singleton_eq in Hsub. discriminate Hsub.
Defined.

Lemma first_selecting_policy_witness :
  WorkloadMtlsStatus Examples.filter_by_host
    (Examples.workload_example
       [Examples.peerAuthnNoSelector "pa-mesh" "istio-system" PA_DISABLE;
        Examples.pa_reviews PA_UNSET;
        Examples.pa_reviews PA_STRICT;
        Examples.pa_reviews PA_DISABLE]
       [] [])
    "bookinfo" Examples.conf_default = MTLSEnabled.
Proof.
  assert (Hsel : forall mode, Spec.selects (Examples.pa_reviews mode) {["app" := "reviews"]}).
  { intros mode. eexists _, _. repeat split.
    - intros E. apply (f_equal (fun x : gmap string string => x !! "app")) in E.
      rewrite lookup_singleton_eq, lookup_empty in E. discriminate E.
    - reflexivity. }
  pose (m0 := Examples.workload_example
                [Examples.peerAuthnNoSelector "pa-mesh" "istio-system" PA_DISABLE;
                 Examples.pa_reviews PA_UNSET;
                 Examples.pa_reviews PA_STRICT;
                 Examples.pa_reviews PA_DISABLE]
                [] []).
  change (WorkloadMtlsStatus Examples.filter_by_host m0 "bookinfo" Examples.conf_default
          = MTLSEnabled).
  transitivity
    (WorkloadMtlsStatus_loop Examples.filter_by_host m0 "bookinfo" Examples.conf_default
       [Examples.pa_reviews PA_STRICT; Examples.pa_reviews PA_DISABLE]).
  - apply (first_selecting_policy Examples.filter_by_host m0 "bookinfo" Examples.conf_default
             [Examples.peerAuthnNoSelector "pa-mesh" "istio-system" PA_DISABLE]
             [Examples.pa_reviews PA_STRICT; Examples.pa_reviews PA_DISABLE]
             (Examples.pa_reviews PA_UNSET) eq_refl).
    + intros p Hp (sel & l & Hs & _).
      apply elem_of_cons in Hp as [-> | Hp]; [discriminate Hs | inversion Hp].
    + apply Hsel.
    + right. reflexivity.
  - reflexivity.
Defined.

End workload_order_facts.
